(** * The PostgreSQL vector store of langroid: a shallow embedding

    This development embeds [langroid/vector_store/postgres.py] (class
    [PostgresDB]) and the [DocMetaData] / [Document] models of
    [langroid/mytypes.py], and states the store's contracts about them.

    Conventions.
    - A Python [str] is a list of Unicode code points ([list N]); [py "..."]
      writes an ASCII literal.  [bytes] are lists of numbers below 256.
    - Python exceptions are values of [exn]; a call that may raise returns a
      [result].
    - The pure-Python and fixed-algorithm parts of the standard library that
      [_id_to_uuid] runs ([uuid.UUID], [uuid.uuid5], [hashlib.sha1],
      [hashlib.sha256], the UTF-8 codec) are written out in the modules
      [codecs], [hashlib] and [uuid].  What depends on data outside the
      sources (the Unicode database, [repr] of a pydantic object,
      [json.loads], the embedding model, pgvector's distance, what the
      server reads in a statement text) is a field of the classes
      [PythonRuntime], [Collaborators] and [PostgreSQL].
    - The database is modelled by what its statements mean: a table is the
      list of its rows, WHERE is [filter], ORDER BY a stable sort, LIMIT
      [take].  A method that changes the store returns the store with what
      it returns or raises: what it has done before it raises stays done. *)

From Stdlib Require Import ZArith NArith QArith Lqa List String Ascii Lia Bool Permutation Sorted.
From stdpp Require Import gmap strings list fin_maps functions sorting.

Close Scope Q_scope.
Open Scope N_scope.
Set Warnings "-register-all".

(** ** Python values *)

(** Exceptions that the embedded code raises or lets through. *)
Inductive exn : Type :=
| ValueError            (* raised by uuid.UUID and by similar_texts_with_scores *)
| UnicodeEncodeError    (* a subclass of ValueError, raised by the UTF-8 codec *)
| ValidationError       (* pydantic's, a subclass of ValueError *)
| IntegrityError        (* sqlalchemy.exc.IntegrityError: primary key violated *)
| ProgrammingError      (* sqlalchemy.exc.ProgrammingError: statement refused *)
| DataError             (* sqlalchemy.exc.DataError: a negative LIMIT *)
| NoSuchTableError.     (* sqlalchemy.exc.NoSuchTableError: a table to reflect is gone *)

Inductive result (A : Type) : Type :=
| Ok (a : A)
| Raise (e : exn).
Arguments Ok {A} a.
Arguments Raise {A} e.

Definition is_ok {A} (r : result A) : bool :=
  match r with Ok _ => true | Raise _ => false end.

(** [[f(x) for x in l]] where [f] may raise: the first exception ends the
    comprehension. *)
Fixpoint comprehension {A B} (f : A -> result B) (l : list A) : result (list B) :=
  match l with
  | [] => Ok []
  | x :: l' =>
      match f x with
      | Raise e => Raise e
      | Ok y =>
          match comprehension f l' with
          | Raise e => Raise e
          | Ok ys => Ok (y :: ys)
          end
      end
  end.

(** An ASCII literal as a Python [str]. *)
Definition py (s : string) : list N :=
  map N_of_ascii (list_ascii_of_string s).
Arguments py : simpl never.

Definition str_eqb (a b : list N) : bool := bool_decide (a = b).

(** [s.startswith(prefix)] *)
Fixpoint startswith (s prefix : list N) : bool :=
  match prefix, s with
  | [], _ => true
  | _ :: _, [] => false
  | p :: prefix', c :: s' => (c =? p) && startswith s' prefix'
  end.

(** [s.replace(old, new)] for a non-empty [old]: occurrences are replaced
    from the left and do not overlap.  [skip] counts the characters of an
    occurrence that is being passed over. *)
Fixpoint replace_from (old new : list N) (skip : nat) (s : list N) : list N :=
  match s with
  | [] => []
  | c :: s' =>
      match skip with
      | S k => replace_from old new k s'
      | O =>
          if startswith s old
          then new ++ replace_from old new (Nat.pred (length old)) s'
          else c :: replace_from old new 0 s'
      end
  end.

Definition replace (old new s : list N) : list N := replace_from old new 0 s.

Definition mem (c : N) (chars : list N) : bool := existsb (N.eqb c) chars.

Fixpoint lstrip (chars s : list N) : list N :=
  match s with
  | c :: s' => if mem c chars then lstrip chars s' else s
  | [] => []
  end.

(** [s.strip(chars)] *)
Definition strip (chars s : list N) : list N :=
  rev (lstrip chars (rev (lstrip chars s))).

(** ** The UTF-8 codec ([str.encode()], [bytes(s, "utf-8")]) *)
Module codecs.

(** One code point; a surrogate (U+D800..U+DFFF) cannot be encoded. *)
Definition utf8_char (c : N) : option (list N) :=
  if c <? 0x80 then Some [c]
  else if c <? 0x800 then
    Some [N.lor 0xC0 (N.shiftr c 6); N.lor 0x80 (N.land c 0x3F)]
  else if c <? 0x10000 then
    if (0xD800 <=? c) && (c <=? 0xDFFF) then None
    else Some [N.lor 0xE0 (N.shiftr c 12);
               N.lor 0x80 (N.land (N.shiftr c 6) 0x3F);
               N.lor 0x80 (N.land c 0x3F)]
  else if c <? 0x110000 then
    Some [N.lor 0xF0 (N.shiftr c 18);
          N.lor 0x80 (N.land (N.shiftr c 12) 0x3F);
          N.lor 0x80 (N.land (N.shiftr c 6) 0x3F);
          N.lor 0x80 (N.land c 0x3F)]
  else None.

(** [None] stands for [UnicodeEncodeError]. *)
Fixpoint utf8_encode (s : list N) : option (list N) :=
  match s with
  | [] => Some []
  | c :: s' =>
      match utf8_char c, utf8_encode s' with
      | Some b, Some bs => Some (b ++ bs)
      | _, _ => None
      end
  end.

(** The strings the codec accepts: no surrogate, nothing past U+10FFFF. *)
Definition encodable (s : list N) : Prop :=
  Forall (fun c => c < 0x110000 /\ ~ (0xD800 <= c <= 0xDFFF)) s.

End codecs.

(** ** hashlib: SHA-1 and SHA-256 (FIPS 180-4) on 32-bit words *)
Module hashlib.

Definition add32 (x y : N) : N := (x + y) mod 2^32.
Definition shl32 (n x : N) : N := N.shiftl x n mod 2^32.
Definition rotr32 (n x : N) : N := N.lor (N.shiftr x n) (shl32 (32 - n) x).
Definition rotl32 (n x : N) : N := N.lor (shl32 n x) (N.shiftr x (32 - n)).
Definition not32 (x : N) : N := N.lxor x (2^32 - 1).

(** Big-endian bytes of a number, [n] of them. *)
Fixpoint to_bytes (n : nat) (v : N) : list N :=
  match n with
  | O => []
  | S n' => to_bytes n' (v / 256) ++ [v mod 256]
  end.

(** [int.from_bytes(b, "big")] *)
Definition from_bytes (b : list N) : N :=
  fold_left (fun acc x => acc * 256 + x) b 0.

(** Padding of section 5.1.1: a one bit, zeros up to 56 modulo 64 bytes, the
    bit length on 8 bytes. *)
Definition pad (msg : list N) : list N :=
  let len := N.of_nat (length msg) in
  let zeros := (119 - len mod 64) mod 64 in
  msg ++ [0x80] ++ repeat 0 (N.to_nat zeros) ++ to_bytes 8 (8 * len).

Fixpoint words (fuel : nat) (b : list N) : list N :=
  match fuel, b with
  | S f, _ :: _ => from_bytes (take 4 b) :: words f (drop 4 b)
  | _, _ => []
  end.

Fixpoint blocks (fuel : nat) (ws : list N) : list (list N) :=
  match fuel, ws with
  | S f, _ :: _ => take 16 ws :: blocks f (drop 16 ws)
  | _, _ => []
  end.

Definition message_blocks (msg : list N) : list (list N) :=
  let b := pad msg in
  let ws := words (length b) b in
  blocks (length ws) ws.

Definition word (ws : list N) (i : nat) : N := nth i ws 0.

(** *** SHA-256 *)

Definition is_prime (n : nat) : bool :=
  (1 <? n)%nat && forallb (fun d => negb (n mod d =? 0)%nat) (seq 2 (n - 2)).

Definition primes64 : list N :=
  Eval vm_compute in map N.of_nat (filter is_prime (seq 2 310)).

(** The integer cube root, built bit by bit from bit 40 down. *)
Definition icbrt (n : N) : N :=
  fold_left (fun r b => let r' := r + 2 ^ N.of_nat b in
                        if r' * r' * r' <=? n then r' else r)
            (rev (seq 0 41)) 0.

(** The round constants: the first 32 bits of the fractional parts of the
    cube roots of the first 64 primes. *)
Definition K256 : list N :=
  Eval vm_compute in map (fun p => icbrt (p * 2^96) mod 2^32) primes64.

(** The initial hash value: the same of the square roots of the first 8. *)
Definition H256 : list N :=
  Eval vm_compute in map (fun p => N.sqrt (p * 2^64) mod 2^32) (take 8 primes64).

Definition Ch (x y z : N) : N := N.lxor (N.land x y) (N.land (not32 x) z).
Definition Maj (x y z : N) : N :=
  N.lxor (N.lxor (N.land x y) (N.land x z)) (N.land y z).
Definition Sigma0 x := N.lxor (N.lxor (rotr32 2 x) (rotr32 13 x)) (rotr32 22 x).
Definition Sigma1 x := N.lxor (N.lxor (rotr32 6 x) (rotr32 11 x)) (rotr32 25 x).
Definition sigma0 x := N.lxor (N.lxor (rotr32 7 x) (rotr32 18 x)) (N.shiftr x 3).
Definition sigma1 x := N.lxor (N.lxor (rotr32 17 x) (rotr32 19 x)) (N.shiftr x 10).

(** The message schedule, latest word first: [rw] holds W(t-1), W(t-2), ... *)
Fixpoint schedule256 (n : nat) (rw : list N) : list N :=
  match n with
  | O => rw
  | S n' =>
      let wt := add32 (add32 (sigma1 (word rw 1)) (word rw 6))
                      (add32 (sigma0 (word rw 14)) (word rw 15)) in
      schedule256 n' (wt :: rw)
  end.

Definition round256 (st : list N) (kw : N * N) : list N :=
  match st with
  | [a; b; c; d; e; f; g; h] =>
      let t1 := add32 (add32 (add32 h (Sigma1 e)) (add32 (Ch e f g) (fst kw))) (snd kw) in
      let t2 := add32 (Sigma0 a) (Maj a b c) in
      [add32 t1 t2; a; b; c; add32 d t1; e; f; g]
  | _ => st
  end.

Definition compress256 (H : list N) (block : list N) : list N :=
  let W := rev (schedule256 48 (rev block)) in
  let st := fold_left round256 (combine K256 W) H in
  map (fun p => add32 (fst p) (snd p)) (combine H st).

(** [hashlib.sha256(msg).digest()] *)
Definition sha256 (msg : list N) : list N :=
  concat (map (to_bytes 4) (fold_left compress256 (message_blocks msg) H256)).

(** *** SHA-1 *)

Definition f1 (t : nat) (b c d : N) : N :=
  if (t <? 20)%nat then N.lor (N.land b c) (N.land (not32 b) d)
  else if (t <? 40)%nat then N.lxor (N.lxor b c) d
  else if (t <? 60)%nat then N.lor (N.lor (N.land b c) (N.land b d)) (N.land c d)
  else N.lxor (N.lxor b c) d.

Definition K1 (t : nat) : N :=
  if (t <? 20)%nat then 0x5A827999
  else if (t <? 40)%nat then 0x6ED9EBA1
  else if (t <? 60)%nat then 0x8F1BBCDC
  else 0xCA62C1D6.

Fixpoint schedule1 (n : nat) (rw : list N) : list N :=
  match n with
  | O => rw
  | S n' =>
      let wt := rotl32 1 (N.lxor (N.lxor (word rw 2) (word rw 7))
                                 (N.lxor (word rw 13) (word rw 15))) in
      schedule1 n' (wt :: rw)
  end.

Definition state1 : Type := N * N * N * N * N.

Definition round1 (st : state1) (tw : nat * N) : state1 :=
  let '(a, b, c, d, e) := st in
  let t := add32 (add32 (add32 (rotl32 5 a) (f1 (fst tw) b c d))
                        (add32 e (K1 (fst tw)))) (snd tw) in
  (t, a, rotl32 30 b, c, d).

Definition compress1 (H : state1) (block : list N) : state1 :=
  let W := rev (schedule1 64 (rev block)) in
  let '(a, b, c, d, e) := fold_left round1 (combine (seq 0 80) W) H in
  let '(h0, h1, h2, h3, h4) := H in
  (add32 h0 a, add32 h1 b, add32 h2 c, add32 h3 d, add32 h4 e).

Definition H1 : state1 :=
  (0x67452301, 0xEFCDAB89, 0x98BADCFE, 0x10325476, 0xC3D2E1F0).

(** [hashlib.sha1(msg).digest()] *)
Definition sha1 (msg : list N) : list N :=
  let '(h0, h1, h2, h3, h4) := fold_left compress1 (message_blocks msg) H1 in
  to_bytes 4 h0 ++ to_bytes 4 h1 ++ to_bytes 4 h2 ++ to_bytes 4 h3 ++ to_bytes 4 h4.

(** [bytes.hex()]: two lower-case digits per byte. *)
Definition hexchar (d : N) : N := if d <? 10 then 48 + d else 87 + d.

Definition hexlify (b : list N) : list N :=
  flat_map (fun x => [hexchar (x / 16); hexchar (x mod 16)]) b.

End hashlib.

(** ** The Unicode database

    [int(s, 16)] accepts, besides ASCII, the decimal digits and the spaces of
    every script.  Which code points these are is data of the interpreter's
    Unicode database; the tables are asked only about code points past
    ASCII. *)
Class UnicodeData : Type := {
  unicode_isspace : N -> bool;          (* Py_UNICODE_ISSPACE *)
  unicode_todecimal : N -> option N     (* Py_UNICODE_TODECIMAL, a digit 0..9 *)
}.

(** ** uuid: [uuid.UUID(hex)], [str(UUID)], [uuid.uuid5] *)
Module uuid.

Section WithUnicode.
Context `{UnicodeData}.

(** _PyUnicode_TransformDecimalAndSpaceToASCII: an ASCII string is taken as it
    is; otherwise spaces become [' '] and decimal digits their ASCII digit,
    and the first character that is neither becomes ['?'] and ends the
    string. *)
Fixpoint transform (s : list N) : list N :=
  match s with
  | [] => []
  | ch :: s' =>
      if ch <? 127 then ch :: transform s'
      else if unicode_isspace ch then 32 :: transform s'
      else match unicode_todecimal ch with
           | Some decimal => (48 + decimal) :: transform s'
           | None => [63]
           end
  end.

Definition to_ascii (s : list N) : list N :=
  if forallb (fun c => c <? 128) s then s else transform s.

(** Py_ISSPACE *)
Definition c_space : list N := [9; 10; 11; 12; 13; 32].

(** _PyLong_DigitValue *)
Definition digit_value (c : N) : option N :=
  if (48 <=? c) && (c <=? 57) then Some (c - 48)
  else if (97 <=? c) && (c <=? 122) then Some (c - 87)
  else if (65 <=? c) && (c <=? 90) then Some (c - 55)
  else None.

Definition is_digit16 (c : N) : bool :=
  match digit_value c with Some d => d <? 16 | None => false end.

(** The digits of a base-16 literal: single underscores may separate digits,
    none may end the run.  The result is the value, the number of digits and
    what follows the run. *)
Fixpoint digits16 (prev_us : bool) (acc : N) (n : nat) (s : list N)
  : option (N * nat * list N) :=
  match s with
  | c :: s' =>
      if c =? 95 then
        if prev_us then None else digits16 true acc n s'
      else
        match digit_value c with
        | Some d =>
            if d <? 16 then digits16 false (acc * 16 + d) (S n) s'
            else if prev_us then None else Some (acc, n, s)
        | None => if prev_us then None else Some (acc, n, s)
        end
  | [] => if prev_us then None else Some (acc, n, s)
  end.

(** An optional sign. *)
Definition is_negative (s : list N) : bool :=
  match s with c :: _ => c =? 45 | [] => false end.

Definition skip_sign (s : list N) : list N :=
  match s with
  | c :: r => if (c =? 43) || (c =? 45) then r else s
  | [] => s
  end.

(** An optional [0x] or [0X], after which one underscore may stand. *)
Definition skip_prefix16 (s : list N) : list N :=
  match s with
  | c :: x :: r =>
      if (c =? 48) && ((x =? 120) || (x =? 88))
      then match r with
           | u :: r' => if u =? 95 then r' else r
           | [] => r
           end
      else s
  | _ => s
  end.

Definition starts_with_underscore (s : list N) : bool :=
  match s with c :: _ => c =? 95 | [] => false end.

(** [int(s, 16)] (PyLong_FromString with base 16); [None] is [ValueError]. *)
Definition int16 (s : list N) : option Z :=
  let s := lstrip c_space (to_ascii s) in
  let negative := is_negative s in
  let s := skip_prefix16 (skip_sign s) in
  if starts_with_underscore s then None
  else
    match digits16 false 0 0 s with
    | Some (v, S _, rest) =>
        match lstrip c_space rest with
        | [] => Some (if negative then (- Z.of_N v)%Z else Z.of_N v)
        | _ :: _ => None
        end
    | _ => None
    end.

(** [uuid.UUID(hex)]: the 128-bit value, or [ValueError]. *)
Definition UUID (hex : list N) : result N :=
  let hex := replace (py "uuid:") [] (replace (py "urn:") [] hex) in
  let hex := replace (py "-") [] (strip (py "{}") hex) in
  if negb (length hex =? 32)%nat then Raise ValueError
  else
    match int16 hex with
    | None => Raise ValueError
    | Some i =>
        if (0 <=? i)%Z && (i <? 2 ^ 128)%Z then Ok (Z.to_N i)
        else Raise ValueError
    end.

End WithUnicode.

(** ['%0nx' % v] for a value of at most [n] digits. *)
Fixpoint hex_digits (n : nat) (v : N) : list N :=
  match n with
  | O => []
  | S n' => hex_digits n' (v / 16) ++ [hashlib.hexchar (v mod 16)]
  end.

(** The 8-4-4-4-12 grouping of 32 digits. *)
Definition hyphenate (h : list N) : list N :=
  take 8 h ++ [45] ++ take 4 (drop 8 h) ++ [45] ++ take 4 (drop 12 h)
    ++ [45] ++ take 4 (drop 16 h) ++ [45] ++ drop 20 h.

(** [str(uuid.UUID(int=v))] *)
Definition to_str (v : N) : list N := hyphenate (hex_digits 32 v).

(** [uuid.NAMESPACE_DNS.bytes] *)
Definition NAMESPACE_DNS : list N :=
  hashlib.to_bytes 16 0x6ba7b8109dad11d180b400c04fd430c8.

(** [UUID(bytes=b, version=v)]: the variant becomes RFC 4122, the version [v]. *)
Definition UUID_of_bytes (b : list N) (version : N) : result N :=
  if negb (length b =? 16)%nat then Raise ValueError
  else
    let int := hashlib.from_bytes b in
    let int := N.ldiff int (N.shiftl 0xc000 48) in
    let int := N.lor int (N.shiftl 0x8000 48) in
    let int := N.ldiff int (N.shiftl 0xf000 64) in
    let int := N.lor int (N.shiftl version 76) in
    Ok int.

(** [uuid.uuid5(NAMESPACE_DNS, name)]; [bytes(name, "utf-8")] raises
    [UnicodeEncodeError] on a name that holds a surrogate. *)
Definition uuid5 (name : list N) : result N :=
  match codecs.utf8_encode name with
  | None => Raise UnicodeEncodeError
  | Some b => UUID_of_bytes (take 16 (hashlib.sha1 (NAMESPACE_DNS ++ b))) 5
  end.

(** A string that is its own lower-case 8-4-4-4-12 form. *)
Definition is_hex_lower (c : N) : bool :=
  (48 <=? c) && (c <=? 57) || (97 <=? c) && (c <=? 102).

Definition canonical (s : list N) : bool :=
  let h := filter (fun c => c <> 45) s in
  (length h =? 32)%nat && forallb is_hex_lower h && str_eqb s (hyphenate h).

End uuid.

(** ** JSON values and jsonb containment *)

(** What [json.loads] returns and what a JSONB column holds.  A number is
    kept by its value. *)
Inductive JSON : Type :=
| JNull
| JBool (b : bool)
| JNum (q : Q)
| JStr (s : list N)
| JArr (xs : list JSON)
| JObj (kvs : list (list N * JSON)).

(** [d.get(k)] on an object's members. *)
Fixpoint dict_get (k : list N) (kvs : list (list N * JSON)) : option JSON :=
  match kvs with
  | [] => None
  | (k', v) :: kvs' => if str_eqb k' k then Some v else dict_get k kvs'
  end.

Definition scalar_eqb (a b : JSON) : bool :=
  match a, b with
  | JNull, JNull => true
  | JBool x, JBool y => Bool.eqb x y
  | JNum x, JNum y => Qeq_bool x y
  | JStr x, JStr y => str_eqb x y
  | _, _ => false
  end.

(** [a @> b] below the top level: an object contains an object when it has
    every member of it with a value that contains the member's, an array
    contains an array when each element of the second is contained in some
    element of the first, scalars are compared by value. *)
Fixpoint contained_in (b : JSON) : JSON -> bool :=
  match b with
  | JArr ys =>
      fun a =>
        match a with
        | JArr xs =>
            (fix each (ys : list JSON) : bool :=
               match ys with
               | [] => true
               | y :: ys' => existsb (contained_in y) xs && each ys'
               end) ys
        | _ => false
        end
  | JObj kvs =>
      fun a =>
        match a with
        | JObj akvs =>
            (fix each (kvs : list (list N * JSON)) : bool :=
               match kvs with
               | [] => true
               | (k, v) :: kvs' =>
                   match dict_get k akvs with
                   | Some av => contained_in v av
                   | None => false
                   end && each kvs'
               end) kvs
        | _ => false
        end
  | _ => fun a => scalar_eqb a b
  end.

(** PostgreSQL's [a @> b] on jsonb: at the top level an array also contains
    a scalar that is one of its elements. *)
Definition jsonb_contains (a b : JSON) : bool :=
  match a, b with
  | JArr xs, (JNull | JBool _ | JNum _ | JStr _) => existsb (fun x => scalar_eqb x b) xs
  | _, _ => contained_in b a
  end.

(** ** langroid.mytypes *)
Module mytypes.

(** [DocMetaData]: the declared fields, and the extra fields that
    [Extra.allow] admits. *)
Record DocMetaData : Type := {
  source : list N;
  source_content : list N;
  title : list N;
  published_date : list N;
  is_chunk : bool;
  id : list N;
  window_ids : list (list N);
  extra : list (list N * JSON)
}.

(** [m.id = v] *)
Definition set_id (m : DocMetaData) (v : list N) : DocMetaData :=
  {| source := source m; source_content := source_content m; title := title m;
     published_date := published_date m; is_chunk := is_chunk m; id := v;
     window_ids := window_ids m; extra := extra m |}.

(** The validator [ensure_not_empty] of the five required strings. *)
Definition ensure_not_empty (m : DocMetaData) : bool :=
  forallb (fun v => negb (bool_decide (v = [])))
    [source m; source_content m; id m; title m; published_date m].

(** [DocMetaData] built from the members of a stored object: the validator
    runs on the strings it is given. *)
Definition validate (m : DocMetaData) : result DocMetaData :=
  if ensure_not_empty m then Ok m else Raise ValidationError.

(** [m.dict()] *)
Definition dict (m : DocMetaData) : list (list N * JSON) :=
  [ (py "source", JStr (source m));
    (py "source_content", JStr (source_content m));
    (py "title", JStr (title m));
    (py "published_date", JStr (published_date m));
    (py "is_chunk", JBool (is_chunk m));
    (py "id", JStr (id m));
    (py "window_ids", JArr (map JStr (window_ids m))) ] ++ extra m.

(** A [Document] as a value: what the queries return. *)
Record Document : Type := {
  content : list N;
  metadata : DocMetaData
}.

End mytypes.

Abbreviation DocMetaData := mytypes.DocMetaData.
Abbreviation Document := mytypes.Document.

(** ** What the interpreter and the collaborators supply *)

(** [repr(obj)] of a metadata object is pydantic's [__repr__].  [json_loads]
    is [json.loads], [None] standing for [json.JSONDecodeError]. *)
Class PythonRuntime : Type := {
  unicode_data :: UnicodeData;
  repr : DocMetaData -> list N;
  json_loads : list N -> option JSON
}.

(** The embedding model of the configuration ([self.embedding_fn([text])[0]]),
    pgvector's cosine distance [<=>] by its exact value, and
    [ObjectRegistry.new_id()], whose n-th call gives [new_id n]. *)
Class Collaborators : Type := {
  embedding_fn : list N -> list Q;
  cosine_distance : list Q -> list Q -> Q;
  new_id : nat -> list N
}.

(** ** ORDER BY: a stable sort by a key *)
Section OrderBy.
Context {A K : Type} (le : K -> K -> bool) (key : A -> K).

Fixpoint insert_by (x : A) (l : list A) : list A :=
  match l with
  | [] => [x]
  | y :: l' => if le (key x) (key y) then x :: l else y :: insert_by x l'
  end.

Definition order_by (l : list A) : list A := foldr insert_by [] l.

(** The order of the keys, on the rows. *)
Definition key_le (x y : A) : Prop := le (key x) (key y) = true.

End OrderBy.

(** Ascending order of a nullable integer key, NULLS LAST. *)
Definition ordinal_le (a b : option nat) : bool :=
  match a, b with
  | Some x, Some y => (x <=? y)%nat
  | Some _, None => true
  | None, Some _ => false
  | None, None => true
  end.

(** ** langroid.vector_store.postgres *)

(** A row of a collection's table: [id] (primary key), [embedding],
    [document], [cmetadata].  The JSONB document of [cmetadata] is
    [mytypes.dict] of a metadata object, the one [add_documents] wrote; the
    row keeps that object, which [DocMetaData] built from the document's
    members gives back. *)
Record StoredRecord : Type := {
  rec_id : list N;
  rec_embedding : list Q;
  rec_document : list N;
  rec_cmetadata : DocMetaData
}.

(** An HNSW index: the table it is on and its parameters. *)
Record IndexDef : Type := {
  on_table : list N;
  index_m : N;
  index_ef_construction : N
}.

(** The database behind [self.engine]: the tables of the schema by name, in
    storage order, and the HNSW indexes by name. *)
Record Database : Type := {
  tables : gmap (list N) (list StoredRecord);
  indexes : gmap (list N) IndexDef
}.

(** The fields of [PostgresDBConfig] that the methods read or write. *)
Record PostgresDBConfig : Type := {
  collection_name : list N;
  replace_collection : bool;
  hnsw_m : N;
  hnsw_ef_construction : N
}.

(** A [PostgresDB] object with the database it is connected to.
    [self.embeddings_table] is the table named [config.collection_name]:
    both are set together, in [set_collection] and [_setup_table]. *)
Record PostgresDB : Type := {
  config : PostgresDBConfig;
  engine : Database
}.

Definition index_name (collection : list N) : list N :=
  py "hnsw_index_" ++ collection ++ py "_embedding".
Arguments index_name : simpl never.

(** [inspect(self.engine).get_table_names()] *)
Definition get_table_names (db : Database) : list (list N) :=
  (map_to_list (tables db)).*1.

(** *** What the server reads

    The tables are created and dropped through [Table], which quotes their
    names.  The index is not: [delete_collection] and [_setup_table] paste
    the name of the collection, as it is, into the text of
    [DROP INDEX CONCURRENTLY IF EXISTS hnsw_index_{name}_embedding] and of
    [CREATE INDEX CONCURRENTLY IF NOT EXISTS hnsw_index_{name}_embedding
     ON {name} USING hnsw (embedding vector_cosine_ops)
     WITH (m = {hnsw_m}, ef_construction = {hnsw_ef_construction})].
    Which relations the server reads in such a text is its matter: it folds
    the letters of a name without quotes to lower case and cuts the name at
    its longest length, and it refuses the text when the name holds a
    character that ends an identifier, such as a hyphen, or is a key word,
    or when an option is out of range.  [drop_index_query name] is the index
    that the first text names and [create_index_query name m ef] the index
    and the table that the second names; [create_table_query name] is what
    comes of the CREATE TABLE that [create_all] issues for a table that is
    missing.  [Raise] is the server's, or the driver's, refusal.

    Tables and indexes share their names: the server refuses to drop as an
    index what is a table, takes CREATE INDEX IF NOT EXISTS for done when a
    relation of the index's name exists, a table too, and refuses to create
    a table under the name of an index.  The indexes that the server makes
    of itself for the key of a table are not modelled. *)
Class PostgreSQL : Type := {
  drop_index_query : list N -> result (list N);
  create_index_query : list N -> N -> N -> result (list N * list N);
  create_table_query : list N -> result unit
}.

Section Collections.
Context `{PostgreSQL}.

(** DROP INDEX IF EXISTS [i] *)
Definition drop_index (db : Database) (i : list N) : Database :=
  {| tables := tables db; indexes := delete i (indexes db) |}.

(** [table.drop(self.engine, checkfirst=True)]: DROP TABLE when the table
    is there, which takes the indexes of the table with it. *)
Definition drop_table (db : Database) (name : list N) : Database :=
  {| tables := delete name (tables db);
     indexes := filter (fun ki => on_table ki.2 <> name) (indexes db) |}.

(** The store once the index [i] and the table [name] are dropped. *)
Definition dropped (self : PostgresDB) (i name : list N) : PostgresDB :=
  {| config := config self;
     engine := drop_table (drop_index (engine self) i) name |}.

(** [delete_collection]: the DROP INDEX text first; when the server refuses
    it, or when what the text names is a table, the exception leaves the
    method and the table of the collection is not dropped. *)
Definition delete_collection (self : PostgresDB) (name : list N)
  : PostgresDB * result unit :=
  match drop_index_query name with
  | Raise e => (self, Raise e)
  | Ok i =>
      match tables (engine self) !! i with
      | Some _ => (self, Raise ProgrammingError)
      | None => (dropped self i name, Ok tt)
      end
  end.

(** [self.metadata.create_all(self.engine)]: the table of the collection is
    created when there is none, which fails under the name of an index. *)
Definition create_all (db : Database) (name : list N) : result Database :=
  match tables db !! name with
  | Some _ => Ok db
  | None =>
      match indexes db !! name with
      | Some _ => Raise ProgrammingError
      | None =>
          match create_table_query name with
          | Raise e => Raise e
          | Ok _ => Ok {| tables := <[name := []]> (tables db); indexes := indexes db |}
          end
      end
  end.

(** CREATE INDEX IF NOT EXISTS [i] ON [t]: the table has to exist; when a
    relation of the name [i] exists nothing is created. *)
Definition create_index (db : Database) (i t : list N) (m ef_construction : N)
  : result Database :=
  match tables db !! t with
  | None => Raise ProgrammingError
  | Some _ =>
      match indexes db !! i, tables db !! i with
      | None, None =>
          Ok {| tables := tables db;
                indexes := <[i := {| on_table := t; index_m := m;
                                     index_ef_construction := ef_construction |}]>
                             (indexes db) |}
      | _, _ => Ok db
      end
  end.

(** [_setup_table]: drop the collection when the configuration asks to
    replace it; create its table when there is none; and, when
    [index_exists] finds no index of the collection's index name, send the
    CREATE INDEX text.  The store is returned as the step that raised has
    left it. *)
Definition _setup_table (self : PostgresDB) : PostgresDB * result unit :=
  let name := collection_name (config self) in
  let m := hnsw_m (config self) in
  let ef_construction := hnsw_ef_construction (config self) in
  let create (self : PostgresDB) : PostgresDB * result unit :=
    match create_all (engine self) name with
    | Raise e => (self, Raise e)
    | Ok db =>
        let self := {| config := config self; engine := db |} in
        match indexes db !! index_name name with
        | Some _ => (self, Ok tt)
        | None =>
            match create_index_query name m ef_construction with
            | Raise e => (self, Raise e)
            | Ok (i, t) =>
                match create_index db i t m ef_construction with
                | Raise e => (self, Raise e)
                | Ok db => ({| config := config self; engine := db |}, Ok tt)
                end
            end
        end
    end in
  if replace_collection (config self) then
    match delete_collection self name with
    | (self, Raise e) => (self, Raise e)
    | (self, Ok _) => create self
    end
  else create self.

Definition set_collection (self : PostgresDB) (name : list N) (replace : bool)
  : PostgresDB * result unit :=
  let table_exists := bool_decide (name ∈ get_table_names (engine self)) in
  if str_eqb name (collection_name (config self)) && table_exists && negb replace
  then (self, Ok tt)
  else
    _setup_table
      {| config := {| collection_name := name;
                      replace_collection := replace;
                      hnsw_m := hnsw_m (config self);
                      hnsw_ef_construction := hnsw_ef_construction (config self) |};
         engine := engine self |}.

Definition create_collection (self : PostgresDB) (name : list N) (replace : bool)
  : PostgresDB * result unit :=
  set_collection self name replace.

(** One turn of the loop of [clear_all_collections]: the store and
    [deleted_count] after [table_name] has been looked at; an exception of
    [delete_collection] ends the loop. *)
Definition clear_step (prefix : list N) (acc : PostgresDB * result Z) (table_name : list N)
  : PostgresDB * result Z :=
  match acc with
  | (self, Ok deleted_count) =>
      if startswith table_name prefix
      then
        match delete_collection self table_name with
        | (self, Ok _) => (self, Ok (deleted_count + 1)%Z)
        | (self, Raise e) => (self, Raise e)
        end
      else acc
  | (_, Raise _) => acc
  end.

(** [clear_all_collections]: the store afterwards, and the count returned or
    the exception raised. *)
Definition clear_all_collections (self : PostgresDB) (really : bool) (prefix : list N)
  : PostgresDB * result Z :=
  if negb really then (self, Ok 0%Z)
  else
    let table_names := get_table_names (engine self) in
    foldl (clear_step prefix) (self, Ok 0%Z) table_names.

(** One turn of the loop of [clear_empty_collections].  [Table(table_name,
    autoload_with=engine)] reflects the table. *)
Definition clear_empty_step (acc : PostgresDB * result Z) (table_name : list N)
  : PostgresDB * result Z :=
  match acc with
  | (self, Ok deleted_count) =>
      match tables (engine self) !! table_name with
      | None => (self, Raise NoSuchTableError)
      | Some (_ :: _) => acc
      | Some [] =>
          match delete_collection self table_name with
          | (self, Ok _) => (self, Ok (deleted_count + 1)%Z)
          | (self, Raise e) => (self, Raise e)
          end
      end
  | (_, Raise _) => acc
  end.

Definition clear_empty_collections (self : PostgresDB) : PostgresDB * result Z :=
  let table_names := get_table_names (engine self) in
  foldl clear_empty_step (self, Ok 0%Z) table_names.

(** The server reads the statements for the collection [name] as the code
    means them: the index and the table of these names, and it creates the
    table. *)
Definition as_written (config : PostgresDBConfig) (name : list N) : Prop :=
  drop_index_query name = Ok (index_name name) /\
  create_table_query name = Ok tt /\
  create_index_query name (hnsw_m config) (hnsw_ef_construction config)
  = Ok (index_name name, name).


(** The DROP INDEX text for [name] can be carried out on the store: the
    server takes it, and what it names is no table. *)
Definition droppable (self : PostgresDB) (name : list N) : bool :=
  match drop_index_query name with
  | Ok i => match tables (engine self) !! i with None => true | Some _ => false end
  | Raise _ => false
  end.

End Collections.

(** *** The caller's objects

    [add_documents] assigns to [doc.metadata.id] of the documents it is
    given, so the metadata objects live in a heap and a document refers to
    its metadata by address: two documents of a batch may share one
    metadata object, and a document may occur twice.  A document's own
    fields are only read. *)
Record DocumentRef : Type := {
  doc_content : list N;
  doc_metadata : nat
}.

(** The Python process outside the store object: the metadata objects by
    address, and how many ids [ObjectRegistry] has handed out. *)
Record Process : Type := {
  heap : nat -> DocMetaData;
  ids_drawn : nat
}.

(** [session.execute(insert(table), new_records)]: the rows are inserted one
    after the other in one transaction; a row whose [id] is already there
    violates the primary key, the statement raises and nothing is kept. *)
Fixpoint sql_insert (rows new_records : list StoredRecord)
  : result (list StoredRecord) :=
  match new_records with
  | [] => Ok rows
  | r :: rest =>
      if bool_decide (rec_id r ∈ map rec_id rows) then Raise IntegrityError
      else sql_insert (rows ++ [r]) rest
  end.

(** [{id_: index for index, id_ in enumerate(ids)}]: a later position
    overwrites an earlier one of the same id. *)
Definition when_step (d : gmap (list N) nat) (p : nat * list N) : gmap (list N) nat :=
  let '(index, id_) := p in <[id_ := index]> d.

Definition case_whens (ids : list (list N)) : gmap (list N) nat :=
  foldl when_step ∅ (imap (fun index id_ => (index, id_)) ids).

Section Methods.
Context `{PythonRuntime} `{Collaborators}.

(** [self.embeddings_table]; a query on a table that is gone is refused. *)
Definition embeddings_table (self : PostgresDB) : option (list StoredRecord) :=
  tables (engine self) !! collection_name (config self).

(** [metadata["id"] = res.id], then the [DocMetaData] of the members; the
    [Document] is built from the dictionary by the caller. *)
Definition _parse_embedding_store_record (res : StoredRecord) : result Document :=
  let metadata := mytypes.set_id (rec_cmetadata res) (rec_id res) in
  match mytypes.validate metadata with
  | Raise e => Raise e
  | Ok metadata =>
      Ok {| mytypes.content := rec_document res; mytypes.metadata := metadata |}
  end.

(** [cmetadata.contains(where_json)], the jsonb operator [@>]. *)
Definition cmetadata_contains (where_json : JSON) (r : StoredRecord) : bool :=
  jsonb_contains (JObj (mytypes.dict (rec_cmetadata r))) where_json.

Definition get_all_documents (self : PostgresDB) (where_ : list N)
  : result (list Document) :=
  let all (query : list StoredRecord -> list StoredRecord) :=
    match embeddings_table self with
    | None => Raise ProgrammingError
    | Some rows => comprehension _parse_embedding_store_record (query rows)
    end in
  match where_ with
  | _ :: _ =>
      match json_loads where_ with
      | Some where_json => all (filter (cmetadata_contains where_json))
      | None => Ok []          (* logged; "Return empty list" *)
      end
  | [] => all (fun rows => rows)
  end.

(** The CASE of [get_documents_by_ids] has one WHEN per key of
    [case_whens ids]; with no id there is none, and PostgreSQL refuses a CASE
    without a WHEN. *)
Definition get_documents_by_ids (self : PostgresDB) (ids : list (list N))
  : result (list Document) :=
  let case_stmt := case_whens ids in
  match embeddings_table self with
  | None => Raise ProgrammingError
  | Some rows =>
      if bool_decide (case_stmt = ∅) then Raise ProgrammingError
      else
        comprehension _parse_embedding_store_record
          (order_by ordinal_le (fun r => case_stmt !! rec_id r)
             (filter (fun r => rec_id r ∈ ids) rows))
  end.

Definition is_ValueError (e : exn) : bool :=
  match e with ValueError | UnicodeEncodeError => true | _ => false end.

Definition _id_to_uuid (id : list N) (obj : DocMetaData) : result (list N) :=
  match uuid.UUID id with
  | Ok v => Ok (uuid.to_str v)
  | Raise e =>
      if is_ValueError e then
        let obj_repr := repr obj in
        match codecs.utf8_encode obj_repr with
        | None => Raise UnicodeEncodeError
        | Some b =>
            let obj_hash := hashlib.hexlify (hashlib.sha256 b) in
            let combined := id ++ py "-" ++ obj_hash in
            match uuid.uuid5 combined with
            | Ok v => Ok (uuid.to_str v)
            | Raise e' => Raise e'
            end
        end
      else Raise e
  end.

(** Modelled from the spec: [VectorStore.maybe_add_ids] of
    langroid/vector_store/base.py, which is not among the sources.  The spec
    has a missing id replaced before one is derived; here a document whose
    [metadata.id] is empty is given the next id of [ObjectRegistry], and
    every other document is left as it is. *)
Fixpoint maybe_add_ids (p : Process) (documents : list DocumentRef) : Process :=
  match documents with
  | [] => p
  | d :: rest =>
      let m := heap p (doc_metadata d) in
      match mytypes.id m with
      | [] =>
          maybe_add_ids
            {| heap := <[doc_metadata d := mytypes.set_id m (new_id (ids_drawn p))]> (heap p);
               ids_drawn := S (ids_drawn p) |} rest
      | _ :: _ => maybe_add_ids p rest
      end
  end.

(** The first loop of [add_documents]:
    [doc.metadata.id = str(_id_to_uuid(doc.metadata.id, doc.metadata))].
    What it has assigned stays assigned when a later document raises. *)
Fixpoint assign_ids (h : nat -> DocMetaData) (documents : list DocumentRef)
  : (nat -> DocMetaData) * result unit :=
  match documents with
  | [] => (h, Ok tt)
  | doc :: rest =>
      let m := h (doc_metadata doc) in
      match _id_to_uuid (mytypes.id m) m with
      | Raise e => (h, Raise e)
      | Ok u => assign_ids (<[doc_metadata doc := mytypes.set_id m u]> h) rest
      end
  end.

(** The record of one document, read after all ids are assigned. *)
Definition new_record (h : nat -> DocMetaData) (doc : DocumentRef) : StoredRecord :=
  let metadatas := h (doc_metadata doc) in
  {| rec_id := mytypes.id metadatas;
     rec_embedding := embedding_fn (doc_content doc);
     rec_document := doc_content doc;
     rec_cmetadata := metadatas |}.

Definition add_documents (self : PostgresDB) (p : Process) (documents : list DocumentRef)
  : Process * PostgresDB * result unit :=
  let p := maybe_add_ids p documents in
  match assign_ids (heap p) documents with
  | (h, Raise e) => ({| heap := h; ids_drawn := ids_drawn p |}, self, Raise e)
  | (h, Ok _) =>
      let p := {| heap := h; ids_drawn := ids_drawn p |} in
      let new_records := map (new_record h) documents in
      match new_records with
      | [] => (p, self, Ok tt)
      | _ :: _ =>
          match embeddings_table self with
          | None => (p, self, Raise ProgrammingError)
          | Some rows =>
              match sql_insert rows new_records with
              | Raise e => (p, self, Raise e)
              | Ok rows' =>
                  (p,
                   {| config := config self;
                      engine :=
                        {| tables := <[collection_name (config self) := rows']>
                                       (tables (engine self));
                           indexes := indexes (engine self) |} |},
                   Ok tt)
              end
          end
      end
  end.

(** pgvector's [embedding <=> query]. *)
Definition distance (embedding : list Q) (r : StoredRecord) : Q :=
  cosine_distance (rec_embedding r) embedding.

(** The SELECT of [similar_texts_with_scores]: the columns [id], [document],
    [cmetadata] and [1 - distance] labelled [score], ORDER BY the distance,
    LIMIT [k] (a negative LIMIT is refused), as SQL defines them: the [k]
    rows of least distance among those given.  This is the answer of a plan
    that sorts the rows; a plan through the HNSW index of the collection
    may leave rows out, and which plan the server takes is not modelled.
    The argument [neighbors] of the method is not used and is left out. *)
Definition select_nearest (embedding : list Q) (k : Z) (rows : list StoredRecord)
  : result (list (list N * list N * DocMetaData * Q)) :=
  if (k <? 0)%Z then Raise DataError
  else
    Ok (map (fun r => (rec_id r, rec_document r, rec_cmetadata r,
                       (1 - distance embedding r)%Q))
            (take (Z.to_nat k) (order_by Qle_bool (distance embedding) rows))).

(** The body of the loop over the results. *)
Definition document_with_score (result_ : list N * list N * DocMetaData * Q)
  : result (Document * Q) :=
  let '(id, document, cmetadata, score) := result_ in
  match mytypes.validate cmetadata with
  | Raise e => Raise e
  | Ok metadata =>
      Ok ({| mytypes.content := document; mytypes.metadata := metadata |}, score)
  end.

Definition similar_texts_with_scores
  (self : PostgresDB) (query : list N) (k : Z) (where_ : option (list N))
  : result (list (Document * Q)) :=
  let embedding := embedding_fn query in
  let results :=
    match where_ with
    | Some where_ =>
        match json_loads where_ with
        | None => Raise ValueError
        | Some json_query =>
            match embeddings_table self with
            | None => Raise ProgrammingError
            | Some rows =>
                select_nearest embedding k (filter (cmetadata_contains json_query) rows)
            end
        end
    | None =>
        match embeddings_table self with
        | None => Raise ProgrammingError
        | Some rows => select_nearest embedding k rows
        end
    end in
  match results with
  | Raise e => Raise e
  | Ok results => comprehension document_with_score results
  end.

End Methods.

(** ** The vocabulary of the statements *)

(** The value of a run of digits. *)
Definition hex_value (ds : list N) : N :=
  fold_left (fun acc c => acc * 16 + default 0 (uuid.digit_value c)) ds 0.

(** The position of the last occurrence of [x]. *)
Fixpoint last_index (ids : list (list N)) (x : list N) : option nat :=
  match ids with
  | [] => None
  | a :: l =>
      match last_index l x with
      | Some i => Some (S i)
      | None => if decide (a = x) then Some 0%nat else None
      end
  end.

(** The row of a table with a given id. *)
Definition row_with_id (rows : list StoredRecord) (i : list N) : option StoredRecord :=
  List.find (fun r => bool_decide (rec_id r = i)) rows.

(** The rows that [DocMetaData] accepts when they are read back: by id, with
    the row's id put in, and in a search, as they are stored. *)
Definition valid_row (r : StoredRecord) : bool :=
  mytypes.ensure_not_empty (mytypes.set_id (rec_cmetadata r) (rec_id r)).

Definition valid_metadata (r : StoredRecord) : bool :=
  mytypes.ensure_not_empty (rec_cmetadata r).

(** The document that a row is read as. *)
Definition row_document (r : StoredRecord) : Document :=
  {| mytypes.content := rec_document r;
     mytypes.metadata := mytypes.set_id (rec_cmetadata r) (rec_id r) |}.

Section Vocabulary.
Context `{PythonRuntime} `{Collaborators}.

(** The pair that a row gives in a search. *)
Definition scored (embedding : list Q) (r : StoredRecord) : Document * Q :=
  ({| mytypes.content := rec_document r; mytypes.metadata := rec_cmetadata r |},
   (1 - distance embedding r)%Q).

(** [a] is at most as far from the query as [b]. *)
Definition nearer (embedding : list Q) (a b : StoredRecord) : Prop :=
  Qle_bool (distance embedding a) (distance embedding b) = true.

(** The rows that a search returns: the [k] nearest of the candidates. *)
Definition nearest (embedding : list Q) (k : Z) (cands : list StoredRecord)
  : list StoredRecord :=
  take (Z.to_nat k) (order_by Qle_bool (distance embedding) cands).

(** The rows that take part in the ranking. *)
Definition candidates (where_json : option JSON) (rows : list StoredRecord)
  : list StoredRecord :=
  match where_json with
  | Some j => filter (cmetadata_contains j) rows
  | None => rows
  end.

(** The string that [uuid5] names: [f"{id}-{obj_hash}"]. *)
Definition hashed_name (id : list N) (obj : DocMetaData) : option (list N) :=
  match codecs.utf8_encode (repr obj) with
  | Some b => Some (id ++ py "-" ++ hashlib.hexlify (hashlib.sha256 b))
  | None => None
  end.

(** The 128-bit value behind a derived id. *)
Definition derived_value (id : list N) (obj : DocMetaData) : N :=
  match hashed_name id obj with
  | Some name => match uuid.uuid5 name with Ok v => v | Raise _ => 0 end
  | None => 0
  end.

End Vocabulary.

(** * A reference instantiation

    The examples below run the model on concrete data.  They supply the
    parameters as follows: the digit and space tables of Unicode 14.0.0 (the
    database of CPython 3.11); for [repr], pydantic's [__repr__], which
    prints the names of the fields as they are and the [repr] of their
    values, the [repr] of a string being taken as Python's [ascii] of it
    (the two differ on the printable characters past ASCII only); for
    [json.loads] a reader of JSON texts without the constants [NaN] and
    [Infinity]; a letter-count embedding; and a rational distance with the
    ranking of the cosine distance. *)

Module unicodedata.

Definition spaces : list N :=
  [0x85; 0xa0; 0x1680; 0x2000; 0x2001; 0x2002; 0x2003; 0x2004; 0x2005; 0x2006;
   0x2007; 0x2008; 0x2009; 0x200a; 0x2028; 0x2029; 0x202f; 0x205f; 0x3000].

(** Where the ten decimal digits of a script start. *)
Definition digit_zeros : list N :=
  [0x660; 0x6f0; 0x7c0; 0x966; 0x9e6; 0xa66; 0xae6; 0xb66; 0xbe6; 0xc66; 0xce6;
   0xd66; 0xde6; 0xe50; 0xed0; 0xf20; 0x1040; 0x1090; 0x17e0; 0x1810; 0x1946;
   0x19d0; 0x1a80; 0x1a90; 0x1b50; 0x1bb0; 0x1c40; 0x1c50; 0xa620; 0xa8d0;
   0xa900; 0xa9d0; 0xa9f0; 0xaa50; 0xabf0; 0xff10; 0x104a0; 0x10d30; 0x11066;
   0x110f0; 0x11136; 0x111d0; 0x112f0; 0x11450; 0x114d0; 0x11650; 0x116c0;
   0x11730; 0x118e0; 0x11950; 0x11c50; 0x11d50; 0x11da0; 0x16a60; 0x16ac0;
   0x16b50; 0x1d7ce; 0x1d7d8; 0x1d7e2; 0x1d7ec; 0x1d7f6; 0x1e140; 0x1e2f0;
   0x1e950; 0x1fbf0].

Definition decimal (c : N) : option N :=
  match List.find (fun z => (z <=? c) && (c <? z + 10)) digit_zeros with
  | Some z => Some (c - z)
  | None => None
  end.

End unicodedata.

Definition unicode_14 : UnicodeData := {|
  unicode_isspace := fun c => mem c unicodedata.spaces;
  unicode_todecimal := unicodedata.decimal
|}.

Module pyrepr.

(** ['%d' % n] *)
Fixpoint decimal_digits (fuel : nat) (n : N) : list N :=
  match fuel with
  | O => []
  | S f => if n <? 10 then [48 + n] else decimal_digits f (n / 10) ++ [48 + n mod 10]
  end.

Definition repr_int (z : Z) : list N :=
  let n := Z.abs_N z in
  (if (z <? 0)%Z then [45] else []) ++ decimal_digits (S (N.to_nat (N.log2 n))) n.

(** One character of a string literal between [quote]s: the escapes of the
    ASCII range, and those of [ascii] past it. *)
Definition repr_char (quote c : N) : list N :=
  if (c =? quote) || (c =? 92) then [92; c]
  else if c =? 9 then [92; 116]
  else if c =? 10 then [92; 110]
  else if c =? 13 then [92; 114]
  else if (c <? 32) || (c =? 127) then [92; 120] ++ uuid.hex_digits 2 c
  else if c <? 128 then [c]
  else if c <? 256 then [92; 120] ++ uuid.hex_digits 2 c
  else if c <? 65536 then [92; 117] ++ uuid.hex_digits 4 c
  else [92; 85] ++ uuid.hex_digits 8 c.

(** [ascii] of a [str]: single quotes, unless the string has one and no
    double quote. *)
Definition repr_str (s : list N) : list N :=
  let quote := if mem 39 s && negb (mem 34 s) then 34 else 39 in
  [quote] ++ flat_map (repr_char quote) s ++ [quote].

Fixpoint join (sep : list N) (parts : list (list N)) : list N :=
  match parts with
  | [] => []
  | [p] => p
  | p :: rest => p ++ sep ++ join sep rest
  end.

Definition repr_bool (b : bool) : list N := if b then py "True" else py "False".

(** [repr] of an extra field's value. *)
Fixpoint repr_json (j : JSON) : list N :=
  match j with
  | JNull => py "None"
  | JBool b => repr_bool b
  | JNum q =>
      if (Zpos (Qden q) =? 1)%Z then repr_int (Qnum q)
      else repr_int (Qnum q) ++ py "/" ++ repr_int (Zpos (Qden q))
  | JStr s => repr_str s
  | JArr xs => py "[" ++ join (py ", ") (map repr_json xs) ++ py "]"
  | JObj kvs =>
      py "{" ++ join (py ", ")
                  (map (fun kv => repr_str (fst kv) ++ py ": " ++ repr_json (snd kv)) kvs)
             ++ py "}"
  end.

(** pydantic's [__repr__]: the class name and [f'{name}={value!r}'] for the
    declared fields, then for the extra ones, whose names are printed as
    they are. *)
Definition repr_metadata (m : DocMetaData) : list N :=
  py "DocMetaData("
  ++ join (py ", ")
       ([ py "source=" ++ repr_str (mytypes.source m);
          py "source_content=" ++ repr_str (mytypes.source_content m);
          py "title=" ++ repr_str (mytypes.title m);
          py "published_date=" ++ repr_str (mytypes.published_date m);
          py "is_chunk=" ++ repr_bool (mytypes.is_chunk m);
          py "id=" ++ repr_str (mytypes.id m);
          py "window_ids=[" ++ join (py ", ") (map repr_str (mytypes.window_ids m)) ++ py "]" ]
        ++ map (fun kv => fst kv ++ py "=" ++ repr_json (snd kv)) (mytypes.extra m))
  ++ py ")".

End pyrepr.

(** A reader of JSON texts, after [json.decoder]. *)
Module json.

Definition whitespace : list N := [32; 9; 10; 13].

Definition is_digit (c : N) : bool := (48 <=? c) && (c <=? 57).

(** A run of decimal digits: its value, its length and what follows. *)
Fixpoint digits (s : list N) (acc : N) (n : nat) : N * nat * list N :=
  match s with
  | c :: r => if is_digit c then digits r (acc * 10 + (c - 48)) (S n) else (acc, n, s)
  | [] => (acc, n, s)
  end.

Definition pow10 (n : nat) : Q := inject_Z (10 ^ Z.of_nat n).

(** NUMBER_RE: an integer part without a leading zero, an optional fraction,
    an optional exponent. *)
Definition number (s : list N) : option (Q * list N) :=
  let negative := match s with c :: _ => c =? 45 | [] => false end in
  let s := if negative then drop 1 s else s in
  let '(i, ni, s1) := digits s 0 0 in
  let leading_zero := match s with c :: _ => (c =? 48) && (1 <? ni)%nat | [] => false end in
  if (ni =? 0)%nat || leading_zero then None
  else
    let '(f, nf, s2) :=
      match s1 with
      | c :: r =>
          if c =? 46 then
            let '(f, nf, r') := digits r 0 0 in
            if (nf =? 0)%nat then (0, 0%nat, s1) else (f, nf, r')
          else (0, 0%nat, s1)
      | [] => (0, 0%nat, s1)
      end in
    let '(e_neg, e, s3) :=
      match s2 with
      | c :: r =>
          if (c =? 101) || (c =? 69) then
            let e_neg := match r with x :: _ => x =? 45 | [] => false end in
            let r' := match r with
                      | x :: r'' => if (x =? 45) || (x =? 43) then r'' else r
                      | [] => r
                      end in
            let '(e, ne, r'') := digits r' 0 0 in
            if (ne =? 0)%nat then (false, 0, s2) else (e_neg, e, r'')
          else (false, 0, s2)
      | [] => (false, 0, s2)
      end in
    let mantissa := (inject_Z (Z.of_N i) + inject_Z (Z.of_N f) / pow10 nf)%Q in
    let scaled := if e_neg then (mantissa / pow10 (N.to_nat e))%Q
                  else (mantissa * pow10 (N.to_nat e))%Q in
    Some (Qred (if negative then - scaled else scaled)%Q, s3).

(** BACKSLASH *)
Definition simple_escape (c : N) : option N :=
  if c =? 34 then Some 34 else if c =? 92 then Some 92 else if c =? 47 then Some 47
  else if c =? 98 then Some 8 else if c =? 102 then Some 12 else if c =? 110 then Some 10
  else if c =? 114 then Some 13 else if c =? 116 then Some 9 else None.

(** _decode_uXXXX: four characters read by [int(esc, 16)]. *)
Definition decode_uXXXX (s : list N) : option N :=
  let esc := take 4 s in
  match esc with
  | [_; x; _; _] =>
      if (x =? 120) || (x =? 88) then None
      else match @uuid.int16 unicode_14 esc with
           | Some z => if (0 <=? z)%Z then Some (Z.to_N z) else None
           | None => None
           end
  | _ => None
  end.

(** py_scanstring, after the opening quote; control characters are refused. *)
Fixpoint scanstring (fuel : nat) (s acc : list N) : option (list N * list N) :=
  match fuel, s with
  | S f, c :: r =>
      if c =? 34 then Some (rev acc, r)
      else if c =? 92 then
        match r with
        | e :: r' =>
            if e =? 117 then
              match decode_uXXXX r' with
              | Some uni =>
                  let r4 := drop 4 r' in
                  let pair :=
                    if (0xd800 <=? uni) && (uni <=? 0xdbff) && startswith r4 [92; 117]
                    then match decode_uXXXX (drop 2 r4) with
                         | Some uni2 =>
                             if (0xdc00 <=? uni2) && (uni2 <=? 0xdfff)
                             then Some (0x10000 + N.lor (N.shiftl (uni - 0xd800) 10) (uni2 - 0xdc00))
                             else None
                         | None => None
                         end
                    else None in
                  match pair with
                  | Some cp => scanstring f (drop 6 r4) (cp :: acc)
                  | None => scanstring f r4 (uni :: acc)
                  end
              | None => None
              end
            else match simple_escape e with
                 | Some x => scanstring f r' (x :: acc)
                 | None => None
                 end
        | [] => None
        end
      else if c <? 32 then None
      else scanstring f r (c :: acc)
  | _, _ => None
  end.

(** [d[k] = v] *)
Fixpoint dict_set (kvs : list (list N * JSON)) (k : list N) (v : JSON) : list (list N * JSON) :=
  match kvs with
  | [] => [(k, v)]
  | (k', v') :: rest => if str_eqb k' k then (k', v) :: rest else (k', v') :: dict_set rest k v
  end.

Definition skip (s : list N) : list N := lstrip whitespace s.

Definition expect (c : N) (s : list N) : option (list N) :=
  match s with
  | x :: r => if x =? c then Some r else None
  | [] => None
  end.

(** scan_once, JSONArray and JSONObject. *)
Fixpoint value (fuel : nat) (s : list N) : option (JSON * list N) :=
  match fuel with
  | O => None
  | S f =>
      match s with
      | [] => None
      | c :: r =>
          if c =? 34 then
            match scanstring (length r) r [] with
            | Some (str, r') => Some (JStr str, r')
            | None => None
            end
          else if c =? 123 then
            match skip r with
            | x :: r' => if x =? 125 then Some (JObj [], r') else members f (skip r) []
            | [] => None
            end
          else if c =? 91 then
            match skip r with
            | x :: r' => if x =? 93 then Some (JArr [], r') else elements f (skip r) []
            | [] => None
            end
          else if startswith s (py "null") then Some (JNull, drop 4 s)
          else if startswith s (py "true") then Some (JBool true, drop 4 s)
          else if startswith s (py "false") then Some (JBool false, drop 5 s)
          else match number s with
               | Some (q, r') => Some (JNum q, r')
               | None => None
               end
      end
  end
with elements (fuel : nat) (s : list N) (acc : list JSON) : option (JSON * list N) :=
  match fuel with
  | O => None
  | S f =>
      match value f s with
      | Some (v, r) =>
          match skip r with
          | x :: r' =>
              if x =? 93 then Some (JArr (rev (v :: acc)), r')
              else if x =? 44 then elements f (skip r') (v :: acc)
              else None
          | [] => None
          end
      | None => None
      end
  end
with members (fuel : nat) (s : list N) (acc : list (list N * JSON)) : option (JSON * list N) :=
  match fuel with
  | O => None
  | S f =>
      match expect 34 s with
      | Some r =>
          match scanstring (length r) r [] with
          | Some (k, r1) =>
              match expect 58 (skip r1) with
              | Some r2 =>
                  match value f (skip r2) with
                  | Some (v, r3) =>
                      match skip r3 with
                      | x :: r4 =>
                          if x =? 125 then Some (JObj (dict_set acc k v), r4)
                          else if x =? 44 then members f (skip r4) (dict_set acc k v)
                          else None
                      | [] => None
                      end
                  | None => None
                  end
              | None => None
              end
          | None => None
          end
      | None => None
      end
  end.

(** [json.loads(s)]; [None] is [JSONDecodeError]. *)
Definition loads (s : list N) : option JSON :=
  match value (S (length s)) (skip s) with
  | Some (v, r) => match skip r with [] => Some v | _ :: _ => None end
  | None => None
  end.

End json.

Definition python_311 : PythonRuntime := {|
  unicode_data := unicode_14;
  repr := pyrepr.repr_metadata;
  json_loads := json.loads
|}.

(** A letter-count embedding and a rational distance that ranks as the
    cosine distance does: one minus the signed square of the cosine. *)
Module letters.

Definition count (c : N) (s : list N) : Q :=
  inject_Z (Z.of_nat (length (filter (fun x => x = c) s))).

Definition embed (s : list N) : list Q := [count 97 s; count 98 s; count 99 s].

Fixpoint dot (a b : list Q) : Q :=
  match a, b with
  | x :: a', y :: b' => (x * y + dot a' b')%Q
  | _, _ => 0%Q
  end.

Definition ranking_distance (a b : list Q) : Q :=
  let d := dot a b in
  let n := (dot a a * dot b b)%Q in
  if Qeq_bool n 0 then 1%Q
  else Qred (1 - (if Qle_bool 0 d then 1 else -1) * d * d / n)%Q.

End letters.

Definition letter_model : Collaborators := {|
  embedding_fn := letters.embed;
  cosine_distance := letters.ranking_distance;
  new_id := fun n => uuid.to_str (N.of_nat n)
|}.

(** * More of the store and of mytypes *)

(** ** Listing collections *)

(** One turn of the loop of [list_collections].  [Table(table_name,
    autoload_with=engine)] reflects the table; [None] stands for
    [NoSuchTableError]. *)
Definition list_step (self : PostgresDB) (empty : bool)
  (collections : option (list (list N))) (table_name : list N)
  : option (list (list N)) :=
  match collections with
  | None => None
  | Some collections =>
      match tables (engine self) !! table_name with
      | None => None
      | Some rows =>
          if empty then Some (collections ++ [table_name])
          else if negb (bool_decide (rows = [])) then Some (collections ++ [table_name])
          else Some collections
      end
  end.

Definition list_collections (self : PostgresDB) (empty : bool) : option (list (list N)) :=
  let table_names := get_table_names (engine self) in
  foldl (list_step self empty) (Some []) table_names.

(** Whether the collection has a row, and whether it exists without one. *)
Definition has_rows (self : PostgresDB) (name : list N) : bool :=
  match tables (engine self) !! name with Some (_ :: _) => true | _ => false end.

Definition is_empty (self : PostgresDB) (name : list N) : bool :=
  match tables (engine self) !! name with Some [] => true | _ => false end.

(** ** Documents *)

(** The document that [add_documents] stores for a document of the batch, as
    the caller's heap has it afterwards. *)
Definition stored_document (h : nat -> DocMetaData) (doc : DocumentRef) : Document :=
  {| mytypes.content := doc_content doc; mytypes.metadata := h (doc_metadata doc) |}.

(** [uuid.uuid4()]: [UUID(bytes=os.urandom(16), version=4)]; [urandom] is
    what [os.urandom(16)] gives. *)
Definition uuid4 (urandom : list N) : result N := uuid.UUID_of_bytes urandom 4.

(** [Document.from_string(content, source, is_chunk)]:
    [DocMetaData(source=source, is_chunk=is_chunk)] runs the validator on
    [source], which is given, and fills the other fields with their
    defaults, the id with [str(uuid4())]. *)
Definition from_string (urandom : list N) (content source : list N) (is_chunk : bool)
  : result Document :=
  match uuid4 urandom with
  | Raise e => Raise e
  | Ok v =>
      if bool_decide (source = []) then Raise ValidationError
      else
        Ok {| mytypes.content := content;
              mytypes.metadata :=
                {| mytypes.source := source;
                   mytypes.source_content := py "context";
                   mytypes.title := py "Unknown Title";
                   mytypes.published_date := py "Unknown Date";
                   mytypes.is_chunk := is_chunk;
                   mytypes.id := uuid.to_str v;
                   mytypes.window_ids := [];
                   mytypes.extra := [] |} |}
  end.

(** [Document.id()] *)
Definition Document_id (self : Document) : list N := mytypes.id (mytypes.metadata self).

(** ** mytypes.Entity *)

(** [str.lower()]: an ASCII string is lowered letter by letter; for any other
    string the case mapping of the Unicode database is used. *)
Class UnicodeCase : Type := {
  unicode_lower : list N -> list N;
  str_hash : list N -> Z                 (* hash() of a str *)
}.

Definition ascii_lower (c : N) : N := if (65 <=? c) && (c <=? 90) then c + 32 else c.

Definition lower `{UnicodeCase} (s : list N) : list N :=
  if forallb (fun c => c <? 128) s then map ascii_lower s else unicode_lower s.

Inductive Entity : Type := AGENT | LLM | USER | SYSTEM.

Definition Entity_value (e : Entity) : list N :=
  match e with
  | AGENT => py "Agent"
  | LLM => py "LLM"
  | USER => py "User"
  | SYSTEM => py "System"
  end.

(** What an [Entity] is compared with: [None], a [str] that is no [Entity],
    an [Entity], or an object that is no [str] and has the [__eq__] of
    [object]. *)
Inductive operand : Type :=
| PyNone
| PyStr (s : list N)
| PyEntity (e : Entity)
| PyObject.

Inductive comparison : Type :=
| PyBool (b : bool)
| NotImplemented.

Section EntityMethods.
Context `{UnicodeCase}.

(** [Entity.__eq__]; [super().__eq__] is [str.__eq__], which gives
    [NotImplemented] for what is no [str]. *)
Definition Entity__eq__ (self : Entity) (other : operand) : comparison :=
  match other with
  | PyNone => PyBool false
  | PyStr s => PyBool (str_eqb (lower (Entity_value self)) (lower s))
  | PyEntity e => PyBool (str_eqb (lower (Entity_value self)) (lower (Entity_value e)))
  | PyObject => NotImplemented
  end.

(** [Entity.__ne__]: [not self.__eq__(other)]; [NotImplemented] counts as
    true there (with a DeprecationWarning, up to CPython 3.13). *)
Definition Entity__ne__ (self : Entity) (other : operand) : bool :=
  match Entity__eq__ self other with
  | PyBool b => negb b
  | NotImplemented => false
  end.

(** [Entity.__hash__] *)
Definition Entity__hash__ (self : Entity) : Z := str_hash (lower (Entity_value self)).

(** [self == other]: after [NotImplemented] the operand's [__eq__] is asked,
    which for [PyObject] is that of [object], and the objects are not the
    same. *)
Definition Entity_eq (self : Entity) (other : operand) : bool :=
  match Entity__eq__ self other with
  | PyBool b => b
  | NotImplemented => false
  end.

End EntityMethods.

(** ** DocMetaData.dict_bool_int *)

(** [1 * value] for a [bool]. *)
Definition bool_int (value : JSON) : JSON :=
  match value with
  | JBool b => JNum (if b then 1 else 0)
  | _ => value
  end.

(** One turn of the loop of [dict_bool_int]:
    [if isinstance(value, bool): original_dict[key] = 1 * value]. *)
Definition bool_int_step (original_dict : list (list N * JSON)) (item : list N * JSON)
  : list (list N * JSON) :=
  let '(key, value) := item in
  match value with
  | JBool _ => json.dict_set original_dict key (bool_int value)
  | _ => original_dict
  end.

Definition dict_bool_int (self : DocMetaData) : list (list N * JSON) :=
  let original_dict := mytypes.dict self in
  foldl bool_int_step original_dict original_dict.

(** ** PostgresDB._create_engine *)

(** The fields of [PostgresDBConfig] that [_create_engine] reads or writes. *)
Record ConnectionConfig : Type := {
  cloud : bool;
  docker : bool;
  host : list N;
  port : Z
}.

(** How [_create_engine] ends: with the call [create_engine(url, ...)], or
    with an exception raised before it. *)
Inductive connection : Type :=
| Connect (connection_string : list N)
| RaiseValueError
| RaiseUnboundLocalError.

(** [os.getenv(key, default)] *)
Definition getenv (environ : gmap (list N) (list N)) (key default_ : list N) : list N :=
  default default_ (environ !! key).

(** [_create_engine]: the configuration afterwards and the outcome.  With
    neither [docker] nor [cloud] the method logs a warning and goes on to
    use [connection_string], which no branch has assigned. *)
Definition _create_engine (config : ConnectionConfig) (environ : gmap (list N) (list N))
  : ConnectionConfig * connection :=
  if docker config then
    let username := getenv environ (py "POSTGRES_USER") (py "postgres") in
    let password := getenv environ (py "POSTGRES_PASSWORD") (py "postgres") in
    let database := getenv environ (py "POSTGRES_DB") (py "langroid") in
    if negb (negb (str_eqb (host config) []) && negb (port config =? 0)%Z
             && negb (str_eqb username []) && negb (str_eqb password [])
             && negb (str_eqb database []))
    then (config, RaiseValueError)
    else
      let connection_string :=
        py "postgresql+psycopg2://" ++ username ++ py ":" ++ password ++ py "@"
          ++ host config ++ py ":" ++ pyrepr.repr_int (port config) ++ py "/" ++ database in
      ({| cloud := false; docker := docker config; host := host config; port := port config |},
       Connect connection_string)
  else if cloud config then
    match environ !! py "POSTGRES_CONNECTION_STRING" with
    | Some (c :: s) => (config, Connect (c :: s))
    | _ => (config, RaiseValueError)
    end
  else (config, RaiseUnboundLocalError).

(** ** A reference server

    The reading of PostgreSQL 16 for the names that are made of ASCII
    letters, digits, underscores and dollar signs.  A name without quotes
    begins with a letter or an underscore; its letters are folded to lower
    case and it is cut at 63 bytes; a reserved key word names no relation.
    Any other character ends the identifier, and what follows it is no part
    of the statement but in a few cases (a comment, a qualified name): the
    reference server refuses such a text, as PostgreSQL does at a hyphen.
    pgvector takes [m] from 2 to 100 and [ef_construction] from 4 to 1000
    and at least twice [m].  A table can have any name of 1 to 63 bytes. *)
Module postgresql.

Definition ident_start (c : N) : bool :=
  ((97 <=? c) && (c <=? 122)) || ((65 <=? c) && (c <=? 90)) || (c =? 95).

Definition ident_cont (c : N) : bool :=
  ident_start c || ((48 <=? c) && (c <=? 57)) || (c =? 36).

(** The key words that are reserved, or reserved but for the names of
    functions and types. *)
Definition reserved : list (list N) :=
  map py
    ["all"; "analyse"; "analyze"; "and"; "any"; "array"; "as"; "asc"; "asymmetric";
     "both"; "case"; "cast"; "check"; "collate"; "column"; "constraint"; "create";
     "current_catalog"; "current_date"; "current_role"; "current_time";
     "current_timestamp"; "current_user"; "default"; "deferrable"; "desc";
     "distinct"; "do"; "else"; "end"; "except"; "false"; "fetch"; "for"; "foreign";
     "from"; "grant"; "group"; "having"; "in"; "initially"; "intersect"; "into";
     "lateral"; "leading"; "limit"; "localtime"; "localtimestamp"; "not"; "null";
     "offset"; "on"; "only"; "or"; "order"; "placing"; "primary"; "references";
     "returning"; "select"; "session_user"; "some"; "symmetric"; "system_user";
     "table"; "then"; "to"; "trailing"; "true"; "union"; "unique"; "user"; "using";
     "variadic"; "when"; "where"; "window"; "with"; "authorization"; "binary";
     "collation"; "concurrently"; "cross"; "current_schema"; "freeze"; "full";
     "ilike"; "inner"; "is"; "isnull"; "join"; "left"; "like"; "natural"; "notnull";
     "outer"; "overlaps"; "right"; "similar"; "tablesample"; "verbose"]%string.

(** A name without quotes where a relation is named. *)
Definition relation (text : list N) : result (list N) :=
  match text with
  | c :: _ =>
      if ident_start c && forallb ident_cont text
         && negb (bool_decide (map ascii_lower text ∈ reserved))
      then Ok (take 63 (map ascii_lower text))
      else Raise ProgrammingError
  | [] => Raise ProgrammingError
  end.

Definition options (m ef_construction : N) : bool :=
  (2 <=? m) && (m <=? 100) && (4 <=? ef_construction) && (ef_construction <=? 1000)
  && (2 * m <=? ef_construction).

Definition drop_index (name : list N) : result (list N) :=
  relation (index_name name).

Definition create_index (name : list N) (m ef_construction : N)
  : result (list N * list N) :=
  match relation (index_name name), relation name with
  | Ok i, Ok t => if options m ef_construction then Ok (i, t) else Raise DataError
  | Raise e, _ => Raise e
  | _, Raise e => Raise e
  end.

Definition create_table (name : list N) : result unit :=
  match codecs.utf8_encode name with
  | None => Raise UnicodeEncodeError
  | Some b =>
      if (1 <=? length b)%nat && (length b <=? 63)%nat then Ok tt
      else Raise ProgrammingError
  end.

End postgresql.

Definition postgres_16 : PostgreSQL := {|
  drop_index_query := postgresql.drop_index;
  create_index_query := postgresql.create_index;
  create_table_query := postgresql.create_table
|}.

(** ** The data of the examples *)
Module Sample.

#[local] Existing Instance python_311.
#[local] Existing Instance letter_model.
#[local] Existing Instance postgres_16.

Definition meta (id tag : list N) : DocMetaData :=
  {| mytypes.source := py "context"; mytypes.source_content := py "context";
     mytypes.title := py "Unknown Title"; mytypes.published_date := py "Unknown Date";
     mytypes.is_chunk := false; mytypes.id := id; mytypes.window_ids := [];
     mytypes.extra := [(py "tag", JStr tag)] |}.

(** Three metadata objects at the addresses 0, 1 and 2; the third has a
    UUID for its id. *)
Definition objects : nat -> DocMetaData :=
  <[0%nat := meta (py "doc1") (py "x")]>
    (<[1%nat := meta (py "doc2") (py "y")]>
       (fun _ => meta (py "a0eebc99-9c0b-4ef8-bb6d-6bb9bd380a11") (py "x"))).

Definition process : Process := {| heap := objects; ids_drawn := 0 |}.

Definition documents : list DocumentRef :=
  [ {| doc_content := py "aab"; doc_metadata := 0 |};
    {| doc_content := py "abb"; doc_metadata := 1 |};
    {| doc_content := py "ccc"; doc_metadata := 2 |} ].

(** A store with four empty collections, "docs" being the current one. *)
Definition empty_store : PostgresDB :=
  {| config := {| collection_name := py "docs"; replace_collection := false;
                  hnsw_m := 16; hnsw_ef_construction := 200 |};
     engine :=
       {| tables := list_to_map [(py "docs", []); (py "test_a", []);
                                 (py "test_b", []); (py "other", [])];
          indexes := {[ index_name (py "docs") :=
                          {| on_table := py "docs"; index_m := 16;
                             index_ef_construction := 200 |} ]} |} |}.

(** The state after the three documents have been added. *)
Definition added : Process * PostgresDB * result unit :=
  add_documents empty_store process documents.

Definition process1 : Process := added.1.1.
Definition store : PostgresDB := added.1.2.

(** The same content under another text, sharing the first metadata object. *)
Definition revised : DocumentRef := {| doc_content := py "bbb"; doc_metadata := 0 |}.

Definition uuid_doc1 : list N := py "8aca5ef3-8c3a-50f2-b962-1e132eb855a7".
Definition uuid_doc2 : list N := py "8635cfbc-0dc1-5e73-89b9-95440ce65e22".
Definition uuid_doc3 : list N := py "a0eebc99-9c0b-4ef8-bb6d-6bb9bd380a11".

(** The filters [{"tag": "y"}] and [{"tag": "z"}], and a text that is no JSON. *)
Definition quote : list N := [34].
Definition tag_filter (v : list N) : list N :=
  py "{" ++ quote ++ py "tag" ++ quote ++ py ": " ++ quote ++ v ++ quote ++ py "}".
Definition not_json : list N := py "{not json".

(** Objects that differ in their title only. *)
Definition titled (n : nat) : DocMetaData :=
  {| mytypes.source := py "context"; mytypes.source_content := py "context";
     mytypes.title := repeat 97 n; mytypes.published_date := py "Unknown Date";
     mytypes.is_chunk := false; mytypes.id := py "doc"; mytypes.window_ids := [];
     mytypes.extra := [] |}.

(** An object with an extra field whose name is a lone surrogate. *)
Definition surrogate_field : DocMetaData :=
  {| mytypes.source := py "context"; mytypes.source_content := py "context";
     mytypes.title := py "Unknown Title"; mytypes.published_date := py "Unknown Date";
     mytypes.is_chunk := false; mytypes.id := py "doc"; mytypes.window_ids := [];
     mytypes.extra := [([0xD800], JNum 1)] |}.

(** The documents as they are read back. *)
Definition stored (content id tag : list N) : Document :=
  {| mytypes.content := content; mytypes.metadata := meta id tag |}.

(** A fourth metadata object, at the address 3, whose id is a lone
    surrogate, and a batch that has it in the middle. *)
Definition objects_bad : nat -> DocMetaData := <[3%nat := meta [0xD800] (py "x")]> objects.

Definition process_bad : Process := {| heap := objects_bad; ids_drawn := 0 |}.

Definition first_document : DocumentRef := {| doc_content := py "aab"; doc_metadata := 0 |}.
Definition bad_document : DocumentRef := {| doc_content := py "zzz"; doc_metadata := 3 |}.
Definition second_document : DocumentRef := {| doc_content := py "abb"; doc_metadata := 1 |}.

(** The store once its empty collections are cleared. *)
Definition cleared : PostgresDB := (clear_empty_collections store).1.

(** The store after [set_collection("my-docs")] has raised: the table of
    that name is there. *)
Definition hyphened : PostgresDB := (set_collection store (py "my-docs") false).1.

(** The store with a collection that has the name of the index of "other". *)
Definition shadowed : PostgresDB :=
  (set_collection store (index_name (py "other")) false).1.

(** Sixteen bytes for [os.urandom(16)]. *)
Definition urandom : list N := map N.of_nat (seq 1 16).

End Sample.

(** * Facts about the standard-library functions *)

(** ** Strings *)

Lemma startswith_head_ne (c p : N) (s old : list N) :
  c <> p -> startswith (c :: s) (p :: old) = false.
Proof.
  intros Hne. simpl. destruct (N.eqb_spec c p); [congruence | reflexivity].
Qed.

Lemma replace_from_absent (p : N) (old new s : list N) :
  Forall (fun c => c <> p) s -> replace_from (p :: old) new 0 s = s.
Proof.
  induction 1 as [| c s Hc Hs IH]; [reflexivity |].
  cbn [replace_from]. rewrite startswith_head_ne by assumption.
  now rewrite IH.
Qed.

Lemma replace_absent (p : N) (old new s : list N) :
  Forall (fun c => c <> p) s -> replace (p :: old) new s = s.
Proof. apply replace_from_absent. Qed.

Lemma replace_char_filter (p : N) (s : list N) :
  replace [p] [] s = filter (fun c => c <> p) s.
Proof.
  unfold replace. induction s as [| c s IH]; [reflexivity |].
  cbn [replace_from startswith length Nat.pred app].
  assert (Hs0 : startswith s [] = true) by (destruct s; reflexivity).
  rewrite Hs0, andb_true_r, filter_cons.
  destruct (N.eqb_spec c p) as [-> | Hne].
  - rewrite decide_False by (intros Hn; now apply Hn). exact IH.
  - rewrite decide_True by assumption. now rewrite IH.
Qed.

Lemma lstrip_head (chars : list N) (c : N) (s : list N) :
  mem c chars = false -> lstrip chars (c :: s) = c :: s.
Proof. intros Hc. simpl. now rewrite Hc. Qed.

Lemma strip_ends (chars s : list N) :
  Forall (fun c => mem c chars = false) s -> strip chars s = s.
Proof.
  intros Hs. unfold strip.
  assert (Hl : forall l, Forall (fun c => mem c chars = false) l -> lstrip chars l = l).
  { intros l Hl. destruct Hl as [| c l Hc _]; [reflexivity | now apply lstrip_head]. }
  rewrite (Hl s Hs). rewrite Hl.
  - apply rev_involutive.
  - apply Forall_rev. exact Hs.
Qed.

(** ** Hexadecimal digits *)

Lemma digit_value_hexchar (d : N) :
  d < 16 -> uuid.digit_value (hashlib.hexchar d) = Some d.
Proof.
  intros Hd. unfold hashlib.hexchar, uuid.digit_value.
  destruct (N.ltb_spec d 10).
  - replace ((48 <=? 48 + d) && (48 + d <=? 57)) with true
      by (symmetry; apply andb_true_intro; split; apply N.leb_le; lia).
    f_equal. lia.
  - replace ((48 <=? 87 + d) && (87 + d <=? 57)) with false
      by (symmetry; apply andb_false_intro2; apply N.leb_gt; lia).
    replace ((97 <=? 87 + d) && (87 + d <=? 122)) with true
      by (symmetry; apply andb_true_intro; split; apply N.leb_le; lia).
    f_equal. lia.
Qed.

Lemma is_hex_lower_digit (c : N) :
  uuid.is_hex_lower c = true ->
  exists d, d < 16 /\ uuid.digit_value c = Some d /\ hashlib.hexchar d = c.
Proof.
  unfold uuid.is_hex_lower, uuid.digit_value, hashlib.hexchar. intros Hc.
  apply orb_true_iff in Hc as [Hc | Hc]; apply andb_true_iff in Hc as [H1 H2];
    apply N.leb_le in H1; apply N.leb_le in H2.
  - exists (c - 48).
    replace ((48 <=? c) && (c <=? 57)) with true
      by (symmetry; apply andb_true_intro; split; apply N.leb_le; lia).
    split; [lia | split; [reflexivity |]].
    destruct (N.ltb_spec (c - 48) 10); lia.
  - exists (c - 87).
    replace ((48 <=? c) && (c <=? 57)) with false
      by (symmetry; apply andb_false_intro2; apply N.leb_gt; lia).
    replace ((97 <=? c) && (c <=? 122)) with true
      by (symmetry; apply andb_true_intro; split; apply N.leb_le; lia).
    split; [lia | split; [reflexivity |]].
    destruct (N.ltb_spec (c - 87) 10); lia.
Qed.

Lemma hexchar_is_hex_lower (d : N) : d < 16 -> uuid.is_hex_lower (hashlib.hexchar d) = true.
Proof.
  intros Hd. unfold uuid.is_hex_lower, hashlib.hexchar.
  destruct (N.ltb_spec d 10).
  - apply orb_true_intro. left. apply andb_true_intro; split; apply N.leb_le; lia.
  - apply orb_true_intro. right. apply andb_true_intro; split; apply N.leb_le; lia.
Qed.

Lemma hex_value_snoc (ds : list N) (c : N) :
  hex_value (ds ++ [c]) = hex_value ds * 16 + default 0 (uuid.digit_value c).
Proof. unfold hex_value. now rewrite fold_left_app. Qed.

Lemma hex_digits_length (n : nat) (v : N) : length (uuid.hex_digits n v) = n.
Proof.
  revert v. induction n as [| n IH]; intros v; [reflexivity |].
  cbn [uuid.hex_digits]. rewrite length_app, IH. simpl. lia.
Qed.

Lemma hex_digits_lower (n : nat) (v : N) : Forall (fun c => uuid.is_hex_lower c = true) (uuid.hex_digits n v).
Proof.
  revert v. induction n as [| n IH]; intros v; [constructor |].
  cbn [uuid.hex_digits]. apply Forall_app. split; [apply IH |].
  constructor; [| constructor]. apply hexchar_is_hex_lower.
  apply N.mod_lt. lia.
Qed.

(** Reading back what was printed. *)
Lemma hex_value_digits (n : nat) (v : N) :
  hex_value (uuid.hex_digits n v) = v mod 16 ^ N.of_nat n.
Proof.
  revert v. induction n as [| n IH]; intros v.
  - simpl. now rewrite N.mod_1_r.
  - cbn [uuid.hex_digits]. rewrite hex_value_snoc, IH.
    rewrite digit_value_hexchar by (apply N.mod_lt; lia). simpl default.
    rewrite Nat2N.inj_succ, N.pow_succ_r by lia.
    rewrite N.Div0.mod_mul_r. lia.
Qed.

(** Printing what was read. *)
Lemma hex_digits_value (ds : list N) :
  Forall (fun c => uuid.is_hex_lower c = true) ds ->
  uuid.hex_digits (length ds) (hex_value ds) = ds.
Proof.
  induction ds as [| c ds IH] using rev_ind; intros Hds; [reflexivity |].
  apply Forall_app in Hds as [Hds Hc]. inversion_clear Hc as [| ? ? Hc' _].
  destruct (is_hex_lower_digit c Hc') as (d & Hd & Hv & Hch).
  rewrite length_app. simpl length. rewrite Nat.add_1_r.
  cbn [uuid.hex_digits]. rewrite hex_value_snoc, Hv. simpl default.
  replace ((hex_value ds * 16 + d) / 16) with (hex_value ds).
  2:{ symmetry. rewrite N.div_add_l by lia. rewrite N.div_small by lia. lia. }
  replace ((hex_value ds * 16 + d) mod 16) with d.
  2:{ symmetry. rewrite N.add_comm. rewrite N.Div0.mod_add. now apply N.mod_small. }
  rewrite IH by assumption. now rewrite Hch.
Qed.

Lemma hex_value_bound (ds : list N) :
  Forall (fun c => uuid.is_hex_lower c = true) ds ->
  hex_value ds < 16 ^ N.of_nat (length ds).
Proof.
  intros Hds. rewrite <- (hex_digits_value ds Hds) at 1.
  rewrite hex_value_digits. apply N.mod_lt. apply N.pow_nonzero. lia.
Qed.

(** ** [int(s, 16)] on lower-case digits *)
Lemma hex_lower_range (c : N) :
  uuid.is_hex_lower c = true -> (48 <= c <= 57) \/ (97 <= c <= 102).
Proof.
  unfold uuid.is_hex_lower. intros Hc.
  apply orb_true_iff in Hc as [Hc | Hc]; apply andb_true_iff in Hc as [H1 H2];
    apply N.leb_le in H1; apply N.leb_le in H2; lia.
Qed.

Lemma digits16_hex_lower (ds : list N) (acc : N) (n : nat) :
  Forall (fun c => uuid.is_hex_lower c = true) ds ->
  uuid.digits16 false acc n ds =
    Some (fold_left (fun a c => a * 16 + default 0 (uuid.digit_value c)) ds acc,
          (n + length ds)%nat, []).
Proof.
  intros Hds. revert acc n.
  induction Hds as [| c ds Hc Hds IH]; intros acc n.
  - simpl. now rewrite Nat.add_0_r.
  - cbn [uuid.digits16 fold_left length].
    destruct (is_hex_lower_digit c Hc) as (d & Hd & Hv & _).
    pose proof (hex_lower_range c Hc) as Hr.
    replace (c =? 95) with false by (symmetry; apply N.eqb_neq; lia).
    rewrite Hv. simpl default.
    replace (d <? 16) with true by (symmetry; now apply N.ltb_lt).
    rewrite IH. do 3 f_equal. lia.
Qed.

Section IntOfHex.
Context `{UnicodeData}.

Lemma to_ascii_hex_lower (ds : list N) :
  Forall (fun c => uuid.is_hex_lower c = true) ds -> uuid.to_ascii ds = ds.
Proof.
  intros Hds. unfold uuid.to_ascii.
  replace (forallb (fun c => c <? 128) ds) with true; [reflexivity |].
  symmetry. apply forallb_forall. intros c Hc.
  rewrite List.Forall_forall in Hds.
  destruct (hex_lower_range c (Hds c Hc)); apply N.ltb_lt; lia.
Qed.

Lemma int16_hex_lower (ds : list N) :
  ds <> [] -> Forall (fun c => uuid.is_hex_lower c = true) ds ->
  uuid.int16 ds = Some (Z.of_N (hex_value ds)).
Proof.
  intros Hne Hds. unfold uuid.int16. rewrite to_ascii_hex_lower by assumption.
  destruct ds as [| c ds]; [congruence |].
  pose proof Hds as Hall. inversion_clear Hds as [| ? ? Hc Hds'].
  pose proof (hex_lower_range c Hc) as Hr.
  assert (Hsp : mem c uuid.c_space = false).
  { unfold mem, uuid.c_space. cbn [existsb].
    repeat (replace (c =? _) with false by (symmetry; apply N.eqb_neq; lia)). reflexivity. }
  rewrite lstrip_head by assumption.
  unfold uuid.is_negative, uuid.skip_sign.
  replace (c =? 43) with false by (symmetry; apply N.eqb_neq; lia).
  replace (c =? 45) with false by (symmetry; apply N.eqb_neq; lia).
  cbn [orb].
  assert (Hpre : uuid.skip_prefix16 (c :: ds) = c :: ds).
  { unfold uuid.skip_prefix16. destruct ds as [| x r]; [reflexivity |].
    inversion_clear Hds' as [| ? ? Hx _].
    pose proof (hex_lower_range x Hx) as Hxr.
    replace (x =? 120) with false by (symmetry; apply N.eqb_neq; lia).
    replace (x =? 88) with false by (symmetry; apply N.eqb_neq; lia).
    now rewrite andb_false_r. }
  rewrite Hpre. unfold uuid.starts_with_underscore.
  replace (c =? 95) with false by (symmetry; apply N.eqb_neq; lia).
  rewrite digits16_hex_lower by assumption.
  cbn [Nat.add length lstrip]. reflexivity.
Qed.

End IntOfHex.

(** ** Canonical UUID strings *)
Lemma regroup (d : list N) :
  take 8 d ++ take 4 (drop 8 d) ++ take 4 (drop 12 d) ++ take 4 (drop 16 d) ++ drop 20 d = d.
Proof.
  replace (drop 20 d) with (drop 4 (drop 16 d)) by (rewrite drop_drop; reflexivity).
  rewrite take_drop.
  replace (drop 16 d) with (drop 4 (drop 12 d)) by (rewrite drop_drop; reflexivity).
  rewrite take_drop.
  replace (drop 12 d) with (drop 4 (drop 8 d)) by (rewrite drop_drop; reflexivity).
  rewrite take_drop. apply take_drop.
Qed.

Lemma filter_all {A} (P : A -> Prop) `{forall x, Decision (P x)} (l : list A) :
  Forall P l -> filter P l = l.
Proof.
  induction 1 as [| x l Hx Hl IH]; [reflexivity |].
  rewrite filter_cons, decide_True by assumption. now rewrite IH.
Qed.

Lemma filter_hyphenate (d : list N) :
  Forall (fun c => c <> 45) d -> filter (fun c => c <> 45) (uuid.hyphenate d) = d.
Proof.
  intros Hd. unfold uuid.hyphenate.
  assert (Ht : forall n, filter (fun c => c <> 45) (take n d) = take n d)
    by (intros n; apply filter_all, Forall_take, Hd).
  assert (Hdr : forall n, Forall (fun c => c <> 45) (drop n d))
    by (intros n; apply Forall_drop, Hd).
  assert (H45 : filter (fun c : N => c <> 45) [45] = []) by reflexivity.
  rewrite !list.filter_app. rewrite !H45. cbn [app].
  rewrite Ht. rewrite !(filter_all _ (take _ (drop _ d))) by (apply Forall_take, Hdr).
  rewrite (filter_all _ (drop 20 d)) by apply Hdr.
  apply regroup.
Qed.

Lemma hex_lower_not_hyphen (d : list N) :
  Forall (fun c => uuid.is_hex_lower c = true) d -> Forall (fun c => c <> 45) d.
Proof.
  apply List.Forall_impl. intros c Hc. pose proof (hex_lower_range c Hc). lia.
Qed.

Lemma canonical_chars (s : list N) :
  uuid.canonical s = true ->
  Forall (fun c => c = 45 \/ uuid.is_hex_lower c = true) s.
Proof.
  unfold uuid.canonical. intros Hs.
  apply andb_true_iff in Hs as [Hs _]. apply andb_true_iff in Hs as [_ Hl].
  rewrite forallb_forall in Hl. apply List.Forall_forall. intros c Hc.
  destruct (decide (c = 45)) as [-> | Hne]; [now left | right].
  apply Hl. apply list_elem_of_In. apply list_elem_of_filter. split; [exact Hne |].
  now apply list_elem_of_In.
Qed.

Section Canonical.
Context `{UnicodeData}.

(** A string in canonical form parses, and prints as itself. *)
Lemma UUID_canonical (s : list N) :
  uuid.canonical s = true ->
  exists v, uuid.UUID s = Ok v /\ v < 2 ^ 128 /\ uuid.to_str v = s.
Proof.
  intros Hcan. pose proof (canonical_chars s Hcan) as Hch.
  unfold uuid.canonical in Hcan.
  set (h := filter (fun c => c <> 45) s) in *.
  apply andb_true_iff in Hcan as [Hcan Heq]. apply andb_true_iff in Hcan as [Hlen Hl].
  apply Nat.eqb_eq in Hlen. unfold str_eqb in Heq. apply bool_decide_eq_true in Heq.
  assert (Hlow : Forall (fun c => uuid.is_hex_lower c = true) h).
  { apply List.Forall_forall. intros c Hc. rewrite forallb_forall in Hl. now apply Hl. }
  exists (hex_value h).
  assert (Hb : hex_value h < 2 ^ 128).
  { pose proof (hex_value_bound h Hlow) as Hb. rewrite Hlen in Hb. exact Hb. }
  split; [| split; [exact Hb |]].
  - unfold uuid.UUID.
    change (py "urn:") with (117 :: [114; 110; 58]).
    change (py "uuid:") with (117 :: [117; 105; 100; 58]).
    change (py "{}") with [123; 125]. change (py "-") with [45].
    assert (Hu : Forall (fun c => c <> 117) s).
    { eapply List.Forall_impl; [| exact Hch]. intros c [-> | Hc]; [lia |].
      pose proof (hex_lower_range c Hc). lia. }
    rewrite (replace_absent 117 [114; 110; 58] [] s Hu).
    rewrite (replace_absent 117 [117; 105; 100; 58] [] s Hu).
    rewrite strip_ends.
    2:{ eapply List.Forall_impl; [| exact Hch]. intros c Hc. unfold mem. cbn [existsb].
        assert (c <> 123 /\ c <> 125) as [H1 H2].
        { destruct Hc as [-> | Hc]; [lia |]. pose proof (hex_lower_range c Hc). lia. }
        apply N.eqb_neq in H1, H2. now rewrite H1, H2. }
    rewrite replace_char_filter. fold h. rewrite Hlen. cbn [Nat.eqb negb].
    rewrite int16_hex_lower; [| intros ->; discriminate | assumption].
    replace (0 <=? Z.of_N (hex_value h))%Z with true by (symmetry; apply Z.leb_le; lia).
    replace (Z.of_N (hex_value h) <? 2 ^ 128)%Z with true.
    2:{ symmetry. apply Z.ltb_lt. change (2 ^ 128)%Z with (Z.of_N (2 ^ 128)). lia. }
    cbn [andb]. now rewrite N2Z.id.
  - unfold uuid.to_str. rewrite <- Hlen, hex_digits_value by assumption.
    symmetry. exact Heq.
Qed.

Lemma to_str_canonical (v : N) : uuid.canonical (uuid.to_str v) = true.
Proof.
  unfold uuid.canonical, uuid.to_str.
  pose proof (hex_digits_lower 32 v) as Hlow.
  rewrite (filter_hyphenate _ (hex_lower_not_hyphen _ Hlow)).
  rewrite hex_digits_length. cbn [Nat.eqb andb].
  apply andb_true_intro. split.
  - apply forallb_forall. rewrite List.Forall_forall in Hlow. exact Hlow.
  - unfold str_eqb. now apply bool_decide_eq_true.
Qed.

(** Parsing what [str] printed gives the value back. *)
Lemma UUID_to_str (v : N) : v < 2 ^ 128 -> uuid.UUID (uuid.to_str v) = Ok v.
Proof.
  intros Hv. destruct (UUID_canonical _ (to_str_canonical v)) as (w & Hw & Hb & Hs).
  rewrite Hw. f_equal.
  unfold uuid.to_str in Hs.
  assert (Hd : uuid.hex_digits 32 w = uuid.hex_digits 32 v).
  { rewrite <- (filter_hyphenate (uuid.hex_digits 32 w)), <- (filter_hyphenate (uuid.hex_digits 32 v)).
    - now rewrite Hs.
    - apply hex_lower_not_hyphen, hex_digits_lower.
    - apply hex_lower_not_hyphen, hex_digits_lower. }
  apply (f_equal hex_value) in Hd. rewrite !hex_value_digits in Hd.
  change (16 ^ N.of_nat 32) with (2 ^ 128) in Hd.
  rewrite !N.mod_small in Hd by assumption. exact Hd.
Qed.

Lemma UUID_range (s : list N) (v : N) : uuid.UUID s = Ok v -> v < 2 ^ 128.
Proof.
  unfold uuid.UUID. destruct (negb _); [discriminate |].
  destruct (uuid.int16 _) as [i |]; [| discriminate].
  destruct (Z.leb_spec 0 i); [| discriminate].
  destruct (Z.ltb_spec i (2 ^ 128)); [| discriminate].
  cbn [andb]. intros [= <-]. change (2 ^ 128) with (Z.to_N (2 ^ 128)%Z). lia.
Qed.

End Canonical.

(** ** [uuid5] *)
Lemma lor_lt_pow2 (a b n : N) : a < 2 ^ n -> b < 2 ^ n -> N.lor a b < 2 ^ n.
Proof.
  intros Ha Hb.
  destruct (N.eq_dec a 0) as [-> | Ha0]; [now rewrite N.lor_0_l |].
  destruct (N.eq_dec b 0) as [-> | Hb0]; [now rewrite N.lor_0_r |].
  assert (Hab : N.lor a b <> 0).
  { intros Hz. apply N.lor_eq_0_iff in Hz. tauto. }
  apply N.log2_lt_pow2; [lia |].
  rewrite N.log2_lor.
  apply N.log2_lt_pow2 in Ha; [| lia]. apply N.log2_lt_pow2 in Hb; [| lia]. lia.
Qed.

Lemma from_bytes_snoc (b : list N) (x : N) :
  hashlib.from_bytes (b ++ [x]) = hashlib.from_bytes b * 256 + x.
Proof. unfold hashlib.from_bytes. now rewrite fold_left_app. Qed.

Lemma from_bytes_bound (b : list N) :
  Forall (fun x => x < 256) b -> hashlib.from_bytes b < 256 ^ N.of_nat (length b).
Proof.
  induction b as [| x b IH] using rev_ind; intros Hb.
  - reflexivity.
  - apply Forall_app in Hb as [Hb Hx]. inversion_clear Hx as [| ? ? Hx' _].
    rewrite from_bytes_snoc, length_app. simpl length.
    rewrite Nat.add_1_r, Nat2N.inj_succ, N.pow_succ_r by lia.
    specialize (IH Hb). revert IH.
    generalize (256 ^ N.of_nat (length b)) (hashlib.from_bytes b). intros P a IH. lia.
Qed.

Lemma to_bytes_length (n : nat) (v : N) : length (hashlib.to_bytes n v) = n.
Proof.
  revert v. induction n as [| n IH]; intros v; [reflexivity |].
  cbn [hashlib.to_bytes]. rewrite length_app, IH. simpl. lia.
Qed.

Lemma to_bytes_byte (n : nat) (v : N) : Forall (fun x => x < 256) (hashlib.to_bytes n v).
Proof.
  revert v. induction n as [| n IH]; intros v; [constructor |].
  cbn [hashlib.to_bytes]. apply Forall_app. split; [apply IH |].
  constructor; [| constructor]. apply N.mod_lt. lia.
Qed.

Lemma sha1_length (msg : list N) : length (hashlib.sha1 msg) = 20%nat.
Proof.
  unfold hashlib.sha1.
  destruct (fold_left hashlib.compress1 _ _) as [[[[h0 h1] h2] h3] h4].
  rewrite !length_app, !to_bytes_length. reflexivity.
Qed.

Lemma sha1_bytes (msg : list N) : Forall (fun x => x < 256) (hashlib.sha1 msg).
Proof.
  unfold hashlib.sha1.
  destruct (fold_left hashlib.compress1 _ _) as [[[[h0 h1] h2] h3] h4].
  rewrite !Forall_app. repeat split; apply to_bytes_byte.
Qed.

Lemma UUID_of_bytes_range (b : list N) (v : N) :
  Forall (fun x => x < 256) b -> uuid.UUID_of_bytes b 5 = Ok v -> v < 2 ^ 128.
Proof.
  intros Hb. unfold uuid.UUID_of_bytes.
  destruct (Nat.eqb_spec (length b) 16) as [Hlen | Hlen]; [| discriminate].
  cbn [negb]. intros [= <-].
  pose proof (from_bytes_bound b Hb) as Hfb. rewrite Hlen in Hfb.
  change (256 ^ N.of_nat 16) with (2 ^ 128) in Hfb.
  apply lor_lt_pow2; [| reflexivity].
  eapply N.le_lt_trans; [apply N.ldiff_le_l |].
  apply lor_lt_pow2; [| reflexivity].
  eapply N.le_lt_trans; [apply N.ldiff_le_l |]. exact Hfb.
Qed.

Lemma uuid5_range (name : list N) (v : N) : uuid.uuid5 name = Ok v -> v < 2 ^ 128.
Proof.
  unfold uuid.uuid5. destruct (codecs.utf8_encode name) as [b |]; [| discriminate].
  apply UUID_of_bytes_range. apply Forall_take, sha1_bytes.
Qed.

Lemma uuid5_returns (name : list N) :
  codecs.utf8_encode name <> None -> exists v, uuid.uuid5 name = Ok v.
Proof.
  unfold uuid.uuid5. destruct (codecs.utf8_encode name) as [b |]; [| congruence].
  intros _. unfold uuid.UUID_of_bytes.
  rewrite length_take, sha1_length. cbn [Nat.min Nat.eqb negb]. eauto.
Qed.

Lemma uuid5_raises (name : list N) :
  codecs.utf8_encode name = None -> uuid.uuid5 name = Raise UnicodeEncodeError.
Proof. unfold uuid.uuid5. now intros ->. Qed.

(** ** The codec *)
Lemma utf8_char_encodable (c : N) :
  c < 0x110000 -> ~ (0xD800 <= c <= 0xDFFF) -> codecs.utf8_char c <> None.
Proof.
  intros Hc Hs. unfold codecs.utf8_char.
  destruct (N.ltb_spec c 0x80); [discriminate |].
  destruct (N.ltb_spec c 0x800); [discriminate |].
  destruct (N.ltb_spec c 0x10000).
  - destruct (N.leb_spec 0xD800 c); destruct (N.leb_spec c 0xDFFF); cbn [andb]; try discriminate.
    lia.
  - destruct (N.ltb_spec c 0x110000); [discriminate | lia].
Qed.

Lemma utf8_encode_encodable (s : list N) :
  codecs.encodable s -> codecs.utf8_encode s <> None.
Proof.
  induction 1 as [| c s [Hc Hs] _ IH]; [discriminate |].
  cbn [codecs.utf8_encode].
  pose proof (utf8_char_encodable c Hc Hs).
  destruct (codecs.utf8_char c); [| congruence].
  destruct (codecs.utf8_encode s); [discriminate | congruence].
Qed.

Lemma utf8_char_None (c : N) :
  codecs.utf8_char c <> None -> c < 0x110000 /\ ~ (0xD800 <= c <= 0xDFFF).
Proof.
  unfold codecs.utf8_char.
  destruct (N.ltb_spec c 0x80); [lia |].
  destruct (N.ltb_spec c 0x800); [lia |].
  destruct (N.ltb_spec c 0x10000).
  - destruct (N.leb_spec 0xD800 c); destruct (N.leb_spec c 0xDFFF); cbn [andb];
      [congruence | lia | lia | lia].
  - destruct (N.ltb_spec c 0x110000); [lia | congruence].
Qed.

Lemma utf8_encode_Some (s b : list N) :
  codecs.utf8_encode s = Some b -> codecs.encodable s.
Proof.
  revert b. induction s as [| c s IH]; intros b E; [constructor |].
  cbn [codecs.utf8_encode] in E.
  destruct (codecs.utf8_char c) as [bc |] eqn:Ec; [| discriminate].
  destruct (codecs.utf8_encode s) as [bs |]; [| discriminate].
  constructor; [apply utf8_char_None; congruence | now apply (IH bs)].
Qed.

(** The codec raises on the strings that are not [encodable], and on no
    other. *)
Lemma utf8_encode_None (s : list N) :
  codecs.utf8_encode s = None <-> ~ codecs.encodable s.
Proof.
  split.
  - intros Hs Henc. now apply utf8_encode_encodable in Henc.
  - intros Hs. destruct (codecs.utf8_encode s) as [b |] eqn:E; [| reflexivity].
    exfalso. apply Hs. now apply (utf8_encode_Some s b).
Qed.

Lemma utf8_encode_app_None (s t : list N) :
  codecs.utf8_encode s = None -> codecs.utf8_encode (s ++ t) = None.
Proof.
  induction s as [| c s IH]; [discriminate |].
  cbn [app codecs.utf8_encode].
  destruct (codecs.utf8_char c); [| reflexivity].
  destruct (codecs.utf8_encode s); [discriminate |]. intros _. now rewrite IH.
Qed.

Lemma utf8_encode_app (s t : list N) :
  codecs.utf8_encode s <> None -> codecs.utf8_encode t <> None ->
  codecs.utf8_encode (s ++ t) <> None.
Proof.
  intros Hs Ht. induction s as [| c s IH]; [exact Ht |].
  cbn [app codecs.utf8_encode] in *.
  destruct (codecs.utf8_char c); [| congruence].
  destruct (codecs.utf8_encode s) eqn:E; [| congruence].
  specialize (IH ltac:(discriminate)).
  destruct (codecs.utf8_encode (s ++ t)); [discriminate | congruence].
Qed.

Lemma utf8_encode_surrogate (s t : list N) (c : N) :
  0xD800 <= c <= 0xDFFF -> codecs.utf8_encode (s ++ c :: t) = None.
Proof.
  intros Hc. induction s as [| x s IH]; cbn [app codecs.utf8_encode].
  - replace (codecs.utf8_char c) with (@None (list N)); [reflexivity |].
    unfold codecs.utf8_char.
    destruct (N.ltb_spec c 0x80); [lia |].
    destruct (N.ltb_spec c 0x800); [lia |].
    destruct (N.ltb_spec c 0x10000); [| lia].
    destruct (N.leb_spec 0xD800 c); destruct (N.leb_spec c 0xDFFF); cbn [andb]; try reflexivity; lia.
  - rewrite IH. now destruct (codecs.utf8_char x).
Qed.

Lemma utf8_encode_ascii (s : list N) :
  Forall (fun c => c < 128) s -> codecs.utf8_encode s = Some s.
Proof.
  induction 1 as [| c s Hc _ IH]; [reflexivity |].
  cbn [codecs.utf8_encode]. rewrite IH. unfold codecs.utf8_char.
  destruct (N.ltb_spec c 0x80); [reflexivity | lia].
Qed.

Lemma hexlify_ascii (b : list N) :
  Forall (fun x => x < 256) b -> Forall (fun c => c < 128) (hashlib.hexlify b).
Proof.
  unfold hashlib.hexlify. induction 1 as [| x b Hx _ IH]; [constructor |].
  cbn [flat_map app].
  assert (Hh : forall d, d < 16 -> hashlib.hexchar d < 128).
  { intros d Hd. unfold hashlib.hexchar. destruct (N.ltb_spec d 10); lia. }
  constructor; [| constructor; [| exact IH]].
  - apply Hh. apply N.Div0.div_lt_upper_bound. lia.
  - apply Hh. apply N.mod_lt. lia.
Qed.

Lemma sha256_bytes (msg : list N) : Forall (fun x => x < 256) (hashlib.sha256 msg).
Proof.
  unfold hashlib.sha256. generalize (fold_left hashlib.compress256 (hashlib.message_blocks msg) hashlib.H256).
  intros st. induction st as [| w st IH]; [constructor |].
  cbn [map concat]. apply Forall_app. split; [apply to_bytes_byte | exact IH].
Qed.

(** ** Counting *)

(** A list longer than the range of its values repeats one. *)
Lemma repeated_or_NoDup (l : list nat) :
  NoDup l \/ exists i j x, (i < j)%nat /\ l !! i = Some x /\ l !! j = Some x.
Proof.
  induction l as [| a l IH]; [left; constructor |].
  destruct IH as [Hnd | (i & j & x & Hij & Hi & Hj)].
  - destruct (decide (a ∈ l)) as [Hin | Hni].
    + right. apply list_elem_of_lookup in Hin as [j Hj].
      exists 0%nat, (S j), a. repeat split; [lia | exact Hj].
    + left. now constructor.
  - right. exists (S i), (S j), x. repeat split; [lia | exact Hi | exact Hj].
Qed.

Lemma pigeonhole (B : N) (f : nat -> N) :
  (forall n, f n < B) -> exists i j, (i < j)%nat /\ f i = f j.
Proof.
  intros Hf.
  set (k := N.to_nat B).
  set (l := map (fun n => N.to_nat (f n)) (seq 0 (S k))).
  destruct (repeated_or_NoDup l) as [Hnd | (i & j & x & Hij & Hi & Hj)].
  - exfalso.
    assert (Hincl : incl l (seq 0 k)).
    { intros y Hy. apply in_map_iff in Hy as (n & <- & _). apply in_seq.
      specialize (Hf n). lia. }
    apply NoDup_ListNoDup in Hnd.
    pose proof (NoDup_incl_length Hnd Hincl) as Hlen.
    unfold l in Hlen. rewrite length_map, !length_seq in Hlen. lia.
  - exists i, j. split; [exact Hij |].
    unfold l in Hi, Hj. rewrite list_lookup_fmap in Hi, Hj.
    destruct (seq 0 (S k) !! i) as [a |] eqn:Ea; [| discriminate].
    destruct (seq 0 (S k) !! j) as [b |] eqn:Eb; [| discriminate].
    apply lookup_seq in Ea as [-> _]. apply lookup_seq in Eb as [-> _].
    simpl in Hi, Hj. injection Hi as Hi. injection Hj as Hj. lia.
Qed.

(** * ORDER BY *)
Section OrderByFacts.
Context {A K : Type} (le : K -> K -> bool) (key : A -> K).
Hypothesis le_total : forall a b, le a b = false -> le b a = true.
Hypothesis le_trans : forall a b c, le a b = true -> le b c = true -> le a c = true.

#[local] Abbreviation key_le := (key_le le key).

Lemma insert_by_Permutation (x : A) (l : list A) : insert_by le key x l ≡ₚ x :: l.
Proof.
  induction l as [| y l IH]; [reflexivity |].
  cbn [insert_by]. destruct (le (key x) (key y)); [reflexivity |].
  rewrite IH. apply Permutation_swap.
Qed.

Lemma order_by_Permutation (l : list A) : order_by le key l ≡ₚ l.
Proof.
  induction l as [| x l IH]; [reflexivity |].
  cbn [order_by foldr]. fold (order_by le key l).
  now rewrite insert_by_Permutation, IH.
Qed.

Lemma insert_by_sorted (x : A) (l : list A) :
  StronglySorted key_le l -> StronglySorted key_le (insert_by le key x l).
Proof.
  induction 1 as [| y l Hl IH Hy]; cbn [insert_by].
  - repeat constructor.
  - destruct (le (key x) (key y)) eqn:E.
    + constructor; [now constructor |].
      constructor; [exact E |].
      eapply List.Forall_impl; [| exact Hy]. intros z Hz. unfold key_le in *. now apply (le_trans _ (key y)).
    + constructor; [exact IH |].
      eapply Permutation_Forall; [symmetry; apply insert_by_Permutation |].
      constructor; [now apply le_total | exact Hy].
Qed.

Lemma order_by_sorted (l : list A) : StronglySorted key_le (order_by le key l).
Proof.
  induction l as [| x l IH]; [constructor |].
  cbn [order_by foldr]. now apply insert_by_sorted.
Qed.

End OrderByFacts.

Lemma Qle_bool_total (a b : Q) : Qle_bool a b = false -> Qle_bool b a = true.
Proof.
  intros Hab. apply Qle_bool_iff. apply Qlt_le_weak. apply Qnot_le_lt.
  intros Hle. apply Qle_bool_iff in Hle. congruence.
Qed.

Lemma Qle_bool_trans (a b c : Q) :
  Qle_bool a b = true -> Qle_bool b c = true -> Qle_bool a c = true.
Proof.
  rewrite !Qle_bool_iff. apply Qle_trans.
Qed.

Lemma StronglySorted_take {A} (R : A -> A -> Prop) (n : nat) (l : list A) :
  StronglySorted R l -> StronglySorted R (take n l).
Proof.
  intros Hl. revert n. induction Hl as [| x l Hl IH Hx]; intros [| n]; cbn [take]; try constructor.
  - apply IH.
  - now apply Forall_take.
Qed.

Lemma StronglySorted_map {A B} (R : A -> A -> Prop) (S : B -> B -> Prop) (f : A -> B) (l : list A) :
  (forall x y, R x y -> S (f x) (f y)) -> StronglySorted R l -> StronglySorted S (map f l).
Proof.
  intros Hf. induction 1 as [| x l Hl IH Hx]; cbn [map]; constructor; [exact IH |].
  apply Forall_map. eapply List.Forall_impl; [| exact Hx]. intros y. apply Hf.
Qed.

(** * List comprehensions *)

Lemma comprehension_map {A B C} (f : B -> result C) (h : A -> B) (l : list A) :
  comprehension f (map h l) = comprehension (fun x => f (h x)) l.
Proof.
  induction l as [| x l IH]; [reflexivity |]. cbn [map comprehension]. now rewrite IH.
Qed.

(** A comprehension over an expression that raises on the elements that fail
    a test returns when no element fails it. *)
Lemma comprehension_guarded {A B} (f : A -> result B) (valid : A -> bool) (g : A -> B)
      (e : exn) (l : list A) (ys : list B) :
  (forall x, f x = if valid x then Ok (g x) else Raise e) ->
  comprehension f l = Ok ys <-> forallb valid l = true /\ ys = map g l.
Proof.
  intros Hf. revert ys. induction l as [| x l IH]; intros ys; cbn [comprehension forallb map].
  - split; [intros [= <-]; now split | now intros [_ ->]].
  - rewrite Hf. destruct (valid x); cbn [andb].
    + destruct (comprehension f l) as [zs | e'].
      * destruct (IH zs) as [IH1 _]. destruct (IH1 eq_refl) as [Hv ->].
        split; [intros [= <-]; now split | now intros [_ ->]].
      * split; [discriminate |]. intros [Hv ->].
        destruct (IH (map g l)) as [_ IH2]. now specialize (IH2 (conj Hv eq_refl)).
    + split; [discriminate | now intros [[=] _]].
Qed.

Lemma forallb_subseteq {A} (valid : A -> bool) (l l' : list A) :
  l ⊆ l' -> Forall (fun x => valid x = true) l' -> forallb valid l = true.
Proof.
  intros Hsub Hall. apply List.forallb_forall. intros x Hx.
  rewrite List.Forall_forall in Hall. apply Hall.
  apply list_elem_of_In, Hsub. now apply list_elem_of_In.
Qed.

Lemma parse_guarded (res : StoredRecord) :
  _parse_embedding_store_record res =
    if valid_row res then Ok (row_document res) else Raise ValidationError.
Proof.
  unfold _parse_embedding_store_record, mytypes.validate, valid_row.
  now destruct (mytypes.ensure_not_empty _).
Qed.

(** * Similarity search *)
Section Similar.
Context `{PythonRuntime} `{Collaborators}.

(** What LIMIT and ORDER BY select among the candidate rows. *)
Lemma nearest_spec (embedding : list Q) (k : Z) (cands : list StoredRecord) :
  exists rest,
    nearest embedding k cands ++ rest ≡ₚ cands /\
    length (nearest embedding k cands) = Nat.min (Z.to_nat k) (length cands) /\
    StronglySorted (nearer embedding) (nearest embedding k cands ++ rest).
Proof.
  unfold nearest. set (sorted := order_by Qle_bool (distance embedding) cands).
  exists (drop (Z.to_nat k) sorted). rewrite take_drop.
  assert (Hp : sorted ≡ₚ cands) by apply order_by_Permutation.
  split; [exact Hp | split].
  - rewrite length_take. now rewrite (Permutation_length Hp).
  - apply (order_by_sorted Qle_bool (distance embedding) Qle_bool_total Qle_bool_trans).
Qed.

Lemma nearest_subseteq (embedding : list Q) (k : Z) (cands : list StoredRecord) :
  nearest embedding k cands ⊆ cands.
Proof.
  destruct (nearest_spec embedding k cands) as (rest & Hp & _).
  intros r Hr. rewrite <- Hp. apply elem_of_app. now left.
Qed.

Lemma candidates_subseteq (where_json : option JSON) (rows : list StoredRecord) :
  candidates where_json rows ⊆ rows.
Proof.
  intros r Hr. destruct where_json; [| exact Hr].
  now apply list_elem_of_filter in Hr as [_ Hr].
Qed.

Lemma document_with_score_guarded (embedding : list Q) (r : StoredRecord) :
  document_with_score (rec_id r, rec_document r, rec_cmetadata r,
                       (1 - distance embedding r)%Q)
  = if valid_metadata r then Ok (scored embedding r) else Raise ValidationError.
Proof.
  unfold document_with_score, mytypes.validate, valid_metadata.
  now destruct (mytypes.ensure_not_empty _).
Qed.

(** When [similar_texts_with_scores] returns, and what: the collection's
    table exists, the filter is absent or a JSON text, [k] is not negative,
    the metadata of the nearest candidates pass the validator, and the pairs
    are those of the nearest candidates. *)
Lemma similar_texts_selects (self : PostgresDB) (query : list N) (k : Z)
      (where_ : option (list N)) (res : list (Document * Q)) :
  similar_texts_with_scores self query k where_ = Ok res <->
  exists rows,
    embeddings_table self = Some rows /\
    (forall w, where_ = Some w -> is_Some (json_loads w)) /\
    (0 <= k)%Z /\
    forallb valid_metadata
            (nearest (embedding_fn query) k (candidates (where_ ≫= json_loads) rows)) = true /\
    res = map (scored (embedding_fn query))
              (nearest (embedding_fn query) k (candidates (where_ ≫= json_loads) rows)).
Proof.
  assert (Hloop : forall cands,
    match select_nearest (embedding_fn query) k cands with
    | Raise e => Raise e
    | Ok results => comprehension document_with_score results
    end = Ok res <->
    (0 <= k)%Z /\
    forallb valid_metadata (nearest (embedding_fn query) k cands) = true /\
    res = map (scored (embedding_fn query)) (nearest (embedding_fn query) k cands)).
  { intros cands. unfold select_nearest. destruct (Z.ltb_spec k 0) as [Hk | Hk].
    - split; [discriminate | intros [Hk' _]; lia].
    - rewrite comprehension_map.
      rewrite (comprehension_guarded _ valid_metadata (scored (embedding_fn query))
                 ValidationError)
        by (intros r; apply document_with_score_guarded).
      fold (nearest (embedding_fn query) k cands). tauto. }
  unfold similar_texts_with_scores. destruct where_ as [w |]; cbn [mbind option_bind].
  - destruct (json_loads w) as [j |] eqn:Ej.
    + destruct (embeddings_table self) as [rows |] eqn:Et.
      * rewrite Hloop. cbn [candidates]. split.
        -- intros (Hk & Hv & Hr). exists rows. repeat split; try assumption.
           intros w' [= <-]. rewrite Ej. eauto.
        -- intros (rows' & [= <-] & _ & Hk & Hv & Hr). now repeat split.
      * split; [discriminate | now intros (rows & [=] & _)].
    + split; [discriminate |]. intros (rows & _ & Hw & _).
      destruct (Hw w eq_refl) as [j Hj]. congruence.
  - destruct (embeddings_table self) as [rows |] eqn:Et.
    + rewrite Hloop. cbn [candidates]. split.
      * intros (Hk & Hv & Hr). exists rows. repeat split; try assumption. discriminate.
      * intros (rows' & [= <-] & _ & Hk & Hv & Hr). now repeat split.
    + split; [discriminate | now intros (rows & [=] & _)].
Qed.

(** C7.  On a collection whose table exists and whose stored metadata pass
    the validator of [DocMetaData], for every query, every [k >= 0] and
    every filter that is absent or a JSON text, [similar_texts_with_scores]
    returns at most [k] pairs; they are built from rows [chosen] of the
    table, each with the score
    [1 - cosine_distance(stored embedding, query embedding)]; the rows come
    by ascending distance, so the pairs come by descending score. *)
Theorem similar_texts_ranked (self : PostgresDB) (query : list N) (k : Z)
        (where_ : option (list N)) (rows : list StoredRecord) :
  embeddings_table self = Some rows -> (0 <= k)%Z ->
  (forall w, where_ = Some w -> is_Some (json_loads w)) ->
  Forall (fun r => valid_metadata r = true) rows ->
  exists res chosen,
    similar_texts_with_scores self query k where_ = Ok res /\
    (Z.of_nat (length res) <= k)%Z /\
    chosen ⊆ rows /\
    res = map (fun r => ({| mytypes.content := rec_document r;
                            mytypes.metadata := rec_cmetadata r |},
                         (1 - cosine_distance (rec_embedding r) (embedding_fn query))%Q))
              chosen /\
    StronglySorted (fun a b => (cosine_distance (rec_embedding a) (embedding_fn query)
                                <= cosine_distance (rec_embedding b) (embedding_fn query))%Q)
                   chosen /\
    StronglySorted (fun a b => (b.2 <= a.2)%Q) res.
Proof.
  intros Ht Hk Hw Hvalid.
  set (cands := candidates (where_ ≫= json_loads) rows).
  set (chosen := nearest (embedding_fn query) k cands).
  assert (Hsub : chosen ⊆ rows).
  { intros r Hr. apply (candidates_subseteq (where_ ≫= json_loads)).
    now apply (nearest_subseteq (embedding_fn query) k). }
  destruct (nearest_spec (embedding_fn query) k cands) as (rest & _ & Hlen & Hs).
  apply StronglySorted_app in Hs as (_ & Hs & _). fold chosen in Hlen, Hs.
  exists (map (scored (embedding_fn query)) chosen), chosen.
  split; [| split; [| split; [| split; [| split]]]].
  - apply similar_texts_selects. exists rows. repeat split; try assumption.
    now apply (forallb_subseteq _ _ rows).
  - rewrite length_map, Hlen. lia.
  - exact Hsub.
  - reflexivity.
  - rewrite <- (map_id chosen) at 1.
    eapply StronglySorted_map; [| exact Hs]. intros x y Hxy. now apply Qle_bool_iff.
  - eapply StronglySorted_map; [| exact Hs]. intros x y Hxy.
    apply Qle_bool_iff in Hxy. unfold scored. cbn [snd]. lra.
Qed.

(** C6.  On a collection whose stored metadata pass the validator of
    [DocMetaData], for every query, every [k >= 0] and every filter that is
    a JSON text, every pair that [similar_texts_with_scores] returns has
    metadata that contains the filter.  The filter is applied before ranking
    and LIMIT: the rows behind the result are the first of the matching rows
    by distance, so as many pairs come back as there are matching rows, up
    to [k], and no matching row left out is nearer than one returned. *)
Theorem similar_texts_filtered (self : PostgresDB) (query : list N) (k : Z)
        (where_ : list N) (where_json : JSON) (rows : list StoredRecord) :
  json_loads where_ = Some where_json ->
  embeddings_table self = Some rows -> (0 <= k)%Z ->
  Forall (fun r => valid_metadata r = true) rows ->
  exists res chosen rest,
    similar_texts_with_scores self query k (Some where_) = Ok res /\
    Forall (fun ds => jsonb_contains (JObj (mytypes.dict (mytypes.metadata ds.1))) where_json
                      = true) res /\
    res = map (scored (embedding_fn query)) chosen /\
    chosen ++ rest ≡ₚ filter (cmetadata_contains where_json) rows /\
    length res = Nat.min (Z.to_nat k) (length (filter (cmetadata_contains where_json) rows)) /\
    (forall c r, c ∈ chosen -> r ∈ rest ->
       (distance (embedding_fn query) c <= distance (embedding_fn query) r)%Q).
Proof.
  intros Hj Ht Hk Hvalid.
  set (cands := filter (cmetadata_contains where_json) rows).
  set (chosen := nearest (embedding_fn query) k cands).
  destruct (nearest_spec (embedding_fn query) k cands) as (rest & Hp & Hlen & Hs).
  apply StronglySorted_app in Hs as (Hs & _ & _). fold chosen in Hp, Hlen, Hs.
  assert (Hcands : chosen ⊆ cands).
  { intros r Hr. rewrite <- Hp. apply elem_of_app. now left. }
  exists (map (scored (embedding_fn query)) chosen), chosen, rest.
  split; [| split; [| split; [| split; [| split]]]].
  - apply similar_texts_selects. exists rows. cbn [mbind option_bind]. rewrite Hj.
    cbn [candidates]. fold cands chosen. repeat split; try assumption.
    + intros w [= <-]. rewrite Hj. eauto.
    + apply (forallb_subseteq _ _ rows); [| exact Hvalid].
      intros r Hr. apply Hcands in Hr. now apply list_elem_of_filter in Hr as [_ Hr].
  - apply Forall_map. apply List.Forall_forall. intros r Hr.
    unfold scored. cbn [fst mytypes.metadata].
    apply list_elem_of_In, Hcands in Hr.
    apply list_elem_of_filter in Hr as [Hc _]. unfold cmetadata_contains in Hc.
    now apply Is_true_true in Hc.
  - reflexivity.
  - exact Hp.
  - now rewrite length_map.
  - intros c r Hc Hr. apply Qle_bool_iff. now apply Hs.
Qed.

(** C8.  A filter text that [json.loads] refuses makes
    [similar_texts_with_scores] raise [ValueError].  [get_all_documents]
    does not raise on it: a non-empty such text is logged and answered with
    the empty list, and the empty text is taken for no filter at all, so
    every row of the collection is read and returned. *)
Theorem malformed_filter (self : PostgresDB) (query : list N) (k : Z) (where_ : list N) :
  json_loads where_ = None ->
  similar_texts_with_scores self query k (Some where_) = Raise ValueError /\
  (where_ <> [] -> get_all_documents self where_ = Ok []) /\
  (where_ = [] ->
   get_all_documents self where_ =
     match embeddings_table self with
     | Some rows => comprehension _parse_embedding_store_record rows
     | None => Raise ProgrammingError
     end).
Proof.
  intros Hj. repeat split.
  - unfold similar_texts_with_scores. now rewrite Hj.
  - intros Hne. unfold get_all_documents. destruct where_; [congruence |]. now rewrite Hj.
  - intros ->. reflexivity.
Qed.

End Similar.

(** * The Identity Assigner *)
Section IdToUuid.
Context `{PythonRuntime}.

Lemma hashed_name_some (id : list N) (obj : DocMetaData) :
  codecs.encodable (repr obj) ->
  exists b, codecs.utf8_encode (repr obj) = Some b /\
            hashed_name id obj = Some (id ++ py "-" ++ hashlib.hexlify (hashlib.sha256 b)).
Proof.
  intros He. apply utf8_encode_encodable in He. unfold hashed_name.
  destruct (codecs.utf8_encode (repr obj)) as [b |]; [eauto | congruence].
Qed.

(** The two paths of [_id_to_uuid]. *)
Lemma id_to_uuid_parsed (id : list N) (obj : DocMetaData) (v : N) :
  uuid.UUID id = Ok v -> _id_to_uuid id obj = Ok (uuid.to_str v).
Proof. unfold _id_to_uuid. now intros ->. Qed.

Lemma UUID_raises_ValueError (id : list N) (e : exn) :
  uuid.UUID id = Raise e -> e = ValueError.
Proof.
  unfold uuid.UUID. destruct (negb _); [now intros [= <-] |].
  destruct (uuid.int16 _) as [i |]; [| now intros [= <-]].
  destruct (_ && _); [discriminate | now intros [= <-]].
Qed.

Lemma id_to_uuid_hashed (id : list N) (obj : DocMetaData) (e : exn) (name : list N) :
  uuid.UUID id = Raise e -> hashed_name id obj = Some name ->
  _id_to_uuid id obj =
    match uuid.uuid5 name with Ok v => Ok (uuid.to_str v) | Raise e' => Raise e' end.
Proof.
  intros Hu Hn. unfold _id_to_uuid. rewrite Hu.
  rewrite (UUID_raises_ValueError id e Hu). cbn [is_ValueError].
  unfold hashed_name in Hn.
  destruct (codecs.utf8_encode (repr obj)) as [b |]; [| discriminate].
  now injection Hn as <-.
Qed.

(** Whatever [_id_to_uuid] returns is a UUID in canonical form. *)
Lemma id_to_uuid_canonical (id : list N) (obj : DocMetaData) (u : list N) :
  _id_to_uuid id obj = Ok u -> exists v, v < 2 ^ 128 /\ u = uuid.to_str v.
Proof.
  unfold _id_to_uuid. destruct (uuid.UUID id) as [v | e] eqn:Hu.
  - intros [= <-]. exists v. split; [now apply UUID_range in Hu | reflexivity].
  - destruct (is_ValueError e); [| discriminate].
    destruct (codecs.utf8_encode (repr obj)) as [b |]; [| discriminate].
    destruct (uuid.uuid5 _) as [v | e'] eqn:H5; [| discriminate].
    intros [= <-]. exists v. split; [now apply uuid5_range in H5 | reflexivity].
Qed.

(** A canonical id is kept, whatever the object. *)
Lemma id_to_uuid_fixed (id : list N) (obj : DocMetaData) :
  uuid.canonical id = true -> _id_to_uuid id obj = Ok id.
Proof.
  intros Hc. destruct (UUID_canonical id Hc) as (v & Hv & _ & Hs).
  rewrite (id_to_uuid_parsed id obj v Hv). now rewrite Hs.
Qed.

(** Deriving again from a derived id changes nothing. *)
Lemma id_to_uuid_idempotent (id : list N) (obj obj' : DocMetaData) (u : list N) :
  _id_to_uuid id obj = Ok u -> _id_to_uuid u obj' = Ok u.
Proof.
  intros Hu. destruct (id_to_uuid_canonical id obj u Hu) as (v & Hv & ->).
  apply id_to_uuid_fixed, to_str_canonical.
Qed.

Lemma to_str_inj (v w : N) :
  v < 2 ^ 128 -> w < 2 ^ 128 -> uuid.to_str v = uuid.to_str w -> v = w.
Proof.
  intros Hv Hw Hs. pose proof (UUID_to_str v Hv) as H1. pose proof (UUID_to_str w Hw) as H2.
  rewrite Hs in H1. congruence.
Qed.

Lemma id_to_uuid_returns (id : list N) (obj : DocMetaData) :
  codecs.encodable id -> codecs.encodable (repr obj) -> exists u, _id_to_uuid id obj = Ok u.
Proof.
  intros Hid Hobj. destruct (uuid.UUID id) as [v | e] eqn:Hu.
  - exists (uuid.to_str v). now apply id_to_uuid_parsed.
  - destruct (hashed_name_some id obj Hobj) as (b & Hb & Hn).
    rewrite (id_to_uuid_hashed id obj e _ Hu Hn).
    destruct (uuid5_returns (id ++ py "-" ++ hashlib.hexlify (hashlib.sha256 b))) as [v Hv].
    + apply utf8_encode_app; [now apply utf8_encode_encodable |].
      apply utf8_encode_app; [discriminate |].
      rewrite utf8_encode_ascii; [discriminate |]. apply hexlify_ascii, sha256_bytes.
    + rewrite Hv. eauto.
Qed.

(** An id that is no UUID goes through two encodings: that of the repr of
    the object, before it is hashed, and that of the name that [uuid5] is
    given, which begins with the id.  Either raises [UnicodeEncodeError],
    outside the [try]. *)
Lemma id_to_uuid_raises (id : list N) (obj : DocMetaData) :
  is_ok (uuid.UUID id) = false ->
  ~ (codecs.encodable id /\ codecs.encodable (repr obj)) ->
  _id_to_uuid id obj = Raise UnicodeEncodeError.
Proof.
  intros Hu Hno. unfold _id_to_uuid.
  destruct (uuid.UUID id) as [v | e] eqn:E; [discriminate |].
  rewrite (UUID_raises_ValueError id e E). cbn [is_ValueError].
  destruct (codecs.utf8_encode (repr obj)) as [b |] eqn:Eb; [| reflexivity].
  assert (Hid : codecs.utf8_encode id = None).
  { apply utf8_encode_None. intros Hid. apply Hno.
    split; [exact Hid | now apply (utf8_encode_Some _ b)]. }
  now rewrite (uuid5_raises _ (utf8_encode_app_None id _ Hid)).
Qed.

(** C2.  For an id that [uuid.UUID] parses, [_id_to_uuid] returns the
    canonical text of the parsed value, [str(uuid.UUID(id))], whatever the
    object; it returns the id itself, character for character, exactly when
    the id is canonical already (36 characters, lower-case digits, hyphens at
    8, 13, 18 and 23). *)
Theorem id_to_uuid_normalises (id : list N) (obj : DocMetaData) :
  (forall v, uuid.UUID id = Ok v -> _id_to_uuid id obj = Ok (uuid.to_str v)) /\
  (uuid.canonical id = true <-> _id_to_uuid id obj = Ok id).
Proof.
  split; [intros v; apply id_to_uuid_parsed | split; [apply id_to_uuid_fixed |]].
  intros Hid. destruct (id_to_uuid_canonical id obj id Hid) as (v & _ & ->).
  apply to_str_canonical.
Qed.

(** C3.  [_id_to_uuid] is not total.  It returns, and then a canonical UUID
    text, for every id that parses as a UUID, and for every other id when
    UTF-8 can encode both the id and the repr of the object; in every other
    case it raises [UnicodeEncodeError]: an id that is no UUID and holds a
    lone surrogate makes [uuid5] raise, and a repr that holds one makes
    [obj_repr.encode()] raise.  Its result depends on the object through
    [repr] only: objects of one repr are given one id.  For an id that is no
    UUID, two objects are given the same id exactly when [uuid5] gives one
    value for their names [id-sha256(repr)]; nothing keeps the names of
    different objects from that. *)
Theorem id_to_uuid_derives (id : list N) (obj1 obj2 : DocMetaData) :
  ((is_ok (uuid.UUID id) = true \/
    (codecs.encodable id /\ codecs.encodable (repr obj1))) ->
     exists u, _id_to_uuid id obj1 = Ok u /\ uuid.canonical u = true) /\
  (is_ok (uuid.UUID id) = false ->
   ~ (codecs.encodable id /\ codecs.encodable (repr obj1)) ->
     _id_to_uuid id obj1 = Raise UnicodeEncodeError) /\
  (repr obj1 = repr obj2 -> _id_to_uuid id obj1 = _id_to_uuid id obj2) /\
  (forall name1 name2,
     is_ok (uuid.UUID id) = false ->
     hashed_name id obj1 = Some name1 -> hashed_name id obj2 = Some name2 ->
     (_id_to_uuid id obj1 = _id_to_uuid id obj2 <-> uuid.uuid5 name1 = uuid.uuid5 name2)).
Proof.
  split; [| split; [| split]].
  - intros [Hok | [Henc Hobj]].
    + destruct (uuid.UUID id) as [v |] eqn:Hu; [| discriminate].
      exists (uuid.to_str v). split; [now apply id_to_uuid_parsed | apply to_str_canonical].
    + destruct (id_to_uuid_returns id obj1 Henc Hobj) as [u Hu]. exists u. split; [exact Hu |].
      destruct (id_to_uuid_canonical id obj1 u Hu) as (v & _ & ->). apply to_str_canonical.
  - apply id_to_uuid_raises.
  - intros Hrepr. unfold _id_to_uuid. now rewrite Hrepr.
  - intros name1 name2 Hraise Hn1 Hn2.
    destruct (uuid.UUID id) as [| e] eqn:Hu; [discriminate |].
    rewrite (id_to_uuid_hashed id obj1 e name1 Hu Hn1).
    rewrite (id_to_uuid_hashed id obj2 e name2 Hu Hn2).
    split; [| now intros ->].
    destruct (uuid.uuid5 name1) as [v1 | e1] eqn:E1, (uuid.uuid5 name2) as [v2 | e2] eqn:E2;
      try discriminate; [| congruence].
    intros Hs. assert (Hs' : uuid.to_str v1 = uuid.to_str v2) by congruence.
    f_equal.
    apply to_str_inj; [now apply uuid5_range in E1 | now apply uuid5_range in E2 | exact Hs'].
Qed.

(** An id that [_id_to_uuid] has returned is a canonical UUID text, and
    [_id_to_uuid] returns it for itself, whatever the object: deriving twice
    is deriving once. *)
Theorem id_to_uuid_stable (id : list N) (obj obj' : DocMetaData) (u : list N) :
  _id_to_uuid id obj = Ok u -> uuid.canonical u = true /\ _id_to_uuid u obj' = Ok u.
Proof.
  intros Hu. split; [| now apply (id_to_uuid_idempotent id obj)].
  destruct (id_to_uuid_canonical id obj u Hu) as (v & _ & ->). apply to_str_canonical.
Qed.

End IdToUuid.

(** * Collections *)

Lemma elem_of_get_table_names (db : Database) (name : list N) :
  name ∈ get_table_names db <-> is_Some (tables db !! name).
Proof.
  unfold get_table_names. rewrite list_elem_of_fmap. split.
  - intros ([k rows] & -> & Hin). apply elem_of_map_to_list in Hin. simpl. eauto.
  - intros [rows Hrows]. exists (name, rows). split; [reflexivity |].
    now apply elem_of_map_to_list.
Qed.

Section CollectionFacts.
Context `{PostgreSQL}.

Lemma dropped_tables (self : PostgresDB) (j t name : list N) :
  tables (engine (dropped self j t)) !! name =
    if bool_decide (name = t) then None else tables (engine self) !! name.
Proof.
  cbn [dropped engine drop_table drop_index tables].
  destruct (bool_decide_reflect (name = t)) as [-> | Hne].
  - apply lookup_delete_eq.
  - now apply lookup_delete_ne.
Qed.

Lemma dropped_indexes (self : PostgresDB) (j t i : list N) (d : IndexDef) :
  indexes (engine (dropped self j t)) !! i = Some d <->
  indexes (engine self) !! i = Some d /\ i <> j /\ on_table d <> t.
Proof.
  cbn [dropped engine drop_table drop_index indexes].
  rewrite map_lookup_filter_Some. cbn [snd].
  rewrite lookup_delete_Some. intuition congruence.
Qed.

(** What can be dropped stays so while tables are dropped. *)
Lemma droppable_dropped (self : PostgresDB) (j t name : list N) :
  droppable self name = true -> droppable (dropped self j t) name = true.
Proof.
  unfold droppable. destruct (drop_index_query name) as [i |]; [| discriminate].
  rewrite dropped_tables. destruct (bool_decide (i = t)); [reflexivity |].
  now destruct (tables (engine self) !! i).
Qed.

Lemma delete_collection_droppable (self : PostgresDB) (name : list N) :
  droppable self name = true ->
  exists j, drop_index_query name = Ok j /\ tables (engine self) !! j = None /\
            delete_collection self name = (dropped self j name, Ok tt).
Proof.
  unfold droppable, delete_collection.
  destruct (drop_index_query name) as [j |]; [| discriminate].
  destruct (tables (engine self) !! j) eqn:Ej; [discriminate |]. eauto.
Qed.



(** An exception ends the loop of [clear_all_collections]. *)
Lemma clear_loop_raised (prefix : list N) (names : list (list N)) (self : PostgresDB)
      (e : exn) :
  foldl (clear_step prefix) (self, Raise e) names = (self, Raise e).
Proof. induction names as [| t names IH]; [reflexivity | exact IH]. Qed.

(** The loop on names whose DROP INDEX text can be carried out. *)
Lemma clear_loop (prefix : list N) (names : list (list N)) (self : PostgresDB) (n : Z) :
  (forall t, t ∈ names -> startswith t prefix = true -> droppable self t = true) ->
  exists self',
    foldl (clear_step prefix) (self, Ok n) names
    = (self', Ok (n + Z.of_nat (length (filter (fun name => startswith name prefix) names)))%Z)
    /\ config self' = config self /\
    (forall name,
        tables (engine self') !! name =
          if startswith name prefix && bool_decide (name ∈ names) then None
          else tables (engine self) !! name).
Proof.
  revert self n. induction names as [| t names IH]; intros self n Hok.
  - exists self. cbn. split; [do 2 f_equal; lia | split; [reflexivity |]].
    intros name. now rewrite andb_false_r.
  - cbn [foldl clear_step].
    assert (Htail : forall name, name <> t ->
               bool_decide (name ∈ t :: names) = bool_decide (name ∈ names)).
    { intros name Hne. apply bool_decide_ext. rewrite elem_of_cons. tauto. }
    assert (Hok' : forall t', t' ∈ names -> startswith t' prefix = true ->
                               droppable self t' = true)
      by (intros t' Ht'; apply Hok; now right).
    destruct (startswith t prefix) eqn:Et.
    + destruct (delete_collection_droppable self t) as (j & _ & _ & ->);
        [apply Hok; [now left | exact Et] |].
      destruct (IH (dropped self j t) (n + 1)%Z) as (self' & Hf & Hc & Ht).
      { intros t' Ht' Hpre. now apply droppable_dropped, Hok'. }
      exists self'. split; [| split; [exact Hc |]].
      * rewrite Hf. rewrite filter_cons, decide_True by (now apply Is_true_true).
        cbn [length]. do 2 f_equal. lia.
      * intros name. rewrite Ht, dropped_tables.
        destruct (decide (name = t)) as [-> | Hne].
        -- rewrite Et. cbn [andb]. rewrite (bool_decide_eq_true_2 (t = t)) by reflexivity.
           rewrite (bool_decide_eq_true_2 (t ∈ t :: names)) by (now left).
           now destruct (bool_decide _).
        -- rewrite (bool_decide_eq_false_2 (name = t)) by exact Hne. now rewrite Htail.
    + destruct (IH self n Hok') as (self' & Hf & Hc & Ht).
      exists self'. split; [| split; [exact Hc |]].
      * rewrite Hf. rewrite filter_cons, decide_False; [reflexivity |].
        rewrite Et. exact id.
      * intros name. rewrite Ht.
        destruct (decide (name = t)) as [-> | Hne].
        -- rewrite Et. cbn [andb]. reflexivity.
        -- now rewrite Htail.
Qed.

(** The loop on a list that holds a name whose DROP INDEX text the server
    refuses: it ends with an exception, and the table of that name is still
    there. *)
Lemma clear_loop_refused (prefix : list N) (names : list (list N)) (self : PostgresDB)
      (n : Z) (name : list N) :
  name ∈ names -> startswith name prefix = true ->
  is_ok (drop_index_query name) = false ->
  exists self' e,
    foldl (clear_step prefix) (self, Ok n) names = (self', Raise e) /\
    tables (engine self') !! name = tables (engine self) !! name.
Proof.
  intros Hin Hpre Hno. revert self n.
  induction names as [| t names IH]; intros self n; [inversion Hin |].
  cbn [foldl clear_step]. destruct (startswith t prefix) eqn:Et.
  - unfold delete_collection. destruct (drop_index_query t) as [j | e] eqn:Ej.
    + destruct (tables (engine self) !! j);
        [exists self, ProgrammingError; split; [apply clear_loop_raised | reflexivity] |].
      assert (Hne : name <> t) by (intros ->; rewrite Ej in Hno; discriminate).
      apply elem_of_cons in Hin as [-> | Hin]; [contradiction |].
      destruct (IH Hin (dropped self j t) (n + 1)%Z) as (self' & e & Hf & Ht).
      exists self', e. split; [exact Hf |]. rewrite Ht, dropped_tables.
      now rewrite bool_decide_eq_false_2.
    + exists self, e. split; [apply clear_loop_raised | reflexivity].
  - assert (Hne : name <> t) by (intros ->; congruence).
    apply elem_of_cons in Hin as [-> | Hin]; [contradiction |].
    now apply IH.
Qed.

Lemma length_filter_fst {A} (P : list N -> bool) (l : list (list N * A)) :
  length (filter (fun name => P name) l.*1) = length (filter (fun kv => P kv.1) l).
Proof.
  induction l as [| [k x] l IH]; [reflexivity |].
  cbn [fmap list_fmap]. rewrite !filter_cons. cbn [fst].
  destruct (decide (P k)); cbn [length]; now rewrite IH.
Qed.

Lemma size_filter_names {A} (P : list N -> bool) (m : gmap (list N) A) :
  size (filter (fun kv => P kv.1) m) =
  length (filter (fun name => P name) (map_to_list m).*1).
Proof.
  rewrite length_filter_fst, map_filter_alt, map_size_list_to_map.
  - reflexivity.
  - eapply sublist_NoDup; [apply (NoDup_fst_map_to_list m) |].
    apply fmap_sublist, sublist_filter.
Qed.

Lemma size_filter_complement {A} (P : list N -> bool) (m : gmap (list N) A) :
  size m = (size (filter (fun kv => P kv.1) m) + size (filter (fun kv => ¬ P kv.1) m))%nat.
Proof.
  rewrite <- map_size_disj_union by apply map_disjoint_filter_complement.
  now rewrite map_filter_union_complement.
Qed.

(** C5.  [clear_all_collections] with [really=False] leaves the store as it
    is and returns 0.  With [really=True], when the DROP INDEX text of every
    table whose name starts with [prefix] can be carried out (the server
    takes it, and what it names is no table), the tables left are those
    whose name does not start with [prefix], each with its rows; the number
    returned is the number of tables whose name starts with [prefix], which
    is the number of tables that are gone; the configuration is kept.  When
    the server refuses the DROP INDEX text of a table whose name starts
    with [prefix], the call raises, and that table is still there. *)
Theorem clear_all_collections_gated (self : PostgresDB) (prefix : list N) :
  clear_all_collections self false prefix = (self, Ok 0%Z) /\
  ((forall name, is_Some (tables (engine self) !! name) -> startswith name prefix = true ->
                 droppable self name = true) ->
   exists self' n,
     clear_all_collections self true prefix = (self', Ok n) /\
     (forall name,
         tables (engine self') !! name =
           if startswith name prefix then None else tables (engine self) !! name) /\
     n = Z.of_nat (length (filter (fun name => startswith name prefix)
                                  (get_table_names (engine self)))) /\
     n = Z.of_nat (size (tables (engine self)) - size (tables (engine self'))) /\
     config self' = config self) /\
  (forall name, is_Some (tables (engine self) !! name) -> startswith name prefix = true ->
                is_ok (drop_index_query name) = false ->
   exists self' e,
     clear_all_collections self true prefix = (self', Raise e) /\
     is_Some (tables (engine self') !! name)).
Proof.
  split; [reflexivity | split].
  - intros Hok. unfold clear_all_collections. cbn [negb].
    destruct (clear_loop prefix (get_table_names (engine self)) self 0) as (self' & Hf & Hc & Ht).
    { intros t Ht. apply Hok. now apply elem_of_get_table_names. }
    exists self', (Z.of_nat (length (filter (fun name => startswith name prefix)
                                           (get_table_names (engine self))))).
    assert (Hlook : forall name,
               tables (engine self') !! name =
                 if startswith name prefix then None else tables (engine self) !! name).
    { intros name. rewrite Ht. destruct (startswith name prefix); [| reflexivity].
      cbn [andb].
      destruct (bool_decide_reflect (name ∈ get_table_names (engine self))) as [| Hni];
        [reflexivity |].
      rewrite elem_of_get_table_names in Hni. apply eq_None_not_Some in Hni. now rewrite Hni. }
    split; [exact Hf | split; [exact Hlook | split; [reflexivity | split; [| exact Hc]]]].
    f_equal.
    assert (Hfilter : tables (engine self') =
                      filter (fun kv => ¬ startswith kv.1 prefix) (tables (engine self))).
    { apply map_eq. intros name. rewrite Hlook. symmetry.
      destruct (startswith name prefix) eqn:E.
      - apply map_lookup_filter_None. right. intros rows _ Hn'. cbn [fst] in Hn'.
        apply Hn'. rewrite E. exact I.
      - destruct (tables (engine self) !! name) as [rows |] eqn:El.
        + apply map_lookup_filter_Some. split; [exact El |]. cbn [fst]. rewrite E. exact id.
        + apply map_lookup_filter_None. now left. }
    rewrite Hfilter.
    rewrite (size_filter_complement (fun name => startswith name prefix) (tables (engine self))).
    rewrite (size_filter_names (fun name => startswith name prefix)). unfold get_table_names. lia.
  - intros name Hex Hpre Hno. unfold clear_all_collections. cbn [negb].
    destruct (clear_loop_refused prefix (get_table_names (engine self)) self 0 name)
      as (self' & e & Hf & Ht); [now apply elem_of_get_table_names | exact Hpre | exact Hno |].
    exists self', e. split; [exact Hf | now rewrite Ht].
Qed.

End CollectionFacts.

(** * Lookups by id *)

Lemma whens_from (n : nat) (d : gmap (list N) nat) (l : list (list N)) (x : list N) :
  foldl when_step d (imap (fun index id_ => ((n + index)%nat, id_)) l) !! x =
    match last_index l x with
    | Some i => Some (n + i)%nat
    | None => d !! x
    end.
Proof.
  revert n d. induction l as [| a l IH]; intros n d; [reflexivity |].
  rewrite imap_cons. cbn [foldl when_step last_index].
  rewrite (imap_ext _ (fun index id_ => ((S n + index)%nat, id_))).
  2:{ intros i y _. cbn. f_equal. lia. }
  rewrite IH, Nat.add_0_r.
  destruct (last_index l x) as [i |]; [f_equal; lia |].
  destruct (decide (a = x)) as [-> | Hne].
  - rewrite lookup_insert_eq. f_equal. lia.
  - now rewrite lookup_insert_ne.
Qed.

(** The dictionary of the CASE maps an id to its last position. *)
Lemma case_whens_lookup (ids : list (list N)) (x : list N) :
  case_whens ids !! x = last_index ids x.
Proof.
  unfold case_whens.
  rewrite (imap_ext _ (fun index id_ => ((0 + index)%nat, id_))) by reflexivity.
  rewrite whens_from, lookup_empty. now destruct (last_index ids x).
Qed.

Lemma last_index_Some (ids : list (list N)) (x : list N) :
  x ∈ ids <-> is_Some (last_index ids x).
Proof.
  induction ids as [| a l IH]; cbn [last_index].
  - split; [intros Hx; inversion Hx | intros [? [=]]].
  - rewrite elem_of_cons, IH. destruct (last_index l x) as [i |].
    + split; eauto.
    + destruct (decide (a = x)) as [-> | Hne].
      * split; eauto.
      * split; [intros [-> | [? [=]]]; congruence | intros [? [=]]].
Qed.

Lemma last_index_at (ids : list (list N)) (x : list N) (i : nat) :
  last_index ids x = Some i -> ids !! i = Some x.
Proof.
  revert i. induction ids as [| a l IH]; intros i; cbn [last_index]; [discriminate |].
  destruct (last_index l x) as [j |].
  - intros [= <-]. now apply IH.
  - destruct (decide (a = x)) as [-> |]; [| discriminate]. now intros [= <-].
Qed.

Lemma case_whens_nonempty (ids : list (list N)) : ids <> [] -> case_whens ids <> ∅.
Proof.
  intros Hne Hempty. destruct ids as [| a l]; [congruence |].
  assert (Ha : is_Some (last_index (a :: l) a)) by (apply last_index_Some; now left).
  rewrite <- case_whens_lookup, Hempty, lookup_empty in Ha. now destruct Ha.
Qed.

Lemma StronglySorted_weaken {A} (R S : A -> A -> Prop) (l : list A) :
  (forall x y, x ∈ l -> y ∈ l -> R x y -> S x y) ->
  StronglySorted R l -> StronglySorted S l.
Proof.
  intros HRS Hl. induction Hl as [| x l Hl IH Hx]; constructor.
  - apply IH. intros a b Ha Hb. apply HRS; now right.
  - apply List.Forall_forall. rewrite List.Forall_forall in Hx. intros y Hy.
    apply HRS; [now left | right; now apply list_elem_of_In | now apply Hx].
Qed.

(** [remove_dups] keeps each id where it occurs last, so the positions of
    the last occurrences increase along it. *)
Lemma remove_dups_sorted (ids : list (list N)) :
  StronglySorted (fun x y => ordinal_le (last_index ids x) (last_index ids y) = true)
                 (remove_dups ids).
Proof.
  induction ids as [| a l IH]; [constructor |].
  assert (Hshift :
    StronglySorted (fun x y => ordinal_le (last_index (a :: l) x) (last_index (a :: l) y) = true)
                   (remove_dups l)).
  { eapply StronglySorted_weaken; [| exact IH].
    intros x y Hx Hy. rewrite elem_of_remove_dups in Hx, Hy.
    apply last_index_Some in Hx as [i Hi]. apply last_index_Some in Hy as [j Hj].
    cbn [last_index]. now rewrite Hi, Hj. }
  cbn [remove_dups]. destruct (decide_rel elem_of a l) as [Hin | Hni]; [exact Hshift |].
  constructor; [exact Hshift |].
  apply List.Forall_forall. intros y Hy. apply list_elem_of_In in Hy.
  rewrite elem_of_remove_dups in Hy. apply last_index_Some in Hy as [j Hj].
  cbn [last_index]. rewrite Hj.
  destruct (last_index l a) as [i |] eqn:Ei.
  - exfalso. apply Hni. apply last_index_Some. eauto.
  - rewrite decide_True by reflexivity. reflexivity.
Qed.

Lemma row_with_id_Some (rows : list StoredRecord) (i : list N) (r : StoredRecord) :
  NoDup (map rec_id rows) ->
  row_with_id rows i = Some r <-> r ∈ rows /\ rec_id r = i.
Proof.
  unfold row_with_id. induction rows as [| a rows IH]; intros Hnd; cbn [List.find].
  - split; [discriminate | intros [Hin _]; inversion Hin].
  - cbn [map] in Hnd. apply NoDup_cons in Hnd as [Ha Hnd]. specialize (IH Hnd).
    destruct (bool_decide_reflect (rec_id a = i)) as [Hai | Hai].
    + split.
      * intros [= <-]. split; [now left | exact Hai].
      * intros [Hin Hri]. apply elem_of_cons in Hin as [-> | Hin]; [reflexivity |].
        exfalso. apply Ha. rewrite Hai, <- Hri. apply list_elem_of_In, in_map.
        now apply list_elem_of_In.
    + rewrite IH. rewrite elem_of_cons. split; [tauto |].
      intros [[-> | Hin] Hri]; [congruence | tauto].
Qed.

Lemma row_with_id_None (rows : list StoredRecord) (i : list N) :
  row_with_id rows i = None <-> i ∉ map rec_id rows.
Proof.
  unfold row_with_id. induction rows as [| a rows IH]; cbn [List.find map].
  - split; [intros _ Hin; inversion Hin | reflexivity].
  - rewrite not_elem_of_cons. destruct (bool_decide_reflect (rec_id a = i)) as [Hai | Hai].
    + split; [discriminate | intros [Hne _]; congruence].
    + rewrite IH. split; [intros Hn; split; [congruence | exact Hn] | tauto].
Qed.

Lemma StronglySorted_omap {A B} (R : A -> A -> Prop) (S : B -> B -> Prop)
      (f : A -> option B) (l : list A) :
  (forall x y a b, f x = Some a -> f y = Some b -> R x y -> S a b) ->
  StronglySorted R l -> StronglySorted S (omap f l).
Proof.
  intros Hf. induction 1 as [| x l Hl IH Hx]; cbn [omap list_omap]; [constructor |].
  destruct (f x) as [a |] eqn:Ea; [| exact IH].
  constructor; [exact IH |].
  apply List.Forall_forall. intros b Hb. apply list_elem_of_In in Hb.
  apply list_elem_of_omap in Hb as (y & Hy & Eb).
  rewrite List.Forall_forall in Hx. apply (Hf x y a b Ea Eb). apply Hx.
  now apply list_elem_of_In.
Qed.

Lemma NoDup_omap {A B} (f : A -> option B) (l : list A) :
  (forall x y b, f x = Some b -> f y = Some b -> x = y) ->
  NoDup l -> NoDup (omap f l).
Proof.
  intros Hinj. induction 1 as [| x l Hx Hl IH]; cbn [omap list_omap]; [constructor |].
  destruct (f x) as [b |] eqn:Eb; [| exact IH].
  constructor; [| exact IH].
  intros Hin. apply list_elem_of_omap in Hin as (y & Hy & Ey).
  now rewrite (Hinj x y b Eb Ey) in Hx.
Qed.

Lemma NoDup_of_keys (rows : list StoredRecord) : NoDup (map rec_id rows) -> NoDup rows.
Proof. apply (NoDup_fmap_1 rec_id). Qed.

Lemma ordinal_le_total (a b : option nat) : ordinal_le a b = false -> ordinal_le b a = true.
Proof.
  destruct a, b; cbn; try congruence. intros Hab. apply Nat.leb_gt in Hab. apply Nat.leb_le. lia.
Qed.

Lemma ordinal_le_trans (a b c : option nat) :
  ordinal_le a b = true -> ordinal_le b c = true -> ordinal_le a c = true.
Proof.
  destruct a, b, c; cbn; try congruence. rewrite !Nat.leb_le. lia.
Qed.

Section ByIds.
Context `{PythonRuntime} `{Collaborators}.

(** What the query of [get_documents_by_ids] selects, in its order. *)
Lemma select_by_ids (rows : list StoredRecord) (ids : list (list N)) :
  NoDup (map rec_id rows) ->
  order_by ordinal_le (fun r => case_whens ids !! rec_id r)
           (filter (fun r => rec_id r ∈ ids) rows)
  = omap (row_with_id rows) (remove_dups ids).
Proof.
  intros Hnd.
  set (key := fun r : StoredRecord => case_whens ids !! rec_id r).
  set (S := order_by ordinal_le key (filter (fun r => rec_id r ∈ ids) rows)).
  set (T := omap (row_with_id rows) (remove_dups ids)).
  assert (HT : forall r, r ∈ T <-> r ∈ rows /\ rec_id r ∈ ids).
  { intros r. unfold T. rewrite list_elem_of_omap. split.
    - intros (i & Hi & Hr). apply row_with_id_Some in Hr as [Hin <-]; [| exact Hnd].
      split; [exact Hin | now rewrite elem_of_remove_dups in Hi].
    - intros [Hin Hid]. exists (rec_id r). split; [now rewrite elem_of_remove_dups |].
      now apply row_with_id_Some. }
  assert (HS : S ≡ₚ filter (fun r => rec_id r ∈ ids) rows) by apply order_by_Permutation.
  apply (StronglySorted_unique_strong (key_le ordinal_le key)).
  - intros x1 x2 Hx1 Hx2 H12 H21. unfold key_le, key in H12, H21.
    rewrite HS in Hx1. apply list_elem_of_filter in Hx1 as [Hid1 Hin1].
    apply HT in Hx2 as [Hin2 Hid2].
    rewrite !case_whens_lookup in H12, H21.
    apply last_index_Some in Hid1 as [i Hi]. apply last_index_Some in Hid2 as [j Hj].
    rewrite Hi, Hj in H12, H21. cbn in H12, H21.
    apply Nat.leb_le in H12, H21. assert (i = j) as -> by lia.
    apply last_index_at in Hi, Hj. assert (Hid : rec_id x1 = rec_id x2) by congruence.
    apply (NoDup_fmap_1 rec_id) in Hnd as Hrows.
    assert (Hfind : row_with_id rows (rec_id x1) = Some x1) by (now apply row_with_id_Some).
    assert (Hfind' : row_with_id rows (rec_id x1) = Some x2) by (now apply row_with_id_Some).
    congruence.
  - apply (order_by_sorted ordinal_le key ordinal_le_total ordinal_le_trans).
  - eapply StronglySorted_omap; [| apply (remove_dups_sorted ids)].
    intros i j a b Ha Hb Hij. unfold key_le, key.
    apply row_with_id_Some in Ha as [_ <-]; [| exact Hnd].
    apply row_with_id_Some in Hb as [_ <-]; [| exact Hnd].
    now rewrite !case_whens_lookup.
  - apply NoDup_Permutation.
    + rewrite HS. apply NoDup_filter. now apply NoDup_of_keys.
    + apply NoDup_omap; [| apply NoDup_remove_dups].
      intros i j r Hi Hj. apply row_with_id_Some in Hi as [_ <-]; [| exact Hnd].
      now apply row_with_id_Some in Hj as [_ <-].
    + intros r. rewrite HS, HT, list_elem_of_filter. tauto.
Qed.

Lemma ids_of_selected (rows : list StoredRecord) (l : list (list N)) :
  NoDup (map rec_id rows) ->
  map rec_id (omap (row_with_id rows) l) = filter (fun i => i ∈ map rec_id rows) l.
Proof.
  intros Hnd. induction l as [| i l IH]; [reflexivity |].
  cbn [omap list_omap]. rewrite filter_cons.
  destruct (row_with_id rows i) as [r |] eqn:Er.
  - apply row_with_id_Some in Er as [Hin <-]; [| exact Hnd].
    rewrite decide_True by (apply list_elem_of_In, in_map; now apply list_elem_of_In).
    cbn [map]. now rewrite IH.
  - apply row_with_id_None in Er. now rewrite decide_False.
Qed.

(** On a collection whose rows pass the validator of [DocMetaData], for a
    list [ids] that is not empty, [get_documents_by_ids] returns the stored
    documents whose id is in [ids], one for each such id, in the order in
    which the ids occur in [ids], an id that occurs more than once counting
    where it occurs last; ids that are not stored are left out. *)
Theorem get_documents_by_ids_ordered (self : PostgresDB) (ids : list (list N))
        (rows : list StoredRecord) :
  embeddings_table self = Some rows -> NoDup (map rec_id rows) ->
  Forall (fun r => valid_row r = true) rows -> ids <> [] ->
  exists docs,
    get_documents_by_ids self ids = Ok docs /\
    docs = map row_document (omap (row_with_id rows) (remove_dups ids)) /\
    map (fun d => mytypes.id (mytypes.metadata d)) docs
      = filter (fun i => i ∈ map rec_id rows) (remove_dups ids).
Proof.
  intros Ht Hnd Hvalid Hne. eexists. split; [| split; [reflexivity |]].
  - unfold get_documents_by_ids. rewrite Ht.
    rewrite bool_decide_eq_false_2 by (now apply case_whens_nonempty).
    rewrite select_by_ids by exact Hnd.
    apply (comprehension_guarded _ valid_row row_document ValidationError);
      [apply parse_guarded |].
    split; [| reflexivity]. apply (forallb_subseteq _ _ rows); [| exact Hvalid].
    intros r Hr. apply list_elem_of_omap in Hr as (i & _ & Hr).
    now apply row_with_id_Some in Hr as [Hr _].
  - rewrite <- ids_of_selected by assumption. rewrite map_map. reflexivity.
Qed.

(** C4.  With the empty list of ids [get_documents_by_ids] does not
    return: the dictionary given to [case] has no entry, the CASE is rendered
    without a WHEN, and the statement is refused. *)
Theorem get_documents_by_ids_empty (self : PostgresDB) :
  get_documents_by_ids self [] = Raise ProgrammingError.
Proof.
  unfold get_documents_by_ids. now destruct (embeddings_table self).
Qed.

(** With a filter that is a JSON text, [get_all_documents] returns the
    documents of the rows whose metadata contain the filter, in the order of
    the table. *)
Theorem get_all_documents_filtered (self : PostgresDB) (where_ : list N) (where_json : JSON)
        (rows : list StoredRecord) :
  where_ <> [] -> json_loads where_ = Some where_json ->
  embeddings_table self = Some rows ->
  Forall (fun r => valid_row r = true) rows ->
  get_all_documents self where_
  = Ok (map row_document (filter (cmetadata_contains where_json) rows)).
Proof.
  intros Hne Hj Ht Hvalid. unfold get_all_documents.
  destruct where_ as [| c w]; [congruence |]. rewrite Hj, Ht.
  apply (comprehension_guarded _ valid_row row_document ValidationError);
    [apply parse_guarded |].
  split; [| reflexivity]. apply (forallb_subseteq _ _ rows); [| exact Hvalid].
  intros r Hr. now apply list_elem_of_filter in Hr as [_ Hr].
Qed.

End ByIds.

(** * Writing documents *)

Lemma id_set_id (m : DocMetaData) (u : list N) : mytypes.id (mytypes.set_id m u) = u.
Proof. reflexivity. Qed.

Lemma set_id_id (m : DocMetaData) : mytypes.set_id m (mytypes.id m) = m.
Proof. now destruct m. Qed.

Lemma ensure_not_empty_id (m : DocMetaData) :
  mytypes.ensure_not_empty m = true -> mytypes.id m <> [].
Proof.
  unfold mytypes.ensure_not_empty. cbn [forallb].
  rewrite !andb_true_iff, !negb_true_iff, !bool_decide_eq_false. tauto.
Qed.

Lemma ensure_not_empty_set_id (m : DocMetaData) (u : list N) :
  mytypes.ensure_not_empty m = true -> u <> [] ->
  mytypes.ensure_not_empty (mytypes.set_id m u) = true.
Proof.
  unfold mytypes.ensure_not_empty. cbn [forallb mytypes.set_id mytypes.source
    mytypes.source_content mytypes.id mytypes.title mytypes.published_date].
  rewrite !andb_true_iff, !negb_true_iff, !bool_decide_eq_false. tauto.
Qed.

Lemma to_str_not_empty (v : N) : uuid.to_str v <> [].
Proof.
  intros Hv. apply (f_equal (@length N)) in Hv.
  unfold uuid.to_str, uuid.hyphenate in Hv. rewrite !length_app in Hv. cbn in Hv. lia.
Qed.

Lemma set_id_set_id (m : DocMetaData) (u v : list N) :
  mytypes.set_id (mytypes.set_id m u) v = mytypes.set_id m v.
Proof. reflexivity. Qed.

(** The INSERT either keeps everything or raises [IntegrityError]. *)
Lemma sql_insert_Ok (rows new_records rows' : list StoredRecord) :
  sql_insert rows new_records = Ok rows' ->
  rows' = rows ++ new_records /\
  (NoDup (map rec_id rows) -> NoDup (map rec_id rows')) /\
  (forall r, r ∈ new_records -> rec_id r ∉ map rec_id rows).
Proof.
  revert rows. induction new_records as [| r rest IH]; intros rows; cbn [sql_insert].
  - intros [= <-]. rewrite app_nil_r. split; [reflexivity | split; [tauto |]].
    intros r Hr. inversion Hr.
  - destruct (bool_decide_reflect (rec_id r ∈ map rec_id rows)) as [| Hfresh]; [discriminate |].
    intros Hins. destruct (IH _ Hins) as (-> & Hnd & Hnew).
    split; [now rewrite <- app_assoc | split].
    + intros Hrows. apply Hnd. rewrite map_app. cbn [map].
      apply NoDup_app. split; [exact Hrows | split].
      * intros x Hx Hx'. apply list_elem_of_singleton in Hx'. now subst x.
      * apply NoDup_singleton.
    + intros x Hx. apply elem_of_cons in Hx as [-> | Hx]; [exact Hfresh |].
      intros Hin. apply (Hnew x Hx). rewrite map_app. apply elem_of_app. now left.
Qed.

Lemma sql_insert_Raise (rows new_records : list StoredRecord) (e : exn) :
  sql_insert rows new_records = Raise e -> e = IntegrityError.
Proof.
  revert rows. induction new_records as [| r rest IH]; intros rows; cbn [sql_insert];
    [discriminate |].
  destruct (bool_decide _); [now intros [= <-] | apply IH].
Qed.

Lemma sql_insert_conflict (rows new_records : list StoredRecord) (r : StoredRecord) :
  r ∈ new_records -> rec_id r ∈ map rec_id rows ->
  sql_insert rows new_records = Raise IntegrityError.
Proof.
  intros Hr Hin. destruct (sql_insert rows new_records) as [rows' | e] eqn:E.
  - apply sql_insert_Ok in E as (_ & _ & Hfresh). now destruct (Hfresh r Hr).
  - now rewrite (sql_insert_Raise _ _ _ E).
Qed.

Lemma filter_id_absent (rows : list StoredRecord) (u : list N) :
  u ∉ map rec_id rows -> filter (fun r => rec_id r = u) rows = [].
Proof.
  induction rows as [| a rows IH]; [reflexivity |]. cbn [map]. intros Hu.
  apply not_elem_of_cons in Hu as [Hne Hu].
  rewrite filter_cons, decide_False by congruence. now apply IH.
Qed.

(** Under the primary key, one row answers to an id that is stored. *)
Lemma unique_row (rows : list StoredRecord) (u : list N) :
  NoDup (map rec_id rows) -> u ∈ map rec_id rows ->
  exists r, filter (fun r => rec_id r = u) rows = [r].
Proof.
  induction rows as [| a rows IH]; cbn [map]; intros Hnd Hin; [inversion Hin |].
  apply NoDup_cons in Hnd as [Ha Hnd]. rewrite filter_cons.
  destruct (decide (rec_id a = u)) as [Hau | Hau].
  - exists a. f_equal. apply filter_id_absent. now rewrite <- Hau.
  - apply elem_of_cons in Hin as [| Hin]; [congruence | now apply IH].
Qed.

Section AddDocuments.
Context `{PythonRuntime} `{Collaborators}.

(** [maybe_add_ids] leaves an object with an id alone. *)
Lemma maybe_add_ids_keeps (p : Process) (documents : list DocumentRef) (l : nat) :
  mytypes.id (heap p l) <> [] -> heap (maybe_add_ids p documents) l = heap p l.
Proof.
  revert p. induction documents as [| d rest IH]; intros p Hid; [reflexivity |].
  cbn [maybe_add_ids]. destruct (mytypes.id (heap p (doc_metadata d))) eqn:Ed.
  - assert (Hne : doc_metadata d <> l) by (intros Heq; rewrite Heq in Ed; congruence).
    rewrite IH.
    + cbn [heap]. now rewrite fn_lookup_insert_ne.
    + cbn [heap]. now rewrite fn_lookup_insert_ne.
  - now apply IH.
Qed.

(** What the first loop of [add_documents] leaves in the heap: every
    object of the batch has the id derived from what it held, and the
    other objects are untouched. *)
Lemma assign_ids_spec (h h' : nat -> DocMetaData) (documents : list DocumentRef) :
  assign_ids h documents = (h', Ok tt) ->
  forall l,
    (l ∈ map doc_metadata documents ->
       exists u, _id_to_uuid (mytypes.id (h l)) (h l) = Ok u /\ h' l = mytypes.set_id (h l) u) /\
    (l ∉ map doc_metadata documents -> h' l = h l).
Proof.
  revert h. induction documents as [| d rest IH]; intros h; cbn [assign_ids].
  - intros [= <-] l. split; [intros Hl; inversion Hl | reflexivity].
  - destruct (_id_to_uuid _ _) as [u0 | e] eqn:E0; [| discriminate].
    intros Hrest l. specialize (IH _ Hrest l) as [IHin IHout].
    cbn [map]. destruct (decide (l = doc_metadata d)) as [-> | Hne].
    + split; [intros _ | intros Hl; exfalso; apply Hl; now left].
      exists u0. split; [exact E0 |].
      destruct (decide (doc_metadata d ∈ map doc_metadata rest)) as [Hin | Hni].
      * destruct (IHin Hin) as (u & Hu & Hh'). rewrite fn_lookup_insert in Hu, Hh'.
        rewrite id_set_id in Hu.
        rewrite (id_to_uuid_idempotent _ _ _ _ E0) in Hu. injection Hu as <-.
        now rewrite Hh', set_id_set_id.
      * rewrite (IHout Hni). now rewrite fn_lookup_insert.
    + rewrite fn_lookup_insert_ne in IHin, IHout by congruence. split.
      * intros Hl. apply elem_of_cons in Hl as [| Hl]; [congruence | now apply IHin].
      * intros Hl. apply IHout. intros Hin. apply Hl. now right.
Qed.

(** The INSERT of [add_documents]: the outcomes of a batch whose ids could
    all be assigned. *)
Lemma add_documents_assigned (self : PostgresDB) (p : Process)
      (documents : list DocumentRef) (h : nat -> DocMetaData) :
  assign_ids (heap (maybe_add_ids p documents)) documents = (h, Ok tt) ->
  add_documents self p documents =
    let p' := {| heap := h; ids_drawn := ids_drawn (maybe_add_ids p documents) |} in
    match map (new_record h) documents with
    | [] => (p', self, Ok tt)
    | _ :: _ =>
        match embeddings_table self with
        | None => (p', self, Raise ProgrammingError)
        | Some rows =>
            match sql_insert rows (map (new_record h) documents) with
            | Raise e => (p', self, Raise e)
            | Ok rows' =>
                (p',
                 {| config := config self;
                    engine := {| tables := <[collection_name (config self) := rows']>
                                             (tables (engine self));
                                 indexes := indexes (engine self) |} |},
                 Ok tt)
            end
        end
    end.
Proof. intros Ha. unfold add_documents. now rewrite Ha. Qed.

Lemma add_documents_Ok (self self' : PostgresDB) (p p' : Process)
      (documents : list DocumentRef) :
  add_documents self p documents = (p', self', Ok tt) ->
  assign_ids (heap (maybe_add_ids p documents)) documents = (heap p', Ok tt) /\
  (documents <> [] ->
   exists rows,
     embeddings_table self = Some rows /\
     embeddings_table self' = Some (rows ++ map (new_record (heap p')) documents)).
Proof.
  unfold add_documents.
  destruct (assign_ids _ _) as [h [[] | e]] eqn:Ea; [| discriminate].
  destruct (map (new_record h) documents) as [| r rs] eqn:Er.
  - intros [= <- <-]. split; [reflexivity |]. intros Hne. destruct documents; [congruence | inversion Er].
  - destruct (embeddings_table self) as [rows |] eqn:Et; [| discriminate].
    destruct (sql_insert rows (r :: rs)) as [rows' |] eqn:Ei; [| discriminate].
    intros [= <- <-]. split; [reflexivity |]. intros _. exists rows. split; [reflexivity |].
    apply sql_insert_Ok in Ei as (-> & _ & _).
    unfold embeddings_table. cbn [config engine tables heap]. now rewrite lookup_insert_eq, Er.
Qed.

(** C10.  When [add_documents] has returned, the metadata object of every
    document of the batch holds, in its field [id], the id that
    [_id_to_uuid] derives from the id and the object as they were after
    [maybe_add_ids] (as the caller gave them, when the id was not empty);
    the other fields of the object are as they were; the id is a canonical
    UUID text; and the row stored for the document carries that id and that
    object. *)
Theorem add_documents_assigns (self self' : PostgresDB) (p p' : Process)
        (documents : list DocumentRef) :
  add_documents self p documents = (p', self', Ok tt) ->
  Forall (fun doc =>
            let m1 := heap (maybe_add_ids p documents) (doc_metadata doc) in
            let m' := heap p' (doc_metadata doc) in
            _id_to_uuid (mytypes.id m1) m1 = Ok (mytypes.id m') /\
            m' = mytypes.set_id m1 (mytypes.id m') /\
            uuid.canonical (mytypes.id m') = true /\
            (mytypes.id (heap p (doc_metadata doc)) <> [] -> m1 = heap p (doc_metadata doc)) /\
            exists rows',
              embeddings_table self' = Some rows' /\
              {| rec_id := mytypes.id m';
                 rec_embedding := embedding_fn (doc_content doc);
                 rec_document := doc_content doc;
                 rec_cmetadata := m' |} ∈ rows')
         documents.
Proof.
  intros Hadd. destruct (add_documents_Ok _ _ _ _ _ Hadd) as [Ha Hrows].
  apply List.Forall_forall. intros doc Hdoc. apply list_elem_of_In in Hdoc. cbn zeta.
  destruct (assign_ids_spec _ _ _ Ha (doc_metadata doc)) as [Hin _].
  destruct Hin as (u & Hu & Hh'); [now apply list_elem_of_fmap_2 |].
  rewrite Hh', id_set_id. split; [exact Hu | split; [reflexivity | split; [| split]]].
  - destruct (id_to_uuid_canonical _ _ _ Hu) as (v & _ & ->). apply to_str_canonical.
  - apply maybe_add_ids_keeps.
  - destruct Hrows as (rows & _ & Ht); [intros ->; inversion Hdoc |].
    eexists. split; [exact Ht |]. apply elem_of_app. right.
    apply list_elem_of_fmap. exists doc. split; [| exact Hdoc].
    unfold new_record. now rewrite Hh'.
Qed.

(** C1.  Adding a document whose derived id is the id of a row of the
    collection raises [IntegrityError]: the statement is a plain INSERT and
    the column [id] is the primary key.  The store stays as it was, so the
    one row of that id is the row of the first insert; the caller's metadata
    object has been given the derived id all the same. *)
Theorem add_documents_reinsert (self : PostgresDB) (p : Process) (doc : DocumentRef)
        (rows : list StoredRecord) (u : list N) :
  let m := heap p (doc_metadata doc) in
  embeddings_table self = Some rows ->
  NoDup (map rec_id rows) ->
  mytypes.id m <> [] ->
  _id_to_uuid (mytypes.id m) m = Ok u ->
  u ∈ map rec_id rows ->
  add_documents self p [doc] =
    ({| heap := <[doc_metadata doc := mytypes.set_id m u]> (heap p);
        ids_drawn := ids_drawn p |}, self, Raise IntegrityError) /\
  exists r, filter (fun r => rec_id r = u) rows = [r].
Proof.
  intros m Ht Hnd Hid Hu Hin. split; [| now apply unique_row].
  assert (Hp : maybe_add_ids p [doc] = p).
  { cbn [maybe_add_ids]. fold m. now destruct (mytypes.id m). }
  rewrite (add_documents_assigned self p [doc]
             (<[doc_metadata doc := mytypes.set_id m u]> (heap p))).
  2:{ rewrite Hp. cbn [assign_ids]. fold m. now rewrite Hu. }
  rewrite Hp, Ht. cbn [map].
  rewrite (sql_insert_conflict rows _
             (new_record (<[doc_metadata doc := mytypes.set_id m u]> (heap p)) doc)).
  - reflexivity.
  - now left.
  - unfold new_record. cbn [rec_id]. now rewrite fn_lookup_insert.
Qed.

(** The primary key holds after every call of [add_documents], and a call
    that raises leaves the store as it was. *)
Theorem add_documents_keys (self self' : PostgresDB) (p p' : Process)
      (documents : list DocumentRef) (r : result unit) (rows : list StoredRecord) :
  embeddings_table self = Some rows -> NoDup (map rec_id rows) ->
  add_documents self p documents = (p', self', r) ->
  exists rows', embeddings_table self' = Some rows' /\ NoDup (map rec_id rows') /\
                (r <> Ok tt -> self' = self).
Proof.
  intros Ht Hnd. unfold add_documents.
  destruct (assign_ids _ _) as [h [[] | e]].
  2:{ intros [= <- <- <-]. exists rows. repeat split; assumption. }
  destruct (map (new_record h) documents) as [| x xs].
  { intros [= <- <- <-]. exists rows. repeat split; assumption. }
  rewrite Ht. destruct (sql_insert rows (x :: xs)) as [rows' | e] eqn:Ei.
  - intros [= <- <- <-]. exists rows'. split; [| split].
    + unfold embeddings_table. cbn [config engine tables]. now rewrite lookup_insert_eq.
    + apply sql_insert_Ok in Ei as (_ & Hk & _). now apply Hk.
    + congruence.
  - intros [= <- <- <-]. exists rows. repeat split; assumption.
Qed.

(** The rows that [add_documents] writes for objects that pass the validator
    pass it when they are read back. *)
Theorem add_documents_valid (self self' : PostgresDB) (p p' : Process)
      (documents : list DocumentRef) (rows : list StoredRecord) :
  embeddings_table self = Some rows ->
  Forall (fun r => valid_row r = true /\ valid_metadata r = true) rows ->
  Forall (fun doc => mytypes.ensure_not_empty (heap p (doc_metadata doc)) = true) documents ->
  add_documents self p documents = (p', self', Ok tt) ->
  exists rows',
    embeddings_table self' = Some rows' /\
    Forall (fun r => valid_row r = true /\ valid_metadata r = true) rows'.
Proof.
  intros Ht Hrows Hdocs Hadd.
  destruct documents as [| doc0 rest] eqn:Edocs.
  { cbn in Hadd. injection Hadd as <- <-. eauto. }
  rewrite <- Edocs in *. assert (Hne : documents <> []) by (rewrite Edocs; discriminate).
  clear Edocs doc0 rest.
  destruct (add_documents_Ok _ _ _ _ _ Hadd) as [Ha Hins].
  destruct (Hins Hne) as (rows0 & Ht0 & Ht'). rewrite Ht in Ht0. injection Ht0 as <-.
  eexists. split; [exact Ht' |]. apply Forall_app. split; [exact Hrows |].
  apply Forall_map. apply List.Forall_forall. intros doc Hdoc.
  rewrite List.Forall_forall in Hdocs. specialize (Hdocs doc Hdoc).
  apply list_elem_of_In in Hdoc.
  destruct (assign_ids_spec _ _ _ Ha (doc_metadata doc)) as [Hin _].
  destruct Hin as (u & Hu & Hh'); [now apply list_elem_of_fmap_2 |].
  assert (Hid : mytypes.id (heap p (doc_metadata doc)) <> []).
  { intros Hid. apply ensure_not_empty_id in Hdocs. congruence. }
  rewrite (maybe_add_ids_keeps p documents _ Hid) in Hu, Hh'.
  assert (Hvalid : mytypes.ensure_not_empty (heap p' (doc_metadata doc)) = true).
  { rewrite Hh'. apply ensure_not_empty_set_id; [exact Hdocs |].
    destruct (id_to_uuid_canonical _ _ _ Hu) as (v & _ & ->). apply to_str_not_empty. }
  unfold valid_row, valid_metadata, new_record. cbn [rec_id rec_cmetadata].
  now rewrite set_id_id.
Qed.

End AddDocuments.

(** ** Collisions *)
Section Collisions.
Context `{PythonRuntime}.

Lemma derived_value_bound (id : list N) (obj : DocMetaData) : derived_value id obj < 2 ^ 128.
Proof.
  unfold derived_value. destruct (hashed_name id obj) as [name |]; [| reflexivity].
  destruct (uuid.uuid5 name) as [v |] eqn:E; [now apply uuid5_range in E | reflexivity].
Qed.

Lemma id_to_uuid_derived (id : list N) (obj : DocMetaData) :
  is_ok (uuid.UUID id) = false -> codecs.encodable id -> codecs.encodable (repr obj) ->
  _id_to_uuid id obj = Ok (uuid.to_str (derived_value id obj)).
Proof.
  intros Hu Henc Hobj. destruct (uuid.UUID id) as [| e] eqn:E; [discriminate |].
  destruct (hashed_name_some id obj Hobj) as (b & Hb & Hn).
  rewrite (id_to_uuid_hashed id obj e _ E Hn). unfold derived_value. rewrite Hn.
  destruct (uuid5_returns (id ++ py "-" ++ hashlib.hexlify (hashlib.sha256 b))) as [v Hv].
  - apply utf8_encode_app; [now apply utf8_encode_encodable |].
    apply utf8_encode_app; [discriminate |].
    rewrite utf8_encode_ascii; [discriminate |]. apply hexlify_ascii, sha256_bytes.
  - now rewrite Hv.
Qed.

(** Among more than 2^128 objects two are given the same id. *)
Lemma id_to_uuid_collides (id : list N) (family : nat -> DocMetaData) :
  is_ok (uuid.UUID id) = false -> codecs.encodable id ->
  (forall n, codecs.encodable (repr (family n))) ->
  exists i j u, (i < j)%nat /\
    _id_to_uuid id (family i) = Ok u /\ _id_to_uuid id (family j) = Ok u.
Proof.
  intros Hu Henc Hfam.
  destruct (pigeonhole (2 ^ 128) (fun n => derived_value id (family n))) as (i & j & Hij & Heq).
  - intros n. apply derived_value_bound.
  - exists i, j, (uuid.to_str (derived_value id (family i))). split; [exact Hij | split].
    + now apply id_to_uuid_derived.
    + rewrite Heq. now apply id_to_uuid_derived.
Qed.

End Collisions.

(** * Listing, clearing and switching collections *)

Lemma NoDup_get_table_names (db : Database) : NoDup (get_table_names db).
Proof. apply NoDup_fst_map_to_list. Qed.

Lemma filter_all_true {A} (l : list A) : filter (fun _ : A => true) l = l.
Proof.
  induction l as [| a l IH]; [reflexivity |].
  rewrite filter_cons, decide_True by exact I. now rewrite IH.
Qed.

Lemma list_loop (self : PostgresDB) (empty : bool) (names acc : list (list N)) :
  (forall t, t ∈ names -> is_Some (tables (engine self) !! t)) ->
  foldl (list_step self empty) (Some acc) names
  = Some (acc ++ filter (fun t => empty || has_rows self t) names).
Proof.
  revert acc. induction names as [| t names IH]; intros acc Hex.
  - cbn. now rewrite app_nil_r.
  - cbn [foldl list_step]. destruct (Hex t) as [rows Hrows]; [now left |].
    unfold has_rows at 1. rewrite filter_cons. unfold has_rows at 1. rewrite Hrows.
    assert (Hex' : forall t', t' ∈ names -> is_Some (tables (engine self) !! t'))
      by (intros t' Ht'; apply Hex; now right).
    destruct empty; cbn [orb].
    + rewrite decide_True by exact I. rewrite IH by exact Hex'. now rewrite <- app_assoc.
    + destruct rows as [| r rows]; cbn.
      * rewrite decide_False by exact id. now apply IH.
      * rewrite decide_True by exact I. rewrite IH by exact Hex'. now rewrite <- app_assoc.
Qed.

(** [list_collections] returns.  With [empty=True] it gives every table name
    of the schema, as the inspector lists them; with [empty=False] the names
    among them, each once and in the same order, of the tables that hold a
    row. *)
Theorem list_collections_spec (self : PostgresDB) :
  list_collections self true = Some (get_table_names (engine self)) /\
  exists names,
    list_collections self false = Some names /\
    NoDup names /\
    names `sublist_of` get_table_names (engine self) /\
    forall name, name ∈ names <->
                 exists r rows, tables (engine self) !! name = Some (r :: rows).
Proof.
  assert (Hex : forall t, t ∈ get_table_names (engine self) ->
                          is_Some (tables (engine self) !! t))
    by (intros t; apply elem_of_get_table_names).
  unfold list_collections. rewrite !list_loop by exact Hex. cbn [app orb]. split.
  - now rewrite filter_all_true.
  - eexists. split; [reflexivity | split; [| split]].
    + apply NoDup_filter, NoDup_get_table_names.
    + apply sublist_filter.
    + intros name. rewrite list_elem_of_filter, elem_of_get_table_names. unfold has_rows.
      destruct (tables (engine self) !! name) as [[| r rows] |]; split.
      * now intros [[] _].
      * intros (r & rows & [=]).
      * intros _. eauto.
      * intros _. split; [exact I | eauto].
      * now intros [[] _].
      * intros (r & rows & [=]).
Qed.

Lemma filter_agree {A} (f g : A -> bool) (l : list A) :
  (forall x, x ∈ l -> f x = g x) -> filter f l = filter g l.
Proof.
  induction l as [| a l IH]; intros Hfg; [reflexivity |].
  rewrite !filter_cons, (Hfg a) by (now left).
  rewrite IH by (intros x Hx; apply Hfg; now right). reflexivity.
Qed.

Lemma filter_none {A} (l : list A) : filter (fun _ : A => false) l = [].
Proof.
  induction l as [| a l IH]; [reflexivity |]. now rewrite filter_cons, decide_False by exact id.
Qed.

Lemma map_eq_Some {A} (m1 m2 : gmap (list N) A) :
  (forall i x, m1 !! i = Some x <-> m2 !! i = Some x) -> m1 = m2.
Proof. intros Hm. apply map_eq. intros i. apply option_eq. intros x. apply Hm. Qed.

Lemma PostgresDB_eq (a b : PostgresDB) :
  config a = config b -> tables (engine a) = tables (engine b) ->
  indexes (engine a) = indexes (engine b) -> a = b.
Proof.
  destruct a as [ca [ta ia]], b as [cb [tb ib]]. cbn. now intros -> -> ->.
Qed.


Section Switching.
Context `{PostgreSQL}.

(** ** Deleting a collection *)

Lemma delete_collection_result (self : PostgresDB) (name j : list N) :
  drop_index_query name = Ok j ->
  tables (engine self) !! j = None ->
  exists self',
    delete_collection self name = (self', Ok tt) /\
    config self' = config self /\
    tables (engine self') !! name = None /\
    (forall other, other <> name ->
       tables (engine self') !! other = tables (engine self) !! other) /\
    (forall i d, indexes (engine self') !! i = Some d <->
                 indexes (engine self) !! i = Some d /\ i <> j /\ on_table d <> name) /\
    delete_collection self' name = (self', Ok tt).
Proof.
  intros Hj Hfree. exists (dropped self j name). unfold delete_collection. rewrite Hj, Hfree.
  assert (Hfree' : tables (engine (dropped self j name)) !! j = None).
  { rewrite dropped_tables, Hfree. now destruct (bool_decide _). }
  rewrite Hfree'.
  split; [reflexivity | split; [reflexivity | split; [| split; [| split]]]].
  - rewrite dropped_tables. now rewrite bool_decide_eq_true_2.
  - intros other Hne. rewrite dropped_tables. now rewrite bool_decide_eq_false_2.
  - intros i d. apply dropped_indexes.
  - f_equal. apply PostgresDB_eq; [reflexivity | |].
    + apply map_eq. intros i. rewrite !dropped_tables. now destruct (bool_decide _).
    + apply map_eq_Some. intros i d. rewrite !dropped_indexes. tauto.
Qed.

(** [delete_collection], by what the server reads in the DROP INDEX text.
    When it refuses the text the method raises and nothing is dropped, the
    table neither; so it is when what the text names is a table.  When it
    reads there the name [j], which no table has, the table of the
    collection is gone, with every index on it, and so is the index [j];
    nothing else changes; and deleting again changes nothing more. *)
Theorem delete_collection_spec (self : PostgresDB) (name : list N) :
  (forall e, drop_index_query name = Raise e ->
     delete_collection self name = (self, Raise e)) /\
  (forall j, drop_index_query name = Ok j -> is_Some (tables (engine self) !! j) ->
     delete_collection self name = (self, Raise ProgrammingError)) /\
  (forall j, drop_index_query name = Ok j -> tables (engine self) !! j = None ->
     exists self',
       delete_collection self name = (self', Ok tt) /\
       config self' = config self /\
       tables (engine self') !! name = None /\
       (forall other, other <> name ->
          tables (engine self') !! other = tables (engine self) !! other) /\
       (forall i d, indexes (engine self') !! i = Some d <->
                    indexes (engine self) !! i = Some d /\ i <> j /\ on_table d <> name) /\
       delete_collection self' name = (self', Ok tt)).
Proof.
  split; [| split].
  - intros e He. unfold delete_collection. now rewrite He.
  - intros j Hj [rows Hrows]. unfold delete_collection. now rewrite Hj, Hrows.
  - intros j. apply delete_collection_result.
Qed.

(** ** Clearing the empty collections *)

Lemma clear_empty_raised (names : list (list N)) (self : PostgresDB) (e : exn) :
  foldl clear_empty_step (self, Raise e) names = (self, Raise e).
Proof. induction names as [| t names IH]; [reflexivity | exact IH]. Qed.

(** The loop of [clear_empty_collections] when the DROP INDEX text of every
    table without rows can be carried out. *)
Lemma clear_empty_loop (names : list (list N)) (self : PostgresDB) (n : Z) :
  NoDup names ->
  (forall t, t ∈ names -> is_Some (tables (engine self) !! t)) ->
  (forall t, t ∈ names -> is_empty self t = true -> droppable self t = true) ->
  exists self',
    foldl clear_empty_step (self, Ok n) names
    = (self', Ok (n + Z.of_nat (length (filter (is_empty self) names)))%Z) /\
    config self' = config self /\
    (forall name, tables (engine self') !! name =
                    if bool_decide (name ∈ names) && is_empty self name then None
                    else tables (engine self) !! name) /\
    (forall i d, indexes (engine self') !! i = Some d <->
                 indexes (engine self) !! i = Some d /\
                 forall t, t ∈ names -> is_empty self t = true ->
                           drop_index_query t <> Ok i /\ on_table d <> t).
Proof.
  revert self n. induction names as [| t names IH]; intros self n Hnd Hex Hok.
  - exists self. cbn. split; [do 2 f_equal; lia | split; [reflexivity | split]].
    + reflexivity.
    + intros i d. split; [intros Hi; split; [exact Hi |] | tauto].
      intros t Ht. inversion Ht.
  - apply NoDup_cons in Hnd as [Ht Hnd].
    destruct (Hex t) as [rows Hrows]; [now left |].
    cbn [foldl clear_empty_step]. rewrite Hrows. rewrite filter_cons.
    assert (Hmem : forall name, name <> t ->
               bool_decide (name ∈ t :: names) = bool_decide (name ∈ names)).
    { intros name Hne. apply bool_decide_ext. rewrite elem_of_cons. tauto. }
    destruct rows as [| r rows].
    + (* the table is empty and is dropped *)
      assert (Het : is_empty self t = true) by (unfold is_empty; now rewrite Hrows).
      rewrite decide_True by (rewrite Het; exact I).
      destruct (delete_collection_droppable self t (Hok t ltac:(now left) Het))
        as (j & Ej & _ & ->).
      assert (Hsame : forall name, name ∈ names ->
                 tables (engine (dropped self j t)) !! name = tables (engine self) !! name).
      { intros name Hname. rewrite dropped_tables.
        rewrite bool_decide_eq_false_2; [reflexivity |]. intros ->. contradiction. }
      assert (Hempty : forall name, name ∈ names ->
                 is_empty (dropped self j t) name = is_empty self name).
      { intros name Hname. unfold is_empty. now rewrite Hsame. }
      destruct (IH (dropped self j t) (n + 1)%Z Hnd) as (self' & Hf & Hc & Htab & Hidx).
      { intros t' Ht'. rewrite Hsame by exact Ht'. apply Hex. now right. }
      { intros t' Ht' He'. rewrite Hempty in He' by exact Ht'.
        apply droppable_dropped, Hok; [now right | exact He']. }
      rewrite (filter_agree _ (is_empty self)) in Hf by exact Hempty.
      exists self'. split; [| split; [exact Hc | split]].
      * rewrite Hf. cbn [length]. do 2 f_equal. lia.
      * intros name. rewrite Htab. destruct (decide (name = t)) as [-> | Hne].
        -- rewrite (bool_decide_eq_false_2 (t ∈ names)) by exact Ht. cbn [andb].
           rewrite dropped_tables, (bool_decide_eq_true_2 (t = t)) by reflexivity.
           rewrite bool_decide_eq_true_2 by (now left). now rewrite Het.
        -- rewrite Hmem by exact Hne. rewrite dropped_tables.
           rewrite (bool_decide_eq_false_2 (name = t)) by exact Hne.
           unfold is_empty. rewrite dropped_tables.
           now rewrite (bool_decide_eq_false_2 (name = t)) by exact Hne.
      * intros i d. rewrite Hidx, dropped_indexes. split.
        -- intros [(Hi & Hn1 & Hn2) Hall]. split; [exact Hi |].
           intros t' Ht' He'. apply elem_of_cons in Ht' as [-> | Ht'].
           ++ split; [rewrite Ej; congruence | exact Hn2].
           ++ apply Hall; [exact Ht' |]. now rewrite Hempty.
        -- intros [Hi Hall]. split.
           ++ split; [exact Hi |]. destruct (Hall t ltac:(now left) Het) as [Hq Hon].
              split; [intros ->; now apply Hq | exact Hon].
           ++ intros t' Ht' He'. apply Hall; [now right |]. now rewrite <- Hempty.
    + (* the table has a row and is kept *)
      assert (Het : is_empty self t = false) by (unfold is_empty; now rewrite Hrows).
      rewrite decide_False by (rewrite Het; exact id).
      destruct (IH self n Hnd) as (self' & Hf & Hc & Htab & Hidx).
      { intros t' Ht'. apply Hex. now right. }
      { intros t' Ht'. apply Hok. now right. }
      exists self'. split; [exact Hf | split; [exact Hc | split]].
      * intros name. rewrite Htab. destruct (decide (name = t)) as [-> | Hne].
        -- rewrite Het, !andb_false_r. reflexivity.
        -- now rewrite Hmem.
      * intros i d. rewrite Hidx. split; intros [Hi Hall]; (split; [exact Hi |]).
        -- intros t' Ht' He'. apply elem_of_cons in Ht' as [-> | Ht']; [congruence |].
           now apply Hall.
        -- intros t' Ht' He'. apply Hall; [now right | exact He'].
Qed.


Lemma clear_empty_collections_result (self : PostgresDB) :
  (forall t, tables (engine self) !! t = Some [] -> droppable self t = true) ->
  exists self',
    clear_empty_collections self
    = (self', Ok (Z.of_nat (length (filter (is_empty self) (get_table_names (engine self))))))
    /\ config self' = config self /\
    (forall name, tables (engine self') !! name =
                    match tables (engine self) !! name with
                    | Some (r :: rows) => Some (r :: rows)
                    | _ => None
                    end) /\
    (forall i d, indexes (engine self') !! i = Some d <->
                 indexes (engine self) !! i = Some d /\
                 forall t, tables (engine self) !! t = Some [] ->
                           drop_index_query t <> Ok i /\ on_table d <> t).
Proof.
  intros Hok.
  assert (Hempty : forall t, is_empty self t = true <-> tables (engine self) !! t = Some []).
  { intros t. unfold is_empty.
    destruct (tables (engine self) !! t) as [[| r rows] |]; split; congruence. }
  destruct (clear_empty_loop (get_table_names (engine self)) self 0)
    as (self' & Hf & Hc & Htab & Hidx).
  - apply NoDup_get_table_names.
  - intros t. apply elem_of_get_table_names.
  - intros t _ Ht. now apply Hok, Hempty.
  - exists self'. split; [exact Hf | split; [exact Hc | split]].
    + intros name. rewrite Htab. unfold is_empty.
      destruct (tables (engine self) !! name) as [[| r rows] |] eqn:E.
      * rewrite bool_decide_eq_true_2; [reflexivity |].
        apply elem_of_get_table_names. rewrite E. eauto.
      * now rewrite andb_false_r.
      * now rewrite andb_false_r.
    + intros i d. rewrite Hidx. split; intros [Hi Hall]; (split; [exact Hi |]).
      * intros t Ht. apply Hall; [| now apply Hempty].
        apply elem_of_get_table_names. rewrite Ht. eauto.
      * intros t _ He. now apply Hall, Hempty.
Qed.


(** When the loop of [clear_empty_collections] returns, tables have only
    been dropped, and none of the names it looked at is a table without
    rows. *)
Lemma clear_empty_loop_Ok (names : list (list N)) (self self' : PostgresDB) (n n' : Z) :
  foldl clear_empty_step (self, Ok n) names = (self', Ok n') ->
  (forall t rows, tables (engine self') !! t = Some rows ->
                  tables (engine self) !! t = Some rows) /\
  (forall t, t ∈ names -> tables (engine self') !! t <> Some []).
Proof.
  revert self n. induction names as [| t names IH]; intros self n Hf.
  - cbn in Hf. injection Hf as <- _. split; [auto | intros t Ht; inversion Ht].
  - cbn [foldl clear_empty_step] in Hf.
    destruct (tables (engine self) !! t) as [[| r rows] |] eqn:Et; cbn iota in Hf.
    + unfold delete_collection in Hf.
      destruct (drop_index_query t) as [j | e];
        [| rewrite clear_empty_raised in Hf; discriminate].
      destruct (tables (engine self) !! j) eqn:Etj;
        [rewrite clear_empty_raised in Hf; discriminate |].
      destruct (IH _ _ Hf) as [Hsub Hno]. split.
      * intros x rows Hx. apply Hsub in Hx. rewrite dropped_tables in Hx.
        now destruct (bool_decide (x = t)).
      * intros x Hx Hempty. apply elem_of_cons in Hx as [-> | Hx]; [| now apply (Hno x)].
        apply Hsub in Hempty. rewrite dropped_tables in Hempty.
        now rewrite bool_decide_eq_true_2 in Hempty.
    + destruct (IH _ _ Hf) as [Hsub Hno]. split; [exact Hsub |].
      intros x Hx Hempty. apply elem_of_cons in Hx as [-> | Hx]; [| now apply (Hno x)].
      apply Hsub in Hempty. congruence.
    + rewrite clear_empty_raised in Hf. discriminate.
Qed.

(** After [clear_empty_collections] has returned, every collection has a
    row: clearing again deletes nothing and returns 0, and
    [list_collections] gives the same list with and without the empty
    collections. *)
Theorem clear_empty_collections_twice (self self' : PostgresDB) (n : Z) :
  clear_empty_collections self = (self', Ok n) ->
  clear_empty_collections self' = (self', Ok 0%Z) /\
  list_collections self' false = list_collections self' true /\
  list_collections self' true = Some (get_table_names (engine self')).
Proof.
  intros Hclear. unfold clear_empty_collections in Hclear.
  destruct (clear_empty_loop_Ok _ _ _ _ _ Hclear) as [Hsub Hno].
  assert (Hrows : forall t, is_empty self' t = false).
  { intros t. unfold is_empty.
    destruct (tables (engine self') !! t) as [[| r rows] |] eqn:Et; try reflexivity.
    exfalso. apply (Hno t); [| exact Et].
    apply elem_of_get_table_names. rewrite (Hsub _ _ Et). eauto. }
  assert (Hex : forall t, t ∈ get_table_names (engine self') ->
                          is_Some (tables (engine self') !! t))
    by (intros t; apply elem_of_get_table_names).
  split; [| split].
  - destruct (clear_empty_collections_result self') as (self'' & Heq & Hc & Htab' & Hidx').
    { intros t Ht. specialize (Hrows t). unfold is_empty in Hrows. now rewrite Ht in Hrows. }
    rewrite Heq. f_equal.
    + apply PostgresDB_eq; [exact Hc | |].
      * apply map_eq. intros t. rewrite Htab'. specialize (Hrows t). unfold is_empty in Hrows.
        now destruct (tables (engine self') !! t) as [[| r rows] |].
      * apply map_eq_Some. intros i d. rewrite Hidx'. split; [tauto |].
        intros Hi. split; [exact Hi |]. intros t Ht. specialize (Hrows t).
        unfold is_empty in Hrows. now rewrite Ht in Hrows.
    + rewrite (filter_agree _ (fun _ => false)) by (intros t _; apply Hrows).
      now rewrite filter_none.
  - unfold list_collections. rewrite !list_loop by exact Hex. f_equal. f_equal.
    apply filter_agree. intros t Ht. cbn [orb]. unfold has_rows.
    destruct (Hex t Ht) as [rows Hr]. specialize (Hrows t). unfold is_empty in Hrows.
    rewrite Hr in Hrows |- *. now destruct rows.
  - unfold list_collections. rewrite list_loop by exact Hex. cbn [app orb].
    now rewrite filter_all_true.
Qed.

(** ** Clearing twice *)

Lemma clear_loop_none (prefix : list N) (names : list (list N)) (acc : PostgresDB * result Z) :
  (forall t, t ∈ names -> startswith t prefix = false) ->
  foldl (clear_step prefix) acc names = acc.
Proof.
  revert acc. induction names as [| t names IH]; intros acc Hno; [reflexivity |].
  cbn [foldl]. destruct acc as [self [n | e]]; cbn [clear_step].
  - rewrite (Hno t) by (now left). apply IH. intros t' Ht'. apply Hno. now right.
  - apply IH. intros t' Ht'. apply Hno. now right.
Qed.

(** When the loop of [clear_all_collections] returns, tables have only been
    dropped, and those of the names it looked at that start with the prefix
    are gone. *)
Lemma clear_loop_Ok (prefix : list N) (names : list (list N)) (self self' : PostgresDB)
      (n n' : Z) :
  foldl (clear_step prefix) (self, Ok n) names = (self', Ok n') ->
  (forall t, is_Some (tables (engine self') !! t) -> is_Some (tables (engine self) !! t)) /\
  (forall t, t ∈ names -> startswith t prefix = true -> tables (engine self') !! t = None).
Proof.
  revert self n. induction names as [| t names IH]; intros self n Hf.
  - cbn in Hf. injection Hf as <- _. split; [auto | intros t Ht; inversion Ht].
  - cbn [foldl clear_step] in Hf. destruct (startswith t prefix) eqn:Et; cbn iota in Hf.
    + unfold delete_collection in Hf.
      destruct (drop_index_query t) as [j | e];
        [| rewrite clear_loop_raised in Hf; discriminate].
      destruct (tables (engine self) !! j) eqn:Etj;
        [rewrite clear_loop_raised in Hf; discriminate |].
      destruct (IH _ _ Hf) as [Hsub Hno].
      assert (Hgone : tables (engine self') !! t = None).
      { destruct (tables (engine self') !! t) eqn:E; [| reflexivity].
        destruct (Hsub t) as [rows Hr]; [rewrite E; eauto |].
        rewrite dropped_tables in Hr. now rewrite bool_decide_eq_true_2 in Hr. }
      split.
      * intros x Hx. apply Hsub in Hx. rewrite dropped_tables in Hx.
        destruct (bool_decide (x = t)); [| exact Hx]. now destruct Hx.
      * intros x Hx Hpre. apply elem_of_cons in Hx as [-> | Hx]; [exact Hgone |].
        now apply Hno.
    + destruct (IH _ _ Hf) as [Hsub Hno]. split; [exact Hsub |].
      intros x Hx Hpre. apply elem_of_cons in Hx as [-> | Hx]; [congruence |].
      now apply Hno.
Qed.

(** After [clear_all_collections] has returned no table name starts with the
    prefix, so clearing again with the same prefix deletes nothing and
    returns 0. *)
Theorem clear_all_collections_twice (self self' : PostgresDB) (prefix : list N) (n : Z) :
  clear_all_collections self true prefix = (self', Ok n) ->
  (forall name, name ∈ get_table_names (engine self') -> startswith name prefix = false) /\
  clear_all_collections self' true prefix = (self', Ok 0%Z).
Proof.
  unfold clear_all_collections. cbn [negb]. intros Hclear.
  destruct (clear_loop_Ok _ _ _ _ _ _ Hclear) as [Hsub Hgone].
  assert (Hno : forall name, name ∈ get_table_names (engine self') ->
                             startswith name prefix = false).
  { intros name Hname. apply elem_of_get_table_names in Hname.
    destruct (startswith name prefix) eqn:E; [| reflexivity].
    rewrite (Hgone name) in Hname; [now destruct Hname | | exact E].
    apply elem_of_get_table_names. now apply Hsub. }
  split; [exact Hno |]. now apply clear_loop_none.
Qed.

(** ** Switching collections *)

Lemma as_written_config (c c' : PostgresDBConfig) (name : list N) :
  hnsw_m c' = hnsw_m c -> hnsw_ef_construction c' = hnsw_ef_construction c ->
  as_written c name -> as_written c' name.
Proof. unfold as_written. now intros -> ->. Qed.









End Switching.

(** * Adding and finding documents *)

Lemma filter_agree_true {A} (f : A -> bool) (l : list A) :
  (forall x, f x = true) -> filter f l = l.
Proof.
  intros Hf. induction l as [| a l IH]; [reflexivity |].
  rewrite filter_cons, decide_True by (rewrite Hf; exact I). now rewrite IH.
Qed.

Lemma sql_insert_NoDup (rows new_records rows' : list StoredRecord) :
  sql_insert rows new_records = Ok rows' -> NoDup (map rec_id new_records).
Proof.
  revert rows. induction new_records as [| r rest IH]; intros rows; cbn [sql_insert map].
  - intros _. constructor.
  - destruct (bool_decide_reflect (rec_id r ∈ map rec_id rows)) as [| Hfresh]; [discriminate |].
    intros Hins. constructor; [| now apply (IH _ Hins)].
    intros Hin. apply list_elem_of_fmap in Hin as (x & Hx & Hin).
    apply sql_insert_Ok in Hins as (_ & _ & Hnew).
    apply (Hnew x Hin). rewrite map_app. apply elem_of_app. right. rewrite <- Hx. now left.
Qed.

Section Documents.
Context `{PythonRuntime} `{Collaborators}.

Lemma new_record_document (h : nat -> DocMetaData) (doc : DocumentRef) :
  row_document (new_record h doc) = stored_document h doc.
Proof.
  unfold row_document, new_record, stored_document. cbn [rec_document rec_cmetadata rec_id].
  now rewrite set_id_id.
Qed.

Lemma new_record_valid (h : nat -> DocMetaData) (doc : DocumentRef) :
  valid_row (new_record h doc) = mytypes.ensure_not_empty (h (doc_metadata doc)).
Proof.
  unfold valid_row, new_record. cbn [rec_cmetadata rec_id]. now rewrite set_id_id.
Qed.

(** The store after a call of [add_documents] that returns. *)
Lemma add_documents_store (self self' : PostgresDB) (p p' : Process)
      (documents : list DocumentRef) (rows : list StoredRecord) :
  embeddings_table self = Some rows ->
  add_documents self p documents = (p', self', Ok tt) ->
  config self' = config self /\
  indexes (engine self') = indexes (engine self) /\
  (forall other, other <> collection_name (config self) ->
     tables (engine self') !! other = tables (engine self) !! other) /\
  embeddings_table self' = Some (rows ++ map (new_record (heap p')) documents) /\
  (NoDup (map rec_id rows) ->
   NoDup (map rec_id (rows ++ map (new_record (heap p')) documents))).
Proof.
  intros Ht. unfold add_documents.
  destruct (assign_ids _ _) as [h [[] | e]]; [| discriminate].
  destruct (map (new_record h) documents) as [| r rs] eqn:Er.
  - intros [= <- <-]. cbn [heap]. rewrite Er, app_nil_r. repeat split; try assumption. tauto.
  - rewrite Ht. destruct (sql_insert rows (r :: rs)) as [rows' |] eqn:Ei; [| discriminate].
    intros [= <- <-]. cbn [heap config engine tables indexes]. rewrite Er.
    apply sql_insert_Ok in Ei as (-> & Hnd & _).
    split; [reflexivity | split; [reflexivity | split; [| split; [| exact Hnd]]]].
    + intros other Hne. now rewrite lookup_insert_ne by congruence.
    + unfold embeddings_table. cbn [config engine tables]. now rewrite lookup_insert_eq.
Qed.

(** [add_documents] only appends: the configuration, the indexes and the
    other collections are as they were, the rows of the collection are the
    old rows followed by one row for each document of the batch, in the
    order of the batch, and [get_all_documents] returns the documents it
    returned before followed by those of the batch. *)
Theorem add_documents_appends (self self' : PostgresDB) (p p' : Process)
        (documents : list DocumentRef) (before : list Document) :
  get_all_documents self [] = Ok before ->
  add_documents self p documents = (p', self', Ok tt) ->
  Forall (fun doc => mytypes.ensure_not_empty (heap p' (doc_metadata doc)) = true) documents ->
  config self' = config self /\
  indexes (engine self') = indexes (engine self) /\
  (forall other, other <> collection_name (config self) ->
     tables (engine self') !! other = tables (engine self) !! other) /\
  get_all_documents self' [] = Ok (before ++ map (stored_document (heap p')) documents).
Proof.
  intros Hbefore Hadd Hvalid. unfold get_all_documents in Hbefore.
  destruct (embeddings_table self) as [rows |] eqn:Ht; [| discriminate].
  apply (comprehension_guarded _ valid_row row_document ValidationError) in Hbefore
    as [Hrows ->]; [| apply parse_guarded].
  destruct (add_documents_store _ _ _ _ _ _ Ht Hadd) as (Hc & Hi & Hother & Ht' & _).
  split; [exact Hc | split; [exact Hi | split; [exact Hother |]]].
  unfold get_all_documents. rewrite Ht'.
  apply (comprehension_guarded _ valid_row row_document ValidationError);
    [apply parse_guarded |].
  split.
  - rewrite forallb_app, Hrows. cbn [andb]. apply List.forallb_forall. intros r Hr.
    apply in_map_iff in Hr as (doc & <- & Hdoc). rewrite new_record_valid.
    rewrite List.Forall_forall in Hvalid. now apply Hvalid.
  - rewrite map_app, map_map. f_equal. apply map_ext. intros doc.
    symmetry. apply new_record_document.
Qed.

Lemma add_documents_found (self self' : PostgresDB) (p p' : Process)
        (documents : list DocumentRef) (rows : list StoredRecord) (doc : DocumentRef) :
  embeddings_table self = Some rows -> NoDup (map rec_id rows) ->
  add_documents self p documents = (p', self', Ok tt) ->
  doc ∈ documents ->
  mytypes.ensure_not_empty (heap p' (doc_metadata doc)) = true ->
  get_documents_by_ids self' [mytypes.id (heap p' (doc_metadata doc))]
  = Ok [stored_document (heap p') doc].
Proof.
  intros Ht Hnd Hadd Hdoc Hvalid.
  destruct (add_documents_store _ _ _ _ _ _ Ht Hadd) as (_ & _ & _ & Ht' & Hnd').
  specialize (Hnd' Hnd).
  set (rows' := rows ++ map (new_record (heap p')) documents) in *.
  set (u := mytypes.id (heap p' (doc_metadata doc))).
  assert (Hrow : row_with_id rows' u = Some (new_record (heap p') doc)).
  { apply row_with_id_Some; [exact Hnd' |]. split; [| reflexivity].
    apply elem_of_app. right. apply list_elem_of_fmap. eauto. }
  unfold get_documents_by_ids. rewrite Ht'.
  rewrite bool_decide_eq_false_2 by (apply case_whens_nonempty; discriminate).
  rewrite select_by_ids by exact Hnd'.
  assert (Hrd : remove_dups [u] = [u]).
  { cbn [remove_dups]. destruct (decide_rel elem_of u []) as [Hin |]; [inversion Hin | reflexivity]. }
  rewrite Hrd. cbn [omap list_omap]. rewrite Hrow. cbn [comprehension].
  rewrite parse_guarded, new_record_valid, Hvalid. now rewrite new_record_document.
Qed.

(** What has been added is found under the id that the caller's metadata
    object now holds. *)
Theorem add_documents_lookup (self self' : PostgresDB) (p p' : Process)
        (documents : list DocumentRef) (rows : list StoredRecord) (doc : DocumentRef) :
  embeddings_table self = Some rows -> NoDup (map rec_id rows) ->
  add_documents self p documents = (p', self', Ok tt) ->
  doc ∈ documents ->
  mytypes.ensure_not_empty (heap p' (doc_metadata doc)) = true ->
  get_documents_by_ids self' [mytypes.id (heap p' (doc_metadata doc))]
  = Ok [stored_document (heap p') doc].
Proof. apply add_documents_found. Qed.

Lemma id_to_uuid_Raise (id : list N) (obj : DocMetaData) (e : exn) :
  _id_to_uuid id obj = Raise e -> e = UnicodeEncodeError /\ is_ok (uuid.UUID id) = false.
Proof.
  unfold _id_to_uuid. destruct (uuid.UUID id) as [v | e0] eqn:Hu; [discriminate |].
  rewrite (UUID_raises_ValueError id e0 Hu). cbn [is_ValueError is_ok].
  destruct (codecs.utf8_encode (repr obj)) as [b |]; [| now intros [= <-]].
  destruct (codecs.utf8_encode (id ++ py "-" ++ hashlib.hexlify (hashlib.sha256 b))) eqn:Ee.
  - destruct (uuid5_returns (id ++ py "-" ++ hashlib.hexlify (hashlib.sha256 b))) as [v Hv];
      [congruence |]. now rewrite Hv.
  - rewrite uuid5_raises by exact Ee. now intros [= <-].
Qed.

Lemma assign_ids_Raise (h h' : nat -> DocMetaData) (documents : list DocumentRef) (e : exn) :
  assign_ids h documents = (h', Raise e) -> e = UnicodeEncodeError.
Proof.
  revert h. induction documents as [| doc rest IH]; intros h; cbn [assign_ids]; [discriminate |].
  destruct (_id_to_uuid _ _) as [u | e0] eqn:E.
  - apply IH.
  - intros [= _ <-]. now apply id_to_uuid_Raise in E.
Qed.

(** A batch in which two documents share a metadata object, or one document
    occurs twice, is never stored: both rows would carry one id. *)
Theorem add_documents_shared_metadata (self : PostgresDB) (p : Process)
        (documents : list DocumentRef) :
  is_Some (embeddings_table self) ->
  ~ NoDup (map doc_metadata documents) ->
  exists p' e,
    add_documents self p documents = (p', self, Raise e) /\
    (e = IntegrityError \/ e = UnicodeEncodeError).
Proof.
  intros [rows Ht] Hdup. unfold add_documents.
  destruct (assign_ids _ _) as [h [[] | e]] eqn:Ea.
  - destruct (map (new_record h) documents) as [| r rs] eqn:Er.
    { destruct documents; [| discriminate]. exfalso. apply Hdup. constructor. }
    rewrite Ht. destruct (sql_insert rows (r :: rs)) as [rows' | e] eqn:Ei.
    + exfalso. apply Hdup. apply sql_insert_NoDup in Ei. rewrite <- Er in Ei.
      rewrite map_map in Ei. cbn [new_record rec_id] in Ei.
      change (map (fun x => mytypes.id (h (doc_metadata x))) documents)
        with ((fun l => mytypes.id (h l)) ∘ doc_metadata <$> documents) in Ei.
      rewrite list_fmap_compose in Ei. now apply NoDup_fmap_1 in Ei.
    + eexists _, e. split; [reflexivity |]. left. now apply sql_insert_Raise in Ei.
  - eexists _, e. split; [reflexivity |]. right. now apply assign_ids_Raise in Ea.
Qed.

Lemma assign_ids_app (h : nat -> DocMetaData) (before after : list DocumentRef) :
  assign_ids h (before ++ after) =
    match assign_ids h before with
    | (h1, Ok _) => assign_ids h1 after
    | (h1, Raise e) => (h1, Raise e)
    end.
Proof.
  revert h. induction before as [| doc rest IH]; intros h; cbn [app assign_ids]; [reflexivity |].
  destruct (_id_to_uuid _ _); [apply IH | reflexivity].
Qed.

(** The ids that the first loop of [add_documents] has assigned stay
    assigned when a later document makes [_id_to_uuid] raise: the call
    raises, nothing is stored, and the metadata of the documents before it
    hold their derived ids. *)
Theorem add_documents_partial (self : PostgresDB) (p : Process)
        (before after : list DocumentRef) (doc : DocumentRef)
        (h1 : nat -> DocMetaData) (e : exn) :
  let documents := before ++ doc :: after in
  let p0 := maybe_add_ids p documents in
  assign_ids (heap p0) before = (h1, Ok tt) ->
  _id_to_uuid (mytypes.id (h1 (doc_metadata doc))) (h1 (doc_metadata doc)) = Raise e ->
  add_documents self p documents = ({| heap := h1; ids_drawn := ids_drawn p0 |}, self, Raise e) /\
  e = UnicodeEncodeError /\
  Forall (fun d => uuid.canonical (mytypes.id (h1 (doc_metadata d))) = true /\
                   _id_to_uuid (mytypes.id (heap p0 (doc_metadata d))) (heap p0 (doc_metadata d))
                   = Ok (mytypes.id (h1 (doc_metadata d)))) before /\
  h1 (doc_metadata doc) = heap p0 (doc_metadata doc).
Proof.
  intros documents p0 Hbefore Hraise.
  assert (Hall : assign_ids (heap p0) documents = (h1, Raise e)).
  { unfold documents. rewrite assign_ids_app, Hbefore. cbn [assign_ids]. now rewrite Hraise. }
  split; [| split; [now apply id_to_uuid_Raise in Hraise | split]].
  - unfold add_documents. fold documents p0. now rewrite Hall.
  - apply List.Forall_forall. intros d Hd. apply list_elem_of_In in Hd.
    destruct (assign_ids_spec _ _ _ Hbefore (doc_metadata d)) as [Hin _].
    destruct Hin as (u & Hu & Hh1); [now apply list_elem_of_fmap_2 |].
    rewrite Hh1, id_set_id. split; [| exact Hu].
    destruct (id_to_uuid_canonical _ _ _ Hu) as (v & _ & ->). apply to_str_canonical.
  - destruct (assign_ids_spec _ _ _ Hbefore (doc_metadata doc)) as [Hin Hout].
    destruct (decide (doc_metadata doc ∈ map doc_metadata before)) as [Hmem | Hmem];
      [| now apply Hout].
    exfalso. destruct (Hin Hmem) as (u & Hu & Hh1). rewrite Hh1, id_set_id in Hraise.
    rewrite (id_to_uuid_idempotent _ _ _ _ Hu) in Hraise. discriminate.
Qed.

End Documents.

Section Queries.
Context `{PythonRuntime} `{Collaborators}.

(** A filter only leaves documents out: what [get_all_documents] returns
    with a filter that is a JSON text is a sublist of what it returns
    without one, and the whole of it for the empty object. *)
Theorem get_all_documents_sublist (self : PostgresDB) (where_ : list N) (where_json : JSON)
        (docs : list Document) :
  where_ <> [] -> json_loads where_ = Some where_json ->
  get_all_documents self [] = Ok docs ->
  exists docs',
    get_all_documents self where_ = Ok docs' /\
    docs' `sublist_of` docs /\
    (where_json = JObj [] -> docs' = docs).
Proof.
  intros Hne Hj Hall. unfold get_all_documents in Hall |- *.
  destruct where_ as [| c w]; [congruence |]. rewrite Hj.
  destruct (embeddings_table self) as [rows |]; [| discriminate].
  apply (comprehension_guarded _ valid_row row_document ValidationError) in Hall
    as [Hrows ->]; [| apply parse_guarded].
  exists (map row_document (filter (cmetadata_contains where_json) rows)).
  split; [| split].
  - apply (comprehension_guarded _ valid_row row_document ValidationError);
      [apply parse_guarded |].
    split; [| reflexivity]. apply List.forallb_forall. intros r Hr.
    rewrite List.forallb_forall in Hrows. apply Hrows.
    apply list_elem_of_In, list_elem_of_filter in Hr as [_ Hr]. now apply list_elem_of_In.
  - apply (fmap_sublist row_document), sublist_filter.
  - intros ->. f_equal. rewrite (filter_agree_true (cmetadata_contains (JObj [])));
      [reflexivity | reflexivity].
Qed.

End Queries.

(** * Documents made from strings *)

Lemma uuid4_returns (urandom : list N) :
  length urandom = 16%nat -> Forall (fun x => x < 256) urandom ->
  exists v, uuid4 urandom = Ok v /\ v < 2 ^ 128.
Proof.
  intros Hlen Hb. unfold uuid4, uuid.UUID_of_bytes. rewrite Hlen. cbn [Nat.eqb negb].
  eexists. split; [reflexivity |].
  pose proof (from_bytes_bound urandom Hb) as Hfb. rewrite Hlen in Hfb.
  change (256 ^ N.of_nat 16) with (2 ^ 128) in Hfb.
  apply lor_lt_pow2; [| reflexivity].
  eapply N.le_lt_trans; [apply N.ldiff_le_l |].
  apply lor_lt_pow2; [| reflexivity].
  eapply N.le_lt_trans; [apply N.ldiff_le_l |]. exact Hfb.
Qed.

Section FromString.
Context `{PythonRuntime} `{Collaborators}.

(** A document made by [Document.from_string] is stored under the id it was
    made with and read back as it is: [add_documents] keeps the id and the
    metadata object, and [get_documents_by_ids] of [doc.id()] returns the
    document. *)
Theorem from_string_stored (urandom content source : list N) (is_chunk : bool) :
  length urandom = 16%nat -> Forall (fun x => x < 256) urandom -> source <> [] ->
  exists doc,
    from_string urandom content source is_chunk = Ok doc /\
    mytypes.content doc = content /\
    mytypes.ensure_not_empty (mytypes.metadata doc) = true /\
    uuid.canonical (Document_id doc) = true /\
    forall (self : PostgresDB) (p : Process) (l : nat) (rows : list StoredRecord),
      heap p l = mytypes.metadata doc ->
      embeddings_table self = Some rows -> NoDup (map rec_id rows) ->
      Document_id doc ∉ map rec_id rows ->
      exists p' self',
        add_documents self p [ {| doc_content := content; doc_metadata := l |} ]
        = (p', self', Ok tt) /\
        heap p' l = mytypes.metadata doc /\
        get_documents_by_ids self' [Document_id doc] = Ok [doc].
Proof.
  intros Hlen Hb Hsrc. destruct (uuid4_returns urandom Hlen Hb) as (v & Hv & Hrange).
  unfold from_string. rewrite Hv. rewrite bool_decide_eq_false_2 by exact Hsrc.
  eexists. split; [reflexivity |]. cbn [mytypes.content mytypes.metadata Document_id].
  set (m := {| mytypes.source := source; mytypes.id := uuid.to_str v |}).
  assert (Hvalid : mytypes.ensure_not_empty m = true).
  { unfold mytypes.ensure_not_empty, m. cbn [forallb mytypes.source mytypes.source_content
      mytypes.id mytypes.title mytypes.published_date].
    rewrite !andb_true_iff, !negb_true_iff, !bool_decide_eq_false.
    repeat split; [exact Hsrc | | apply to_str_not_empty | |]; vm_compute; discriminate. }
  split; [reflexivity | split; [exact Hvalid | split; [apply to_str_canonical |]]].
  intros self p l rows Hl Ht Hnd Hfresh. unfold Document_id in Hfresh |- *.
  cbn [mytypes.metadata mytypes.id m] in Hfresh |- *.
  set (doc := {| doc_content := content; doc_metadata := l |}).
  assert (Hid : _id_to_uuid (mytypes.id m) m = Ok (uuid.to_str v))
    by (apply id_to_uuid_fixed, to_str_canonical).
  assert (Hp : maybe_add_ids p [doc] = p).
  { cbn [maybe_add_ids doc doc_metadata]. rewrite Hl.
    change (mytypes.id m) with (uuid.to_str v).
    pose proof (to_str_not_empty v). now destruct (uuid.to_str v). }
  set (h := <[l := mytypes.set_id m (uuid.to_str v)]> (heap p)).
  assert (Ha : assign_ids (heap (maybe_add_ids p [doc])) [doc] = (h, Ok tt)).
  { rewrite Hp. cbn [assign_ids doc doc_metadata]. rewrite Hl, Hid. reflexivity. }
  assert (Hh : h l = m).
  { unfold h. rewrite fn_lookup_insert. apply set_id_id. }
  assert (Hadd : add_documents self p [doc]
                 = ({| heap := h; ids_drawn := ids_drawn p |},
                    {| config := config self;
                       engine := {| tables := <[collection_name (config self) :=
                                                  rows ++ [new_record h doc]]>
                                                (tables (engine self));
                                    indexes := indexes (engine self) |} |}, Ok tt)).
  { rewrite (add_documents_assigned self p [doc] h Ha). rewrite Hp, Ht. cbn [map sql_insert].
    rewrite bool_decide_eq_false_2; [reflexivity |].
    unfold new_record. cbn [rec_id doc doc_metadata]. now rewrite Hh. }
  eexists _, _. split; [exact Hadd | split; [exact Hh |]].
  pose proof (add_documents_found _ _ _ _ _ _ doc Ht Hnd Hadd) as Hfound.
  cbn [heap doc doc_metadata] in Hfound. rewrite Hh in Hfound.
  unfold stored_document in Hfound. cbn [doc_content doc_metadata doc] in Hfound.
  rewrite Hh in Hfound. apply Hfound; [now left | exact Hvalid].
Qed.

End FromString.

(** * Entities, dictionaries and the engine *)

Section EntityFacts.
Context `{UnicodeCase}.

Lemma lower_ascii (s : list N) :
  Forall (fun c => c < 128) s -> lower s = map ascii_lower s.
Proof.
  intros Hs. unfold lower.
  replace (forallb (fun c => c <? 128) s) with true; [reflexivity |].
  symmetry. apply forallb_forall. intros c Hc. rewrite List.Forall_forall in Hs.
  apply N.ltb_lt. now apply Hs.
Qed.

Lemma lower_value (e : Entity) : lower (Entity_value e) = map ascii_lower (Entity_value e).
Proof. now destruct e. Qed.

(** [Entity]'s comparisons.  Members are equal to themselves only; a member
    equals an ASCII string exactly when the string is its value up to the
    case of the letters; [!=] is the negation of [==] for [None], strings
    and members, but both are false for any other object; and a member
    hashes as the lower-case string it equals. *)
Theorem Entity_comparisons (e : Entity) :
  (forall e', Entity_eq e (PyEntity e') = true <-> e = e') /\
  (forall s, Forall (fun c => c < 128) s ->
     (Entity_eq e (PyStr s) = true <-> map ascii_lower s = map ascii_lower (Entity_value e))) /\
  Entity_eq e PyNone = false /\
  (forall other, other <> PyObject -> Entity__ne__ e other = negb (Entity_eq e other)) /\
  (Entity_eq e PyObject = false /\ Entity__ne__ e PyObject = false) /\
  (forall s, Entity_eq e (PyStr s) = true -> lower s = s ->
     Entity__hash__ e = str_hash s).
Proof.
  split; [| split; [| split; [| split; [| split]]]].
  - intros e'. unfold Entity_eq, Entity__eq__, str_eqb. rewrite !lower_value.
    rewrite bool_decide_eq_true. split; [| now intros ->].
    destruct e, e'; intros Heq; try reflexivity; vm_compute in Heq; discriminate.
  - intros s Hs. unfold Entity_eq, Entity__eq__, str_eqb.
    rewrite lower_value, (lower_ascii s Hs), bool_decide_eq_true. split; congruence.
  - reflexivity.
  - intros [| s | e' |] Hne; try reflexivity. congruence.
  - split; reflexivity.
  - intros s Heq Hs. unfold Entity_eq, Entity__eq__, str_eqb in Heq.
    apply bool_decide_eq_true in Heq. unfold Entity__hash__. now rewrite Heq, Hs.
Qed.

End EntityFacts.

Lemma NoDup_keys_value {A} (d : list (list N * A)) (k : list N) (v v' : A) :
  NoDup (map fst d) -> (k, v') ∈ d -> (k, v) ∈ d -> v' = v.
Proof.
  induction d as [| [k0 v0] d IH]; cbn [map fst]; intros Hnd H1 H2; [inversion H1 |].
  apply NoDup_cons in Hnd as [Hk0 Hnd].
  assert (Hkey : forall w, (k, w) ∈ d -> k0 <> k).
  { intros w Hw ->. apply Hk0. apply list_elem_of_fmap. now exists (k, w). }
  apply elem_of_cons in H1 as [E1 | H1]; apply elem_of_cons in H2 as [E2 | H2].
  - congruence.
  - injection E1 as -> _. now destruct (Hkey v H2).
  - injection E2 as -> _. now destruct (Hkey v' H1).
  - now apply IH.
Qed.

Lemma dict_set_present (d : list (list N * JSON)) (k : list N) (v : JSON) :
  k ∈ map fst d -> NoDup (map fst d) ->
  json.dict_set d k v = map (fun kv => if str_eqb kv.1 k then (kv.1, v) else kv) d.
Proof.
  induction d as [| [k' v'] d IH]; cbn [map fst json.dict_set]; intros Hin Hnd.
  - inversion Hin.
  - apply NoDup_cons in Hnd as [Hk' Hnd]. unfold str_eqb at 1 2.
    destruct (bool_decide_reflect (k' = k)) as [-> | Hne].
    + f_equal. symmetry. rewrite <- (map_id d) at 2. apply map_ext_in. intros [k2 v2] Hin2.
      cbn [fst]. unfold str_eqb. rewrite bool_decide_eq_false_2; [reflexivity |].
      intros ->. apply Hk'. apply list_elem_of_In. apply in_map_iff. now exists (k, v2).
    + f_equal. apply IH; [| exact Hnd]. apply elem_of_cons in Hin as [|]; [congruence | assumption].
Qed.

Lemma bool_int_loop (l d : list (list N * JSON)) :
  NoDup (map fst l) -> NoDup (map fst d) -> (forall kv, kv ∈ l -> kv ∈ d) ->
  foldl bool_int_step d l
  = map (fun kv => if bool_decide (kv.1 ∈ map fst l) then (kv.1, bool_int kv.2) else kv) d.
Proof.
  revert d. induction l as [| [k v] l IH]; intros d Hl Hd Hsub.
  - cbn [foldl map]. rewrite <- (map_id d) at 1. apply map_ext. intros kv.
    rewrite bool_decide_eq_false_2; [reflexivity | intros Hin; inversion Hin].
  - cbn [map fst] in Hl. apply NoDup_cons in Hl as [Hk Hl]. cbn [foldl].
    assert (Hkv : (k, v) ∈ d) by (apply Hsub; now left).
    assert (Hval : forall v', (k, v') ∈ d -> v' = v).
    { intros v' Hv'. now apply (NoDup_keys_value d k v v'). }
    set (g := fun kv : list N * JSON => if str_eqb kv.1 k then (kv.1, bool_int kv.2) else kv).
    assert (Hstep : bool_int_step d (k, v) = map g d).
    { assert (Hset : forall w, (forall v', (k, v') ∈ d -> bool_int v' = w) ->
                               json.dict_set d k w = map g d).
      { intros w Hw. rewrite dict_set_present; [| | exact Hd].
        - apply map_ext_in. intros [k2 v2] Hin2. unfold g. cbn [fst snd]. unfold str_eqb.
          destruct (bool_decide_reflect (k2 = k)) as [-> |]; [| reflexivity].
          f_equal. symmetry. apply Hw. now apply list_elem_of_In.
        - apply list_elem_of_fmap. now exists (k, v). }
      cbn [bool_int_step]. destruct v; try (apply Hset; intros v' Hv'; now rewrite (Hval v' Hv')).
      all: rewrite <- (map_id d) at 1; apply map_ext_in; intros [k2 v2] Hin2;
        unfold g; cbn [fst snd]; unfold str_eqb;
        (destruct (bool_decide_reflect (k2 = k)) as [-> |]; [| reflexivity]);
        apply list_elem_of_In in Hin2; now rewrite (Hval v2 Hin2). }
    rewrite Hstep. rewrite IH; [| exact Hl | |].
    + rewrite map_map. apply map_ext_in. intros [k2 v2] Hin2. unfold g. cbn [fst snd].
      unfold str_eqb. cbn [map fst].
      destruct (bool_decide_reflect (k2 = k)) as [-> | Hne]; cbn [fst snd].
      * rewrite (bool_decide_eq_false_2 (k ∈ map fst l)) by exact Hk.
        rewrite bool_decide_eq_true_2 by (now left). reflexivity.
      * rewrite (bool_decide_ext (k2 ∈ k :: map fst l) (k2 ∈ map fst l));
          [reflexivity | rewrite elem_of_cons; tauto].
    + rewrite map_map. rewrite (map_ext _ fst); [exact Hd |].
      intros [k2 v2]. unfold g. cbn [fst]. now destruct (str_eqb k2 k).
    + intros [k2 v2] Hin2. apply list_elem_of_fmap. exists (k2, v2). split.
      * unfold g. cbn [fst]. unfold str_eqb. rewrite bool_decide_eq_false_2; [reflexivity |].
        intros ->. apply Hk. apply list_elem_of_fmap. now exists (k, v2).
      * apply Hsub. now right.
Qed.

(** [dict_bool_int] on an object whose field names are distinct: the keys
    of [dict()] in their order, every value that is a [bool] replaced by 0
    or 1 and every other value, the nested ones with their [bool]s too, as
    it is; so no value of the result is a [bool], and converting what has
    been converted changes nothing. *)
Theorem dict_bool_int_spec (self : DocMetaData) :
  NoDup (map fst (mytypes.dict self)) ->
  dict_bool_int self = map (fun kv => (kv.1, bool_int kv.2)) (mytypes.dict self) /\
  map fst (dict_bool_int self) = map fst (mytypes.dict self) /\
  Forall (fun kv => forall b, kv.2 <> JBool b) (dict_bool_int self) /\
  dict_get (py "is_chunk") (dict_bool_int self)
    = Some (JNum (if mytypes.is_chunk self then 1 else 0)) /\
  foldl bool_int_step (dict_bool_int self) (dict_bool_int self) = dict_bool_int self.
Proof.
  intros Hnd.
  assert (Heq : dict_bool_int self = map (fun kv => (kv.1, bool_int kv.2)) (mytypes.dict self)).
  { unfold dict_bool_int. rewrite bool_int_loop by (try assumption; tauto).
    apply map_ext_in. intros kv Hin. rewrite bool_decide_eq_true_2; [reflexivity |].
    apply list_elem_of_In. now apply in_map. }
  assert (Hkeys : map fst (dict_bool_int self) = map fst (mytypes.dict self)).
  { rewrite Heq, map_map. reflexivity. }
  split; [exact Heq | split; [exact Hkeys | split; [| split]]].
  - rewrite Heq. apply Forall_map. apply List.Forall_forall. intros [k v] _ b. cbn [snd].
    now destruct v.
  - rewrite Heq. unfold mytypes.dict. cbn [map app fst snd bool_int]. reflexivity.
  - rewrite bool_int_loop; [| now rewrite Hkeys | now rewrite Hkeys | tauto].
    rewrite <- (map_id (dict_bool_int self)) at 2. apply map_ext_in. intros [k v] Hin.
    destruct (bool_decide _); [| reflexivity]. cbn [fst snd]. f_equal.
    rewrite Heq in Hin. apply in_map_iff in Hin as ([k' v'] & [= <- <-] & _). cbn [snd].
    now destruct v'.
Qed.

(** [_create_engine] by mode.  With [docker] set the [cloud] flag and
    POSTGRES_CONNECTION_STRING play no part, [ValueError] is raised exactly
    when the host is empty, the port is 0 or one of POSTGRES_USER,
    POSTGRES_PASSWORD, POSTGRES_DB is set to the empty string, and otherwise
    the engine is created and [cloud] is switched off.  With [cloud] alone
    the engine is created from POSTGRES_CONNECTION_STRING as it is, and
    [ValueError] is raised when that is unset or empty.  With neither no
    engine is created: the method raises [UnboundLocalError]. *)
Theorem create_engine_modes (config : ConnectionConfig) (environ : gmap (list N) (list N)) :
  (docker config = true ->
   (forall flag s,
      (_create_engine {| cloud := flag; docker := true; host := host config;
                         port := port config |}
                      (<[py "POSTGRES_CONNECTION_STRING" := s]> environ)).2
      = (_create_engine config environ).2) /\
   ((_create_engine config environ).2 = RaiseValueError <->
    host config = [] \/ port config = 0%Z \/ environ !! py "POSTGRES_USER" = Some []
    \/ environ !! py "POSTGRES_PASSWORD" = Some [] \/ environ !! py "POSTGRES_DB" = Some []) /\
   (forall url, (_create_engine config environ).2 = Connect url ->
      cloud (_create_engine config environ).1 = false /\
      url = py "postgresql+psycopg2://"
              ++ getenv environ (py "POSTGRES_USER") (py "postgres") ++ py ":"
              ++ getenv environ (py "POSTGRES_PASSWORD") (py "postgres") ++ py "@"
              ++ host config ++ py ":" ++ pyrepr.repr_int (port config) ++ py "/"
              ++ getenv environ (py "POSTGRES_DB") (py "langroid")) /\
   (_create_engine config environ).2 <> RaiseUnboundLocalError) /\
  (docker config = false -> cloud config = true ->
   (_create_engine config environ).1 = config /\
   ((_create_engine config environ).2 = RaiseValueError <->
    environ !! py "POSTGRES_CONNECTION_STRING" = None
    \/ environ !! py "POSTGRES_CONNECTION_STRING" = Some []) /\
   (forall url, (_create_engine config environ).2 = Connect url <->
      url <> [] /\ environ !! py "POSTGRES_CONNECTION_STRING" = Some url)) /\
  (docker config = false -> cloud config = false ->
   _create_engine config environ = (config, RaiseUnboundLocalError)).
Proof.
  split; [| split].
  - intros Hd.
    assert (Hempty : forall key d, d <> [] ->
              (str_eqb (getenv environ key d) [] = true <-> environ !! key = Some [])).
    { intros key d Hne. unfold getenv, str_eqb. rewrite bool_decide_eq_true.
      destruct (environ !! key) as [s |]; simpl; split; intros; congruence. }
    assert (Hcond :
      negb (negb (str_eqb (host config) []) && negb (port config =? 0)%Z
            && negb (str_eqb (getenv environ (py "POSTGRES_USER") (py "postgres")) [])
            && negb (str_eqb (getenv environ (py "POSTGRES_PASSWORD") (py "postgres")) [])
            && negb (str_eqb (getenv environ (py "POSTGRES_DB") (py "langroid")) [])) = true <->
      host config = [] \/ port config = 0%Z \/ environ !! py "POSTGRES_USER" = Some []
      \/ environ !! py "POSTGRES_PASSWORD" = Some [] \/ environ !! py "POSTGRES_DB" = Some []).
    { rewrite <- (Hempty (py "POSTGRES_USER") (py "postgres")),
              <- (Hempty (py "POSTGRES_PASSWORD") (py "postgres")),
              <- (Hempty (py "POSTGRES_DB") (py "langroid")) by (vm_compute; discriminate).
      rewrite !negb_andb, !negb_involutive, !orb_true_iff.
      unfold str_eqb at 1. rewrite bool_decide_eq_true, Z.eqb_eq. tauto. }
    unfold _create_engine. rewrite Hd. cbn [docker host port].
    split; [| split; [| split]].
    + intros flag s. unfold getenv.
      rewrite !lookup_insert_ne by (vm_compute; discriminate). now destruct (negb _).
    + destruct (negb _) eqn:E; cbn [snd].
      * rewrite <- Hcond. tauto.
      * rewrite <- Hcond. split; [discriminate | congruence].
    + intros url. destruct (negb _); cbn [fst snd cloud]; [discriminate |].
      intros [= <-]. now split.
    + now destruct (negb _).
  - intros Hd Hc. unfold _create_engine. rewrite Hd, Hc.
    destruct (environ !! py "POSTGRES_CONNECTION_STRING") as [[| c s] |]; cbn [fst snd];
      (split; [reflexivity | split]).
    + split; [tauto | reflexivity].
    + intros url. split; [discriminate | intros [Hne [= <-]]; congruence].
    + split; [discriminate | intros [[=] | [=]]].
    + intros url. split; [intros [= <-]; now split | intros [_ [= ->]]; reflexivity].
    + split; [tauto | reflexivity].
    + intros url. split; [discriminate | intros [_ [=]]].
  - intros Hd Hc. unfold _create_engine. now rewrite Hd, Hc.
Qed.

(** * The reference instantiation *)

Lemma hex_digits_ascii (n : nat) (v : N) : Forall (fun c => c < 128) (uuid.hex_digits n v).
Proof.
  eapply List.Forall_impl; [| apply hex_digits_lower].
  intros c Hc. pose proof (hex_lower_range c Hc). lia.
Qed.

Lemma ascii_literal (l : list N) :
  forallb (fun c => c <? 128) l = true -> Forall (fun c => c < 128) l.
Proof.
  intros Hl. apply List.Forall_forall. intros c Hc.
  apply N.ltb_lt. revert c Hc. now apply List.forallb_forall.
Qed.

Lemma ascii_encodable (s : list N) : Forall (fun c => c < 128) s -> codecs.encodable s.
Proof.
  apply List.Forall_impl. intros c Hc. lia.
Qed.

Lemma repr_char_ascii (quote c : N) :
  quote < 128 -> Forall (fun x => x < 128) (pyrepr.repr_char quote c).
Proof.
  intros Hq. unfold pyrepr.repr_char.
  destruct (N.eqb_spec c quote) as [-> | _]; cbn [orb]; [now repeat constructor |].
  destruct (N.eqb_spec c 92) as [-> | _]; [now repeat constructor |].
  destruct (c =? 9); [now repeat constructor |].
  destruct (c =? 10); [now repeat constructor |].
  destruct (c =? 13); [now repeat constructor |].
  destruct ((c <? 32) || (c =? 127));
    [apply Forall_app; split; [now repeat constructor | apply hex_digits_ascii] |].
  destruct (N.ltb_spec c 128); [now repeat constructor |].
  destruct (c <? 256); [| destruct (c <? 65536)];
    (apply Forall_app; split; [now repeat constructor | apply hex_digits_ascii]).
Qed.

Lemma repr_str_ascii (s : list N) : Forall (fun x => x < 128) (pyrepr.repr_str s).
Proof.
  unfold pyrepr.repr_str. cbv zeta.
  set (quote := if mem 39 s && negb (mem 34 s) then 34 else 39).
  assert (Hq : quote < 128) by (unfold quote; destruct (_ && _); lia).
  clearbody quote.
  constructor; [exact Hq |]. apply Forall_app. split; [| now repeat constructor].
  induction s as [| c s IH]; [constructor |].
  cbn [flat_map]. apply Forall_app. split; [now apply repr_char_ascii | exact IH].
Qed.

Lemma join_ascii (sep : list N) (parts : list (list N)) :
  Forall (fun x => x < 128) sep -> Forall (Forall (fun x => x < 128)) parts ->
  Forall (fun x => x < 128) (pyrepr.join sep parts).
Proof.
  intros Hsep. induction 1 as [| p parts Hp Hparts IH]; [constructor |].
  cbn [pyrepr.join]. destruct parts as [| q parts]; [exact Hp |].
  apply Forall_app. split; [exact Hp |]. apply Forall_app. split; [exact Hsep | exact IH].
Qed.

(** The repr of an object without extra fields is ASCII: the names of the
    declared fields are, and [ascii] escapes the rest. *)
Lemma repr_metadata_ascii (m : DocMetaData) :
  mytypes.extra m = [] -> Forall (fun x => x < 128) (pyrepr.repr_metadata m).
Proof.
  intros Hextra. unfold pyrepr.repr_metadata. rewrite Hextra. cbn [map app].
  assert (Hlit : forall s l, forallb (fun c => c <? 128) (py s) = true ->
                   Forall (fun x => x < 128) l -> Forall (fun x => x < 128) (py s ++ l)).
  { intros s l Hs Hl. apply Forall_app. split; [now apply ascii_literal | exact Hl]. }
  apply Hlit; [reflexivity |]. apply Forall_app. split; [| now apply ascii_literal].
  apply join_ascii; [now apply ascii_literal |].
  do 4 (constructor; [apply Hlit; [reflexivity | apply repr_str_ascii] |]).
  constructor.
  { apply Hlit; [reflexivity |].
    unfold pyrepr.repr_bool. destruct (mytypes.is_chunk m); now apply ascii_literal. }
  constructor; [apply Hlit; [reflexivity | apply repr_str_ascii] |].
  constructor; [| constructor].
  apply Hlit; [reflexivity |]. apply Forall_app. split; [| now apply ascii_literal].
  apply join_ascii; [now apply ascii_literal |].
  apply Forall_map. apply List.Forall_forall. intros w _. apply repr_str_ascii.
Qed.

(** * Examples *)
Module Example.
Import Sample.

#[local] Existing Instance python_311.
#[local] Existing Instance letter_model.
#[local] Existing Instance postgres_16.

(** The models agree with CPython: [hashlib], [uuid] and the derived ids of
    the three documents. *)
Example sha256_abc :
  hashlib.hexlify (hashlib.sha256 (py "abc"))
  = py "ba7816bf8f01cfea414140de5dae2223b00361a396177a9cb410ff61f20015ad".
Proof. vm_compute. reflexivity. Qed.

Example sha1_abc :
  hashlib.hexlify (hashlib.sha1 (py "abc")) = py "a9993e364706816aba3e25717850c26c9cd0d89d".
Proof. vm_compute. reflexivity. Qed.

Example uuid5_python_org :
  uuid.to_str <$> (match uuid.uuid5 (py "python.org") with Ok v => Some v | Raise _ => None end)
  = Some (py "886313e1-3b8a-5372-9b90-0c9aee199e5d").
Proof. vm_compute. reflexivity. Qed.

Example added_ids :
  added.2 = Ok tt /\
  (rec_id <$> default [] (embeddings_table store)) = [uuid_doc1; uuid_doc2; uuid_doc3] /\
  (rec_document <$> default [] (embeddings_table store)) = [py "aab"; py "abb"; py "ccc"].
Proof. vm_compute. repeat split. Qed.

(** C1: a second insert of a stored id fails. *)
Lemma add_documents_again_raises :
  (add_documents store process1 [revised]).2 = Raise IntegrityError /\
  (add_documents store process1 [revised]).1.2 = store /\
  filter (fun r => rec_id r = uuid_doc1) (default [] (embeddings_table store))
  = [ {| rec_id := uuid_doc1; rec_embedding := [2; 1; 0]%Q; rec_document := py "aab";
         rec_cmetadata := meta uuid_doc1 (py "x") |} ].
Proof. vm_compute. repeat split. Qed.

Lemma add_documents_reinsert_witness :
  add_documents store process1 [revised] =
    ({| heap := <[0%nat := mytypes.set_id (heap process1 0%nat) uuid_doc1]> (heap process1);
        ids_drawn := ids_drawn process1 |}, store, Raise IntegrityError) /\
  exists r, filter (fun r => rec_id r = uuid_doc1) (default [] (embeddings_table store)) = [r].
Proof.
  apply (add_documents_reinsert store process1 revised
           (default [] (embeddings_table store)) uuid_doc1).
  - vm_compute. reflexivity.
  - apply (bool_decide_unpack _). vm_compute. exact I.
  - vm_compute. discriminate.
  - vm_compute. reflexivity.
  - apply (bool_decide_unpack _). vm_compute. exact I.
Defined.

(** C2: an upper-case UUID parses and comes back in lower case. *)
Lemma id_to_uuid_lowercases :
  is_ok (uuid.UUID (py "A0EEBC99-9C0B-4EF8-BB6D-6BB9BD380A11")) = true /\
  _id_to_uuid (py "A0EEBC99-9C0B-4EF8-BB6D-6BB9BD380A11") (objects 0%nat)
  = Ok (py "a0eebc99-9c0b-4ef8-bb6d-6bb9bd380a11") /\
  py "a0eebc99-9c0b-4ef8-bb6d-6bb9bd380a11" <> py "A0EEBC99-9C0B-4EF8-BB6D-6BB9BD380A11".
Proof. vm_compute. repeat split. discriminate. Qed.

Lemma id_to_uuid_normalises_witness :
  (forall v, uuid.UUID (py "A0EEBC99-9C0B-4EF8-BB6D-6BB9BD380A11") = Ok v ->
             _id_to_uuid (py "A0EEBC99-9C0B-4EF8-BB6D-6BB9BD380A11") (objects 0%nat)
             = Ok (uuid.to_str v)) /\
  _id_to_uuid uuid_doc3 (objects 2%nat) = Ok uuid_doc3.
Proof.
  split.
  - apply (id_to_uuid_normalises (py "A0EEBC99-9C0B-4EF8-BB6D-6BB9BD380A11") (objects 0%nat)).
  - destruct (id_to_uuid_normalises uuid_doc3 (objects 2%nat)) as [_ [Hfixed _]].
    apply Hfixed. vm_compute. reflexivity.
Defined.

(** C3: an id with a lone surrogate makes [_id_to_uuid] raise, and so does
    an object whose repr holds one; and two different objects are given one
    id. *)
Lemma id_to_uuid_raises_and_collides :
  _id_to_uuid [0xD800] (objects 0%nat) = Raise UnicodeEncodeError /\
  _id_to_uuid (py "doc") surrogate_field = Raise UnicodeEncodeError /\
  exists obj1 obj2 u,
    obj1 <> obj2 /\ is_ok (uuid.UUID (py "doc")) = false /\
    _id_to_uuid (py "doc") obj1 = Ok u /\ _id_to_uuid (py "doc") obj2 = Ok u.
Proof.
  split; [vm_compute; reflexivity | split; [vm_compute; reflexivity |]].
  destruct (id_to_uuid_collides (py "doc") titled) as (i & j & u & Hij & Hi & Hj).
  - vm_compute. reflexivity.
  - change (py "doc") with [100; 111; 99]. repeat constructor; lia.
  - intros n. now apply ascii_encodable, repr_metadata_ascii.
  - exists (titled i), (titled j), u. split; [| split; [vm_compute; reflexivity | now split]].
    intros Heq. apply (f_equal (fun m => length (mytypes.title m))) in Heq.
    cbn [titled mytypes.title] in Heq. rewrite !repeat_length in Heq. lia.
Qed.

Lemma id_to_uuid_derives_witness :
  (exists u, _id_to_uuid (py "doc1") (objects 0%nat) = Ok u /\ uuid.canonical u = true) /\
  _id_to_uuid (py "doc") surrogate_field = Raise UnicodeEncodeError.
Proof.
  split.
  - destruct (id_to_uuid_derives (py "doc1") (objects 0%nat) (objects 1%nat)) as (Hret & _).
    apply Hret. right. split; apply ascii_encodable, ascii_literal; vm_compute; reflexivity.
  - destruct (id_to_uuid_derives (py "doc") surrogate_field surrogate_field)
      as (_ & Hraise & _).
    apply Hraise; [vm_compute; reflexivity |].
    intros [_ Hobj]. apply utf8_encode_encodable in Hobj. apply Hobj.
    vm_compute. reflexivity.
Defined.

(** C6 and C7: "aab" is nearest to the query "aa", yet with the filter on
    the tag "y" only "abb" comes back. *)
Example similar_texts_unfiltered :
  similar_texts_with_scores store (py "aa") 2 None
  = Ok [ (stored (py "aab") uuid_doc1 (py "x"), (4 # 5)%Q);
         (stored (py "abb") uuid_doc2 (py "y"), (1 # 5)%Q) ].
Proof. vm_compute. reflexivity. Qed.

Example similar_texts_filter_y :
  similar_texts_with_scores store (py "aa") 5 (Some (tag_filter (py "y")))
  = Ok [ (stored (py "abb") uuid_doc2 (py "y"), (1 # 5)%Q) ].
Proof. vm_compute. reflexivity. Qed.

Lemma similar_texts_filtered_witness :
  exists res,
    similar_texts_with_scores store (py "aa") 5 (Some (tag_filter (py "y"))) = Ok res /\
    Forall (fun ds => jsonb_contains (JObj (mytypes.dict (mytypes.metadata ds.1)))
                                     (JObj [(py "tag", JStr (py "y"))]) = true) res /\
    length res = 1%nat.
Proof.
  destruct (similar_texts_filtered store (py "aa") 5 (tag_filter (py "y"))
              (JObj [(py "tag", JStr (py "y"))]) (default [] (embeddings_table store)))
    as (res & chosen & rest & Hres & Hall & _ & _ & Hlen & _).
  - vm_compute. reflexivity.
  - vm_compute. reflexivity.
  - lia.
  - vm_compute. repeat constructor.
  - exists res. split; [exact Hres | split; [exact Hall |]].
    rewrite Hlen. vm_compute. reflexivity.
Defined.

Lemma similar_texts_ranked_witness :
  exists res,
    similar_texts_with_scores store (py "aa") 2 None = Ok res /\
    (Z.of_nat (length res) <= 2)%Z /\
    StronglySorted (fun a b => (b.2 <= a.2)%Q) res.
Proof.
  destruct (similar_texts_ranked store (py "aa") 2 None (default [] (embeddings_table store)))
    as (res & chosen & Hres & Hlen & _ & _ & _ & Hsorted).
  - vm_compute. reflexivity.
  - lia.
  - discriminate.
  - vm_compute. repeat constructor.
  - exists res. split; [exact Hres | split; [exact Hlen | exact Hsorted]].
Defined.

(** C8: [get_all_documents] answers a text that is no JSON as it answers a
    filter that matches nothing, and the empty text as no filter. *)
Lemma get_all_documents_swallows :
  json_loads not_json = None /\
  get_all_documents store not_json = Ok [] /\
  is_Some (json_loads (tag_filter (py "z"))) /\
  get_all_documents store (tag_filter (py "z")) = Ok [] /\
  json_loads [] = None /\
  get_all_documents store []
  = Ok [ stored (py "aab") uuid_doc1 (py "x"); stored (py "abb") uuid_doc2 (py "y");
         stored (py "ccc") uuid_doc3 (py "x") ].
Proof. vm_compute. repeat split. eauto. Qed.

Lemma malformed_filter_witness :
  similar_texts_with_scores store (py "aa") 5 (Some not_json) = Raise ValueError /\
  get_all_documents store not_json = Ok [].
Proof.
  destruct (malformed_filter store (py "aa") 5 not_json) as (Hsim & Hall & _).
  - vm_compute. reflexivity.
  - split; [exact Hsim | apply Hall; discriminate].
Defined.

(** The reference server reads "docs" and "other" as they are written,
    folds "Docs" to "docs", and refuses "my-docs" and the key word "user". *)
Example reference_readings :
  as_written (config store) (py "other") /\
  drop_index_query (py "Docs") = Ok (index_name (py "docs")) /\
  drop_index_query (py "my-docs") = Raise ProgrammingError /\
  create_index_query (py "my-docs") 16 200 = Raise ProgrammingError /\
  create_index_query (py "user") 16 200 = Raise ProgrammingError /\
  create_table_query (py "my-docs") = Ok tt.
Proof. unfold as_written. vm_compute. repeat split. Qed.



(** C5 on the example: the two "test_" collections go. *)
Example clear_all_collections_example :
  (clear_all_collections store false (py "test_")).2 = Ok 0%Z /\
  (clear_all_collections store true (py "test_")).2 = Ok 2%Z /\
  get_table_names (engine (clear_all_collections store true (py "test_")).1)
  = [py "docs"; py "other"].
Proof. vm_compute. repeat split. Qed.

(** C5 where it fails: [set_collection("my-docs")] has raised and left the
    table of that name; with it in the store, [clear_all_collections]
    raises at the DROP INDEX text and the table stays. *)
Example clear_all_collections_raises :
  set_collection store (py "my-docs") false = (hyphened, Raise ProgrammingError) /\
  tables (engine hyphened) !! py "my-docs" = Some [] /\
  clear_all_collections hyphened true (py "my") = (hyphened, Raise ProgrammingError).
Proof. vm_compute. repeat split. Qed.

(** Tables and indexes share their names.  With a collection named as the
    index of "other" is, [create_collection("other")] returns and leaves
    "other" without its index, and "other" cannot be deleted. *)
Example names_shared :
  set_collection store (index_name (py "other")) false = (shadowed, Ok tt) /\
  is_Some (tables (engine shadowed) !! index_name (py "other")) /\
  (create_collection shadowed (py "other") false).2 = Ok tt /\
  indexes (engine (create_collection shadowed (py "other") false).1)
    !! index_name (py "other") = None /\
  delete_collection shadowed (py "other") = (shadowed, Raise ProgrammingError).
Proof. vm_compute. repeat split. eauto. Qed.

Lemma clear_all_collections_gated_witness :
  is_Some (tables (engine hyphened) !! py "my-docs") /\
  exists self' e,
    clear_all_collections hyphened true [] = (self', Raise e) /\
    is_Some (tables (engine self') !! py "my-docs").
Proof.
  split; [vm_compute; eauto |].
  destruct (clear_all_collections_gated hyphened []) as (_ & _ & Hrefused).
  apply (Hrefused (py "my-docs")); [vm_compute; eauto | reflexivity | vm_compute; reflexivity].
Defined.

(** C10: the caller's three metadata objects after the call. *)
Lemma add_documents_assigns_witness :
  add_documents empty_store process documents = (process1, store, Ok tt) /\
  mytypes.id <$> (heap process1 <$> [0; 1; 2]%nat) = [uuid_doc1; uuid_doc2; uuid_doc3] /\
  Forall (fun doc =>
            _id_to_uuid (mytypes.id (heap (maybe_add_ids process documents) (doc_metadata doc)))
                        (heap (maybe_add_ids process documents) (doc_metadata doc))
            = Ok (mytypes.id (heap process1 (doc_metadata doc))) /\
            uuid.canonical (mytypes.id (heap process1 (doc_metadata doc))) = true)
         documents.
Proof.
  assert (Hadd : add_documents empty_store process documents = (process1, store, Ok tt))
    by (vm_compute; reflexivity).
  split; [exact Hadd | split; [vm_compute; reflexivity |]].
  pose proof (add_documents_assigns empty_store store process process1 documents Hadd) as Hall.
  eapply List.Forall_impl; [| exact Hall].
  intros doc (Hid & _ & Hcan & _). split; [exact Hid | exact Hcan].
Defined.

(** Ids are answered in the order asked, unknown ones left out. *)
Lemma get_documents_by_ids_ordered_witness :
  get_documents_by_ids store [uuid_doc3; py "unknown"; uuid_doc1]
  = Ok [ stored (py "ccc") uuid_doc3 (py "x"); stored (py "aab") uuid_doc1 (py "x") ] /\
  exists docs,
    get_documents_by_ids store [uuid_doc3; py "unknown"; uuid_doc1] = Ok docs /\
    map (fun d => mytypes.id (mytypes.metadata d)) docs = [uuid_doc3; uuid_doc1].
Proof.
  split; [vm_compute; reflexivity |].
  destruct (get_documents_by_ids_ordered store [uuid_doc3; py "unknown"; uuid_doc1]
              (default [] (embeddings_table store))) as (docs & Hd & _ & Hids).
  - vm_compute. reflexivity.
  - apply (bool_decide_unpack _). vm_compute. exact I.
  - vm_compute. repeat constructor.
  - discriminate.
  - exists docs. split; [exact Hd |]. rewrite Hids. vm_compute. reflexivity.
Defined.

(** The filter on the tag "x" keeps the first and the third document. *)
Lemma get_all_documents_filtered_witness :
  get_all_documents store (tag_filter (py "x"))
  = Ok [ stored (py "aab") uuid_doc1 (py "x"); stored (py "ccc") uuid_doc3 (py "x") ].
Proof.
  rewrite (get_all_documents_filtered store (tag_filter (py "x"))
             (JObj [(py "tag", JStr (py "x"))]) (default [] (embeddings_table store))).
  - vm_compute. reflexivity.
  - discriminate.
  - vm_compute. reflexivity.
  - vm_compute. reflexivity.
  - vm_compute. repeat constructor.
Defined.

(** The id derived for "doc1" is kept when it is derived from again. *)
Lemma id_to_uuid_stable_witness :
  uuid.canonical uuid_doc1 = true /\ _id_to_uuid uuid_doc1 (objects 1%nat) = Ok uuid_doc1.
Proof.
  apply (id_to_uuid_stable (py "doc1") (objects 0%nat) (objects 1%nat) uuid_doc1).
  vm_compute. reflexivity.
Defined.

(** The ids of the example store are unique after the failed insert too. *)
Lemma add_documents_keys_witness :
  exists rows',
    embeddings_table (add_documents store process1 [revised]).1.2 = Some rows' /\
    NoDup (map rec_id rows') /\
    ((add_documents store process1 [revised]).2 <> Ok tt ->
     (add_documents store process1 [revised]).1.2 = store).
Proof.
  apply (add_documents_keys store (add_documents store process1 [revised]).1.2 process1
           (add_documents store process1 [revised]).1.1 [revised]
           (add_documents store process1 [revised]).2
           (default [] (embeddings_table store))).
  - vm_compute. reflexivity.
  - apply (bool_decide_unpack _). vm_compute. exact I.
  - now destruct (add_documents store process1 [revised]) as [[p' self'] r].
Defined.

(** The three rows of the example store pass the validator. *)
Lemma add_documents_valid_witness :
  exists rows',
    embeddings_table store = Some rows' /\
    Forall (fun r => valid_row r = true /\ valid_metadata r = true) rows'.
Proof.
  apply (add_documents_valid empty_store store process process1 documents []).
  - vm_compute. reflexivity.
  - constructor.
  - vm_compute. repeat constructor.
  - vm_compute. reflexivity.
Defined.

(** ** Listing, clearing, adding and searching on the example store *)
Ltac computed := vm_compute; reflexivity.
Ltac each_row := vm_compute; repeat constructor.

Lemma clear_empty_collections_twice_witness :
  clear_empty_collections store = (cleared, Ok 3%Z) /\
  clear_empty_collections cleared = (cleared, Ok 0%Z) /\
  list_collections cleared false = list_collections cleared true.
Proof.
  assert (Hclear : clear_empty_collections store = (cleared, Ok 3%Z)) by computed.
  destruct (clear_empty_collections_twice store cleared 3 Hclear) as (Htwice & Hlist & _).
  split; [exact Hclear | split; [exact Htwice | exact Hlist]].
Defined.

Lemma clear_all_collections_twice_witness :
  clear_all_collections (clear_all_collections store true (py "test_")).1 true (py "test_")
  = ((clear_all_collections store true (py "test_")).1, Ok 0%Z).
Proof.
  destruct (clear_all_collections_twice store
              (clear_all_collections store true (py "test_")).1 (py "test_") 2) as [_ Htwice].
  - computed.
  - exact Htwice.
Defined.





Lemma add_documents_appends_witness :
  get_all_documents store [] = Ok ([] ++ map (stored_document (heap process1)) documents).
Proof.
  destruct (add_documents_appends empty_store store process process1 documents [])
    as (_ & _ & _ & Hall).
  - computed.
  - computed.
  - each_row.
  - exact Hall.
Defined.

Lemma add_documents_lookup_witness :
  get_documents_by_ids store [mytypes.id (heap process1 0%nat)]
  = Ok [stored_document (heap process1) first_document].
Proof.
  apply (add_documents_lookup empty_store store process process1 documents [] first_document).
  - computed.
  - constructor.
  - computed.
  - now left.
  - computed.
Defined.

Lemma add_documents_shared_metadata_witness :
  exists p' e,
    add_documents store process1 [revised; revised] = (p', store, Raise e) /\
    (e = IntegrityError \/ e = UnicodeEncodeError).
Proof.
  apply (add_documents_shared_metadata store process1 [revised; revised]).
  - vm_compute. eauto.
  - intros Hnd. apply NoDup_cons in Hnd as [Hin _]. apply Hin. now left.
Defined.

Lemma add_documents_partial_witness :
  (add_documents store process_bad [first_document; bad_document; second_document]).2
  = Raise UnicodeEncodeError /\
  uuid.canonical
    (mytypes.id (heap (add_documents store process_bad
                         [first_document; bad_document; second_document]).1.1 0%nat)) = true.
Proof.
  destruct (add_documents_partial store process_bad [first_document] [second_document]
              bad_document
              (assign_ids (heap (maybe_add_ids process_bad
                 [first_document; bad_document; second_document])) [first_document]).1
              UnicodeEncodeError) as (Hadd & _ & Hbefore & _).
  - computed.
  - computed.
  - cbn [app] in Hadd. rewrite Hadd. cbn [fst snd heap]. split; [reflexivity |].
    apply Forall_inv in Hbefore as [Hcan _]. exact Hcan.
Defined.

Lemma get_all_documents_sublist_witness :
  exists docs',
    get_all_documents store (tag_filter (py "x")) = Ok docs' /\
    docs' `sublist_of` [ stored (py "aab") uuid_doc1 (py "x");
                         stored (py "abb") uuid_doc2 (py "y");
                         stored (py "ccc") uuid_doc3 (py "x") ] /\
    (JObj [(py "tag", JStr (py "x"))] = JObj [] ->
     docs' = [ stored (py "aab") uuid_doc1 (py "x"); stored (py "abb") uuid_doc2 (py "y");
               stored (py "ccc") uuid_doc3 (py "x") ]).
Proof.
  apply (get_all_documents_sublist store (tag_filter (py "x"))).
  - vm_compute. discriminate.
  - computed.
  - computed.
Defined.

Lemma from_string_stored_witness :
  exists doc,
    from_string urandom (py "aab") (py "context") true = Ok doc /\
    mytypes.content doc = py "aab" /\
    mytypes.ensure_not_empty (mytypes.metadata doc) = true /\
    uuid.canonical (Document_id doc) = true.
Proof.
  destruct (from_string_stored urandom (py "aab") (py "context") true)
    as (doc & Hdoc & Hcontent & Hvalid & Hcan & _).
  - reflexivity.
  - unfold urandom. cbn [seq map]. repeat constructor.
  - vm_compute. discriminate.
  - now exists doc.
Defined.

Lemma dict_bool_int_spec_witness :
  dict_bool_int (objects 0%nat)
  = map (fun kv => (kv.1, bool_int kv.2)) (mytypes.dict (objects 0%nat)).
Proof.
  apply (dict_bool_int_spec (objects 0%nat)).
  apply (bool_decide_unpack _). vm_compute. exact I.
Defined.

End Example.
